(** * Crash game round engine: fairness generator, multiplier clock, round ledger

    A shallow embedding of the round engine of the crash game server:

    - [ProvablyFair]  : [src/utils/provablyFair.js] (hash, crash point, verify);
    - [Config]        : [src/config/config.js] (game constants and defaults);
    - [Wallet]        : the wallet model's [updateBalance];
    - [GameService]   : [services/game.service.js] (phases, timers, ledger,
                        [placeBet], [cashOut], pause / resume / stop);
    - [GameController]: [controllers/game.controller.js] ([placeBet], [cashOut]);
    - [WalletService] : [services/wallet.service.js] ([updateBalance]);
    - [SeedDatabase]  : [utils/seedDatabase.js] ([createSampleGameRounds]);
    - [Invariants]    : what holds in every world the server can be in;
    - [Scenario], [Demo] : concrete games with two users, for the examples.

    Conventions of the embedding.

    - JavaScript numbers are modelled exactly: integers as [Z], amounts and
      multipliers as rationals [Q]; [NaN] is [None] in an [option].  Rounding
      of IEEE doubles is not modelled.
    - Strings are byte strings ([string]); a user id is a string.
    - Node's [crypto.createHash('sha256')] is the function [Sha256.digest_hex]
      below, written after FIPS 180-4; [crypto.randomBytes] is an input (the
      seed is a parameter of the operation that draws it).
    - [Date.now()] reads the field [clock] of the world, which only moves
      forward ([Elapse]).
    - Timers are state (armed or not) and a timer callback is an event that
      may fire whenever its timer is armed.
    - [placeBet] and [cashOut] are [async]: each runs without interruption
      from one [await] to the next, and anything may happen in between.  A
      request in flight is kept in the world ([requests]) as the [await] it
      is suspended at, with the local variables of its continuation; the
      store operation awaited and the code that follows it form one step
      ([Continue]).  The functions [placeBet] and [cashOut] are the
      handlers run from the first line to the last with nothing in between
      (the events [PlaceBet] and [CashOut]).
    - The store is the wallet and transaction collections.  A wallet
      [save] sets the modified balance of the stored document; a
      transaction [save] validates the document first ([gameRoundId] is a
      required [ObjectId]).  Other store failures appear only where the
      service handles them ([startRound]).  A user id stands for the
      [ObjectId] string of a user.
    - [server.js] calls [startGameLoop] after every connection attempt: it
      is an event ([StartGameLoop]) as well as the first step. *)

From Stdlib Require Import ZArith QArith Qround Qreduction Lia Lqa Ascii.
From stdpp Require Import gmap strings list pretty.

Local Open Scope Z_scope.

(* ===================================================================== *)
(** ** SHA-256 (FIPS 180-4), over [Z] with explicit 32-bit wrap-around    *)
(* ===================================================================== *)

Module Sha256.

Definition wrap32 (x : Z) : Z := x mod 2 ^ 32.
Definition plus32 (x y : Z) : Z := wrap32 (x + y).
Definition rotr (n x : Z) : Z :=
  Z.lor (Z.shiftr x n) (wrap32 (Z.shiftl x (32 - n))).
Definition not32 (x : Z) : Z := wrap32 (Z.lnot x).

Definition choose (e f g : Z) : Z := Z.lxor (Z.land e f) (Z.land (not32 e) g).
Definition majority (a b c : Z) : Z :=
  Z.lxor (Z.lxor (Z.land a b) (Z.land a c)) (Z.land b c).
Definition big_sigma0 (a : Z) : Z := Z.lxor (Z.lxor (rotr 2 a) (rotr 13 a)) (rotr 22 a).
Definition big_sigma1 (e : Z) : Z := Z.lxor (Z.lxor (rotr 6 e) (rotr 11 e)) (rotr 25 e).
Definition small_sigma0 (w : Z) : Z := Z.lxor (Z.lxor (rotr 7 w) (rotr 18 w)) (Z.shiftr w 3).
Definition small_sigma1 (w : Z) : Z := Z.lxor (Z.lxor (rotr 17 w) (rotr 19 w)) (Z.shiftr w 10).

(** The constants are the leading 32 fractional bits of the square roots
    (initial state) and cube roots (round constants) of the first primes;
    they are computed here rather than tabulated. *)
Definition is_prime (p : Z) : bool :=
  forallb (fun d => negb (p mod d =? 0)) (seqZ 2 (p - 2)).
Definition primes64 : list Z :=
  Eval vm_compute in filter (fun p => is_prime p = true) (seqZ 2 310).

Fixpoint cube_root_bits (bits : nat) (n r : Z) : Z :=
  match bits with
  | O => r
  | S k =>
      let r' := r + 2 ^ Z.of_nat k in
      cube_root_bits k n (if r' * r' * r' <=? n then r' else r)
  end.
Definition cube_root (n : Z) : Z := cube_root_bits 40 n 0.

Definition initial_words : list Z :=
  Eval vm_compute in map (fun p => wrap32 (Z.sqrt (p * 2 ^ 64))) (take 8 primes64).
Definition round_constants : list Z :=
  Eval vm_compute in map (fun p => wrap32 (cube_root (p * 2 ^ 96))) primes64.

Record state := State {
  h0 : Z; h1 : Z; h2 : Z; h3 : Z; h4 : Z; h5 : Z; h6 : Z; h7 : Z }.

Definition initial_state : state :=
  match initial_words with
  | [a; b; c; d; e; f; g; h] => State a b c d e f g h
  | _ => State 0 0 0 0 0 0 0 0
  end.

(** Padding: a [1] bit, zeros, and the bit length on 64 bits, big endian. *)
Definition big_endian (bytes : nat) (x : Z) : list Z :=
  map (fun i => (x / 256 ^ Z.of_nat (bytes - 1 - i)) mod 256) (seq 0 bytes).
Definition pad (msg : list Z) : list Z :=
  let len := Z.of_nat (length msg) in
  msg ++ [128] ++ replicate (Z.to_nat ((55 - len) mod 64)) 0
      ++ big_endian 8 (8 * len).

Fixpoint word_of_bytes (acc : Z) (bs : list Z) : Z :=
  match bs with
  | [] => acc
  | b :: bs' => word_of_bytes (256 * acc + b) bs'
  end.
Fixpoint words_of_bytes (n : nat) (bs : list Z) : list Z :=
  match n with
  | O => []
  | S k => word_of_bytes 0 (take 4 bs) :: words_of_bytes k (drop 4 bs)
  end.

(** The message schedule: 16 block words extended to 64. *)
Fixpoint extend (n : nat) (w : list Z) : list Z :=
  match n with
  | O => w
  | S k =>
      let t := length w in
      let at_ (i : nat) := nth (t - i) w 0 in
      extend k (w ++ [plus32 (plus32 (small_sigma1 (at_ 2%nat)) (at_ 7%nat))
                             (plus32 (small_sigma0 (at_ 15%nat)) (at_ 16%nat))])
  end.
Definition schedule (block : list Z) : list Z :=
  extend 48 (words_of_bytes 16 block).

Definition round (s : state) (kw : Z * Z) : state :=
  let t1 := plus32 (plus32 (plus32 (h7 s) (big_sigma1 (h4 s)))
                           (plus32 (choose (h4 s) (h5 s) (h6 s)) kw.1)) kw.2 in
  let t2 := plus32 (big_sigma0 (h0 s)) (majority (h0 s) (h1 s) (h2 s)) in
  State (plus32 t1 t2) (h0 s) (h1 s) (h2 s) (plus32 (h3 s) t1) (h4 s) (h5 s) (h6 s).

Definition compress (s : state) (block : list Z) : state :=
  let r := foldl round s (zip round_constants (schedule block)) in
  State (plus32 (h0 s) (h0 r)) (plus32 (h1 s) (h1 r)) (plus32 (h2 s) (h2 r))
        (plus32 (h3 s) (h3 r)) (plus32 (h4 s) (h4 r)) (plus32 (h5 s) (h5 r))
        (plus32 (h6 s) (h6 r)) (plus32 (h7 s) (h7 r)).

Fixpoint blocks (n : nat) (s : state) (bs : list Z) : state :=
  match n with
  | O => s
  | S k => blocks k (compress s (take 64 bs)) (drop 64 bs)
  end.

Definition digest (msg : list Z) : state :=
  let p := pad msg in blocks (length p / 64) initial_state p.

(** [digest('hex')]: eight lower-case hexadecimal digits per word. *)
Definition hex_char (v : Z) : ascii :=
  ascii_of_N (Z.to_N (if v <? 10 then 48 + v else 87 + v)).
Fixpoint hex_word (digits : nat) (w : Z) : string :=
  match digits with
  | O => EmptyString
  | S k => String (hex_char ((w / 16 ^ Z.of_nat k) mod 16)) (hex_word k w)
  end.
Definition hex_state (s : state) : string :=
  hex_word 8 (h0 s) +:+ hex_word 8 (h1 s) +:+ hex_word 8 (h2 s) +:+ hex_word 8 (h3 s)
  +:+ hex_word 8 (h4 s) +:+ hex_word 8 (h5 s) +:+ hex_word 8 (h6 s) +:+ hex_word 8 (h7 s).

Definition bytes_of_string (s : string) : list Z :=
  map (fun c => Z.of_N (N_of_ascii c)) (String.list_ascii_of_string s).

Definition digest_hex (s : string) : string := hex_state (digest (bytes_of_string s)).

#[global] Arguments digest_hex : simpl never.

End Sha256.

(* ===================================================================== *)
(** ** JavaScript primitives used by the engine                           *)
(* ===================================================================== *)

Module JS.

(** A number that may be [NaN]. *)
Definition number (A : Type) := option A.

Definition is_white_space (c : ascii) : bool :=
  let n := Z.of_N (N_of_ascii c) in (n =? 32) || ((9 <=? n) && (n <=? 13)).

Fixpoint trim_start (s : string) : string :=
  match s with
  | String c r => if is_white_space c then trim_start r else s
  | EmptyString => s
  end.

Definition hex_digit_value (c : ascii) : option Z :=
  let n := Z.of_N (N_of_ascii c) in
  if (48 <=? n) && (n <=? 57) then Some (n - 48)
  else if (97 <=? n) && (n <=? 102) then Some (n - 87)
  else if (65 <=? n) && (n <=? 70) then Some (n - 55)
  else None.

(** The longest prefix of digits; [None] when there is no digit at all. *)
Fixpoint hex_digits (acc : option Z) (s : string) : option Z :=
  match s with
  | String c r =>
      match hex_digit_value c with
      | Some v => hex_digits (Some (16 * default 0 acc + v)) r
      | None => acc
      end
  | EmptyString => acc
  end.

Definition strip_0x (s : string) : string :=
  match s with
  | String c (String c' r) =>
      if Ascii.eqb c "0" && (Ascii.eqb c' "x" || Ascii.eqb c' "X") then r else s
  | _ => s
  end.

Definition strip_sign (s : string) : Z * string :=
  match s with
  | String c r =>
      if Ascii.eqb c "-" then (-1, r)
      else if Ascii.eqb c "+" then (1, r)
      else (1, s)
  | EmptyString => (1, s)
  end.

(** [parseInt(s, 16)]: leading white space, a sign, an optional [0x], then
    digits up to the first character that is not one. *)
Definition parseInt16 (s : string) : number Z :=
  let signed := strip_sign (trim_start s) in
  (fun v => signed.1 * v) <$> hex_digits None (strip_0x signed.2).

(** [s.slice(0, n)] *)
Definition slice0 (n : nat) (s : string) : string := String.substring 0 n s.

(** [a % b] on integers: the sign of the dividend, [NaN] for a zero divisor. *)
Definition rem (a : number Z) (b : Z) : number Z :=
  match a with
  | Some x => if b =? 0 then None else Some (Z.rem x b)
  | None => None
  end.

(** [x.toFixed(2)] picks the integer [n] with [n / 100] nearest to [x]
    (the larger one on a tie, by magnitude for a negative [x]) and prints
    it with two decimals; [parseFloat] reads that number back. *)
Definition toFixed2 (x : Q) : Z :=
  if Qle_bool 0 x then Qfloor (x * 100 + (1 # 2))%Q
  else - Qfloor (- x * 100 + (1 # 2))%Q.
Definition parseFloat2 (hundredths : Z) : Q := Qred (inject_Z hundredths / 100)%Q.
Definition round2 (x : number Q) : number Q := (fun q => parseFloat2 (toFixed2 q)) <$> x.

(** [a === b] on numbers: [NaN] equals nothing. *)
Definition strict_eq (a b : number Q) : bool :=
  match a, b with
  | Some x, Some y => Qeq_bool x y
  | _, _ => false
  end.

(** [a < b], [a >= b] and [a + b]: a comparison with [NaN] is false, a sum
    with [NaN] is [NaN]. *)
Definition lt (a b : number Q) : bool :=
  match a, b with
  | Some x, Some y => negb (Qle_bool y x)
  | _, _ => false
  end.
Definition ge (a b : number Q) : bool :=
  match a, b with
  | Some x, Some y => Qle_bool y x
  | _, _ => false
  end.
Definition add (a b : number Q) : number Q :=
  match a, b with
  | Some x, Some y => Some (x + y)%Q
  | _, _ => None
  end.

(** Truthiness of a number ([0] and [NaN] are falsy) and of a string. *)
Definition truthy (a : number Q) : bool :=
  match a with
  | Some x => negb (Qeq_bool x 0)
  | None => false
  end.
Definition truthy_string (s : string) : bool := negb (String.eqb s "").

(** [x || d] for a number: [0] and [NaN] are falsy. *)
Definition or_default (x : number Z) (d : Z) : Z :=
  match x with
  | Some v => if v =? 0 then d else v
  | None => d
  end.

End JS.

(* ===================================================================== *)
(** ** [src/utils/provablyFair.js]                                        *)
(* ===================================================================== *)

Module ProvablyFair.

(** [`${seed}:${roundNumber}`] hashed with SHA-256, in hexadecimal. *)
Definition generateHash (seed : string) (roundNumber : N) : string :=
  Sha256.digest_hex (seed +:+ ":" +:+ pretty roundNumber).

Definition calculateCrashPoint (hash : string) (maxCrashValue : Z) : JS.number Q :=
  let hashFragment := JS.slice0 8 hash in
  let decimal := JS.parseInt16 hashFragment in
  let crashPoint := (fun r => 1 + inject_Z r)%Q <$> JS.rem decimal maxCrashValue in
  JS.round2 crashPoint.

Definition verifyCrashPoint (seed : string) (roundNumber : N) (hash : string)
    (crashPoint : JS.number Q) (maxCrashValue : Z) : bool :=
  let calculatedHash := generateHash seed roundNumber in
  if negb (String.eqb calculatedHash hash) then false
  else
    let calculatedCrashPoint := calculateCrashPoint hash maxCrashValue in
    JS.strict_eq calculatedCrashPoint crashPoint.

(** The default of the optional parameter [maxCrashValue]. *)
Definition defaultMaxCrashValue : Z := 100.

End ProvablyFair.

(* ===================================================================== *)
(** ** [src/config/config.js], the [game] section                         *)
(* ===================================================================== *)

Module Config.

(** The environment variables, already through [parseInt]. *)
Record Env := {
  GAME_ROUND_INTERVAL : JS.number Z;
  MULTIPLIER_UPDATE_INTERVAL : JS.number Z;
  MAX_CRASH_VALUE : JS.number Z }.

Definition roundInterval (e : Env) : Z := JS.or_default (GAME_ROUND_INTERVAL e) 10000.
Definition multiplierUpdateInterval (e : Env) : Z :=
  JS.or_default (MULTIPLIER_UPDATE_INTERVAL e) 100.
Definition maxCrashValue (e : Env) : Z := JS.or_default (MAX_CRASH_VALUE e) 100.
Definition growthFactor : Q := 0.00005%Q.
Definition initialMultiplier : Q := 1%Q.

Definition supportedCurrencies : list string := ["BTC"; "ETH"]%string.

Definition defaults : Env := Build_Env None None None.

End Config.

(* ===================================================================== *)
(** ** Errors thrown by the service and the wallet                        *)
(* ===================================================================== *)

Inductive Error :=
| InvalidBetParameters                (* 'Invalid bet parameters' *)
| UnsupportedCurrency (c : string)    (* `Unsupported currency: ${currency}` *)
| BettingClosed                       (* 'Betting is closed for this round' *)
| AlreadyActiveBet                    (* 'User already has an active bet for this round' *)
| WalletNotFound                      (* 'Wallet not found' *)
| InsufficientBalance (c : string)    (* `Insufficient ${currency} balance` *)
| InvalidUserId                       (* 'Invalid user ID' *)
| NoActiveRound                       (* 'No active round to cash out from' *)
| CashoutNotRunning                   (* 'Cashout is only allowed while the game is running' *)
| NoActiveBet                         (* 'No active bet found for this user' *)
| AlreadyCashedOut                    (* 'User has already cashed out' *)
| TransactionInvalid.                 (* the ValidationError of [transaction.save()] *)

(** The error kinds of the design, and the kind of each error. *)
Inductive ErrorKind :=
| InvalidInput | PhaseMismatch | DuplicateAction | InsufficientFunds
| KNoActiveRound | NoActiveWager | UpstreamUnavailable.

Definition kind (e : Error) : ErrorKind :=
  match e with
  | InvalidBetParameters | UnsupportedCurrency _ | InvalidUserId => InvalidInput
  | BettingClosed | CashoutNotRunning => PhaseMismatch
  | AlreadyActiveBet | AlreadyCashedOut => DuplicateAction
  | InsufficientBalance _ => InsufficientFunds
  | NoActiveRound => KNoActiveRound
  | NoActiveBet => NoActiveWager
  | WalletNotFound | TransactionInvalid => UpstreamUnavailable
  end.

(* ===================================================================== *)
(** ** The wallet model: [walletSchema.methods.updateBalance]             *)
(* ===================================================================== *)

Module Wallet.

(** A wallet document: [balances] maps a currency code to a number; a
    missing key reads as [undefined].  The collection is keyed by the
    [userId] of the document. *)
Record t := Make { balances : gmap string (JS.number Q) }.

(** [this.balances[currency]] in arithmetic: [undefined] becomes [NaN]. *)
Definition balance (w : t) (currency : string) : JS.number Q :=
  default None (balances w !! currency).

Definition updateBalance (currency : string) (amount : Q) (w : t) : Error + t :=
  if negb (JS.truthy (balance w currency)) && JS.lt (Some amount) (Some 0%Q)
  then inl (InsufficientBalance currency)
  else if JS.lt (JS.add (balance w currency) (Some amount)) (Some 0%Q)
  then inl (InsufficientBalance currency)
  else inr (Make (<[currency := JS.add (balance w currency) (Some amount)]> (balances w))).

(** The wallet cannot pay [amount]: the balance is smaller, or there is no
    balance at all ([undefined] or [NaN]) and the amount is positive. *)
Definition insufficient (w : t) (currency : string) (amount : Q) : Prop :=
  match balance w currency with
  | Some b => (b < amount)%Q
  | None => (0 < amount)%Q
  end.

Definition getBalance (currency : string) (w : t) : JS.number Q :=
  if JS.truthy (balance w currency) then balance w currency else Some 0%Q.

End Wallet.

(* ===================================================================== *)
(** ** [services/game.service.js]                                         *)
(* ===================================================================== *)

Module GameService.

Inductive Phase := waiting | betting | running | ended | paused | stopped.

#[global] Instance Phase_eq_dec : EqDecision Phase.
Proof. solve_decision. Defined.

Inductive Status := pending | active | completed.

(** Identifiers: a store-generated [ObjectId], or one of the demo-mode
    strings [`demo-round-${n}`], [`demo-tx-${now}`], [`demo-cashout-${now}`]. *)
Inductive Id :=
| ObjectId (n : N)
| DemoRound (roundNumber : N)
| DemoTx (now : Z)
| DemoCashout (now : Z).

Record Bet := {
  bet_userId : string;
  bet_usdAmount : Q;
  bet_cryptoAmount : Q;
  bet_currency : string;
  bet_transactionId : Id }.

Record Cashout := {
  co_userId : string;
  co_usdAmount : Q;
  co_cryptoAmount : Q;
  co_currency : string;
  co_multiplier : Q;
  co_timestamp : Z;
  co_transactionId : Id }.

Inductive TransactionType := bet | cashout.

Record Transaction := {
  tx_id : Id;
  tx_userId : string;
  tx_usdAmount : Q;
  tx_cryptoAmount : Q;
  tx_currency : string;
  tx_transactionType : TransactionType;
  tx_priceAtTime : Q;
  tx_gameRoundId : option Id;
  tx_multiplier : option Q }.

(** The round record; [is_model] tells a store document (it has [save])
    from the plain object of demo mode. *)
Record Round := {
  _id : Id;
  r_roundNumber : N;
  startTime : Z;
  endTime : option Z;
  crashPoint : JS.number Q;
  seed : string;
  hash : string;
  status : Status;
  bets : list Bet;
  cashouts : list Cashout;
  is_model : bool }.

(** The interval armed by [startMultiplierUpdates]: what its callback
    closes over. *)
Record MultiplierTimer := { timer_startTime : Z; timer_crashPoint : JS.number Q }.

(** A request in flight: the [await] it is suspended at, and the local
    variables its continuation uses. *)
Inductive Job :=
(* [placeBet] *)
| BetAwaitsPrice (userId : string) (usdAmount : Q) (currency : string) (price : Q)
| BetAwaitsWallet (userId : string) (usdAmount cryptoAmount price : Q) (currency : string)
| BetAwaitsWalletSave (userId : string) (usdAmount cryptoAmount price : Q)
    (currency : string) (wallet : Wallet.t)
| BetAwaitsTransactionSave (userId : string) (usdAmount cryptoAmount : Q)
    (currency : string) (transaction : Id -> Transaction)
(* [cashOut] *)
| CashoutAwaitsWallet (userId : string) (theBet : Bet) (multiplier : Q)
| CashoutAwaitsWalletSave (userId : string) (theBet : Bet) (multiplier : Q)
    (wallet : Wallet.t)
| CashoutAwaitsTransactionSave (userId : string) (theBet : Bet) (multiplier : Q)
    (transaction : Id -> Transaction).

(** What a request resolves with, and the requests the server has received:
    in flight, rejected (the handler threw) or fulfilled. *)
Inductive Reply := BetPlaced (b : Bet) | CashedOut (c : Cashout).

Inductive Request :=
| Suspended (job : Job)
| Rejected (e : Error)
| Fulfilled (reply : Reply).

(** The service instance ([this]) together with what it acts on: the
    requests in flight, the wallet and transaction collections, the store
    connection, the clock. *)
Record World := {
  (* this *)
  currentRound : option Round;
  currentMultiplier : Q;
  isGameRunning : bool;
  multiplierUpdateInterval : Z;
  maxCrashValue : Z;
  growthFactor : Q;
  roundNumber : N;
  multiplierUpdateTimer : option MultiplierTimer;
  roundTimer : bool;
  bettingCountdownTimer : option Z;
  activeBets : gmap string Bet;
  cashedOut : gset string;
  roundPhase : Phase;
  (* the [setTimeout]s of [crashGame] that have not fired yet *)
  crashTimeouts : nat;
  (* the calls of [placeBet] and [cashOut], in the order of arrival *)
  requests : list Request;
  (* outside the instance *)
  wallets : gmap string Wallet.t;
  transactions : list Transaction;
  mongoConnected : bool;
  clock : Z;
  nextObjectId : N }.

Definition set_currentRound (x : option Round) (w : World) : World :=
  let 'Build_World _ b c d e f g h i j k l m n o p q r s t := w in
  Build_World x b c d e f g h i j k l m n o p q r s t.
Definition set_currentMultiplier (x : Q) (w : World) : World :=
  let 'Build_World a _ c d e f g h i j k l m n o p q r s t := w in
  Build_World a x c d e f g h i j k l m n o p q r s t.
Definition set_isGameRunning (x : bool) (w : World) : World :=
  let 'Build_World a b _ d e f g h i j k l m n o p q r s t := w in
  Build_World a b x d e f g h i j k l m n o p q r s t.
Definition set_roundNumber (x : N) (w : World) : World :=
  let 'Build_World a b c d e f _ h i j k l m n o p q r s t := w in
  Build_World a b c d e f x h i j k l m n o p q r s t.
Definition set_multiplierUpdateTimer (x : option MultiplierTimer) (w : World) : World :=
  let 'Build_World a b c d e f g _ i j k l m n o p q r s t := w in
  Build_World a b c d e f g x i j k l m n o p q r s t.
Definition set_roundTimer (x : bool) (w : World) : World :=
  let 'Build_World a b c d e f g h _ j k l m n o p q r s t := w in
  Build_World a b c d e f g h x j k l m n o p q r s t.
Definition set_bettingCountdownTimer (x : option Z) (w : World) : World :=
  let 'Build_World a b c d e f g h i _ k l m n o p q r s t := w in
  Build_World a b c d e f g h i x k l m n o p q r s t.
Definition set_activeBets (x : gmap string Bet) (w : World) : World :=
  let 'Build_World a b c d e f g h i j _ l m n o p q r s t := w in
  Build_World a b c d e f g h i j x l m n o p q r s t.
Definition set_cashedOut (x : gset string) (w : World) : World :=
  let 'Build_World a b c d e f g h i j k _ m n o p q r s t := w in
  Build_World a b c d e f g h i j k x m n o p q r s t.
Definition set_roundPhase (x : Phase) (w : World) : World :=
  let 'Build_World a b c d e f g h i j k l _ n o p q r s t := w in
  Build_World a b c d e f g h i j k l x n o p q r s t.
Definition set_crashTimeouts (x : nat) (w : World) : World :=
  let 'Build_World a b c d e f g h i j k l m _ o p q r s t := w in
  Build_World a b c d e f g h i j k l m x o p q r s t.
Definition set_requests (x : list Request) (w : World) : World :=
  let 'Build_World a b c d e f g h i j k l m n _ p q r s t := w in
  Build_World a b c d e f g h i j k l m n x p q r s t.
Definition set_wallets (x : gmap string Wallet.t) (w : World) : World :=
  let 'Build_World a b c d e f g h i j k l m n o _ q r s t := w in
  Build_World a b c d e f g h i j k l m n o x q r s t.
Definition set_transactions (x : list Transaction) (w : World) : World :=
  let 'Build_World a b c d e f g h i j k l m n o p _ r s t := w in
  Build_World a b c d e f g h i j k l m n o p x r s t.
Definition set_mongoConnected (x : bool) (w : World) : World :=
  let 'Build_World a b c d e f g h i j k l m n o p q _ s t := w in
  Build_World a b c d e f g h i j k l m n o p q x s t.
Definition set_clock (x : Z) (w : World) : World :=
  let 'Build_World a b c d e f g h i j k l m n o p q r _ t := w in
  Build_World a b c d e f g h i j k l m n o p q r x t.
Definition set_nextObjectId (x : N) (w : World) : World :=
  let 'Build_World a b c d e f g h i j k l m n o p q r s _ := w in
  Build_World a b c d e f g h i j k l m n o p q r s x.

(** [constructor(io)]: the instance reads its constants from the
    configuration; the collections and the clock are given. *)
Definition constructor (env : Config.Env) (wallets : gmap string Wallet.t)
    (connected : bool) (now : Z) : World :=
  {| currentRound := None;
     currentMultiplier := Config.initialMultiplier;
     isGameRunning := false;
     multiplierUpdateInterval := Config.multiplierUpdateInterval env;
     maxCrashValue := Config.maxCrashValue env;
     growthFactor := Config.growthFactor;
     roundNumber := 0;
     multiplierUpdateTimer := None;
     roundTimer := false;
     bettingCountdownTimer := None;
     activeBets := ∅;
     cashedOut := ∅;
     roundPhase := waiting;
     crashTimeouts := 0;
     requests := [];
     wallets := wallets;
     transactions := [];
     mongoConnected := connected;
     clock := now;
     nextObjectId := 0 |}.

(** *** The round loop *)

Definition scheduleNextRound (w : World) : World :=
  let w := set_roundTimer false w in
  let w := set_bettingCountdownTimer None w in
  let w := set_roundPhase waiting w in
  set_roundTimer true w.

(** [startGameLoop]: [latest] is the last round number of the history
    store, [None] when there is none or the store cannot be read. *)
Definition startGameLoop (latest : option N) (w : World) : World :=
  scheduleNextRound (set_roundNumber (default 0%N latest) w).

Definition startBettingPhase (w : World) : World :=
  let w := set_roundPhase betting w in
  let w := set_activeBets ∅ w in
  let w := set_cashedOut ∅ w in
  set_bettingCountdownTimer (Some 3) w.

Record Generated := {
  gen_crashPoint : JS.number Q; gen_seed : string; gen_hash : string }.

(** [generateCrashPoint(roundNumber)]; [seed] is the draw of
    [crypto.randomBytes(32).toString('hex')]. *)
Definition generateCrashPoint (roundNumber : N) (seed : string) (w : World) : Generated :=
  let hash := Sha256.digest_hex (seed +:+ ":" +:+ pretty roundNumber) in
  let hashFragment := JS.slice0 8 hash in
  let decimal := JS.parseInt16 hashFragment in
  let crashPoint := (fun r => 1 + inject_Z r)%Q <$> JS.rem decimal (maxCrashValue w) in
  let crashPoint := JS.round2 crashPoint in
  {| gen_crashPoint := crashPoint; gen_seed := seed; gen_hash := hash |}.

#[global] Arguments generateCrashPoint : simpl never.

Definition startMultiplierUpdates (crashPoint : JS.number Q) (w : World) : World :=
  let startTime := clock w in
  let w := set_multiplierUpdateTimer None w in
  set_multiplierUpdateTimer
    (Some {| timer_startTime := startTime; timer_crashPoint := crashPoint |}) w.

(** [startRound]; [saveOk] is the outcome of [this.currentRound.save()]
    when the store is connected (a failure is caught and the next round
    is scheduled). *)
Definition startRound (seed : string) (saveOk : bool) (w : World) : World :=
  let w := set_roundNumber (roundNumber w + 1)%N w in
  let w := set_isGameRunning true w in
  let w := set_currentMultiplier Config.initialMultiplier w in
  let w := set_roundPhase running w in
  let g := generateCrashPoint (roundNumber w) seed w in
  let isMongoConnected := mongoConnected w in
  let round (id : Id) (model : bool) :=
    {| _id := id; r_roundNumber := roundNumber w; startTime := clock w;
       endTime := None; crashPoint := gen_crashPoint g; seed := gen_seed g;
       hash := gen_hash g; status := active; bets := []; cashouts := [];
       is_model := model |} in
  if isMongoConnected then
    let w := set_currentRound (Some (round (ObjectId (nextObjectId w)) true)) w in
    let w := set_nextObjectId (nextObjectId w + 1)%N w in
    if saveOk then startMultiplierUpdates (gen_crashPoint g) w
    else scheduleNextRound w
  else
    let w := set_currentRound (Some (round (DemoRound (roundNumber w)) false)) w in
    startMultiplierUpdates (gen_crashPoint g) w.

Definition crashGame (w : World) : World :=
  let w := set_multiplierUpdateTimer None w in
  let w := set_isGameRunning false w in
  let w := set_roundPhase ended w in
  let w :=
    match currentRound w with
    | Some r =>
        set_currentRound
          (Some {| _id := _id r; r_roundNumber := r_roundNumber r;
                   startTime := startTime r; endTime := Some (clock w);
                   crashPoint := crashPoint r; seed := seed r; hash := hash r;
                   status := completed; bets := bets r; cashouts := cashouts r;
                   is_model := is_model r |}) w
    | None => w
    end in
  set_crashTimeouts (S (crashTimeouts w)) w.

(** The callback of the multiplier interval.  It reads
    [this.currentRound._id] for the notification: without a round the
    callback throws right after the assignment. *)
Definition multiplierTick (w : World) : World :=
  match multiplierUpdateTimer w with
  | None => w
  | Some t =>
      let timeElapsed := clock w - timer_startTime t in
      let w := set_currentMultiplier
                 (Config.initialMultiplier + inject_Z timeElapsed * growthFactor w)%Q w in
      match currentRound w with
      | None => w
      | Some _ =>
          if JS.ge (Some (currentMultiplier w)) (timer_crashPoint t)
          then crashGame w else w
      end
  end.

(** The callback of the betting countdown, once a second. *)
Definition bettingCountdownTick (seed : string) (saveOk : bool) (w : World) : World :=
  match bettingCountdownTimer w with
  | None => w
  | Some countdown =>
      let countdown := countdown - 1 in
      if countdown <=? 0
      then startRound seed saveOk (set_bettingCountdownTimer None w)
      else set_bettingCountdownTimer (Some countdown) w
  end.

(** The callbacks of the two [setTimeout]s. *)
Definition roundTimerFires (w : World) : World :=
  if roundTimer w then startBettingPhase (set_roundTimer false w) else w.
Definition crashTimeoutFires (w : World) : World :=
  match crashTimeouts w with
  | O => w
  | S n => scheduleNextRound (set_crashTimeouts n w)
  end.

(** *** Operator commands *)

Definition pauseGame (w : World) : World :=
  match roundPhase w with
  | running =>
      if isGameRunning w then
        let w := set_isGameRunning false w in
        let w := set_roundPhase paused w in
        set_multiplierUpdateTimer None w
      else w
  | _ => w
  end.

Definition resumeGame (w : World) : World :=
  match roundPhase w with
  | paused =>
      if negb (isGameRunning w) then
        let w := set_isGameRunning true w in
        let w := set_roundPhase running w in
        match currentRound w with
        | Some r =>
            if JS.truthy (crashPoint r)
            then startMultiplierUpdates (crashPoint r) w else w
        | None => w
        end
      else w
  | _ => w
  end.

Definition stopGame (w : World) : World :=
  let w := set_isGameRunning false w in
  let w := set_roundPhase stopped w in
  let w := set_multiplierUpdateTimer None w in
  let w := set_roundTimer false w in
  set_bettingCountdownTimer None w.

Definition startNewGame (w : World) : World :=
  match roundPhase w with
  | stopped => scheduleNextRound w
  | _ => w
  end.

(** *** Requests: [placeBet] and [cashOut]

    A handler either returns a value or throws; both leave a world behind.
    [M] is the state-and-exception monad of the handlers. *)

Definition M (A : Type) : Type := World -> (Error + A) * World.

Definition ret {A} (a : A) : M A := fun w => (inr a, w).
Definition throw {A} (e : Error) : M A := fun w => (inl e, w).
Definition bind {A B} (m : M A) (k : A -> M B) : M B :=
  fun w => match m w with
           | (inl e, w') => (inl e, w')
           | (inr a, w') => k a w'
           end.
Definition gets {A} (f : World -> A) : M A := fun w => (inr (f w), w).
Definition modify (f : World -> World) : M unit := fun w => (inr tt, f w).
Definition when (b : bool) (m : M unit) : M unit := if b then m else ret tt.

Notation "x <- m ;; k" := (bind m (fun x => k))
  (at level 100, m at next level, right associativity, only parsing).
Notation "m ;;; k" := (bind m (fun _ => k))
  (at level 100, right associativity, only parsing).

(** [cryptoService.usdToCrypto]; [price] is the answer of the price
    oracle ([getPrice]). *)
Definition usdToCrypto (usdAmount price : Q) : Q * Q := ((usdAmount / price)%Q, price).

(** [Wallet.findOne({ userId })], failing with 'Wallet not found'. *)
Definition findWallet (userId : string) : M Wallet.t :=
  found <- gets (fun w => wallets w !! userId) ;;
  match found with
  | Some wallet => ret wallet
  | None => throw WalletNotFound
  end.

(** [wallet.updateBalance(currency, amount)] up to the [this.save()] it
    returns: the tests and the assignment, on the document in memory. *)
Definition updateBalance_issue (wallet : Wallet.t) (currency : string) (amount : Q)
  : M Wallet.t :=
  match Wallet.updateBalance currency amount wallet with
  | inl e => throw e
  | inr wallet' => ret wallet'
  end.

(** The [save] of a wallet document whose balance of [currency] was
    assigned: the store sets that balance in the stored document of the
    user. *)
Definition saveWallet (userId currency : string) (wallet : Wallet.t) : M unit :=
  modify (fun w =>
    match wallets w !! userId with
    | Some stored =>
        set_wallets
          (<[userId := Wallet.Make (<[currency := Wallet.balance wallet currency]>
                                      (Wallet.balances stored))]> (wallets w)) w
    | None => w
    end).

(** [wallet.updateBalance(currency, amount)] awaited: the assignment and
    its [save]. *)
Definition updateBalance (userId : string) (wallet : Wallet.t) (currency : string)
    (amount : Q) : M unit :=
  wallet' <- updateBalance_issue wallet currency amount ;;
  saveWallet userId currency wallet'.

(** The identifier is one the store made: the schema of a transaction
    requires [gameRoundId] and casts it to an [ObjectId].  The identifier
    of a demo round (['demo-round-N']) is taken not to pass the cast. *)
Definition isObjectId (id : option Id) : bool :=
  match id with
  | Some (ObjectId _) => true
  | _ => false
  end.

(** [transaction.save()] of a [new Transaction({...})]: validation, then
    the insertion; returns its [_id]. *)
Definition saveTransaction (mk : Id -> Transaction) : M Id :=
  n <- gets nextObjectId ;;
  when (negb (isObjectId (tx_gameRoundId (mk (ObjectId n))))) (throw TransactionInvalid) ;;;
  modify (fun w => set_nextObjectId (n + 1)%N
                     (set_transactions (transactions w ++ [mk (ObjectId n)]) w)) ;;;
  ret (ObjectId n).

Definition gameRoundId (w : World) : option Id := _id <$> currentRound w.

Definition push_bet (b : Bet) (r : Round) : Round :=
  {| _id := _id r; r_roundNumber := r_roundNumber r; startTime := startTime r;
     endTime := endTime r; crashPoint := crashPoint r; seed := seed r;
     hash := hash r; status := status r; bets := bets r ++ [b];
     cashouts := cashouts r; is_model := is_model r |}.

Definition push_cashout (c : Cashout) (r : Round) : Round :=
  {| _id := _id r; r_roundNumber := r_roundNumber r; startTime := startTime r;
     endTime := endTime r; crashPoint := crashPoint r; seed := seed r;
     hash := hash r; status := status r; bets := bets r;
     cashouts := cashouts r ++ [c]; is_model := is_model r |}.

(** **** The pieces of [placeBet], from one [await] to the next *)

(** The tests before [await cryptoService.usdToCrypto]. *)
Definition placeBet_checks (userId : string) (usdAmount : Q) (currency : string)
  : M unit :=
  (* Validate inputs *)
  when (negb (JS.truthy_string userId) || Qle_bool usdAmount 0
        || negb (JS.truthy_string currency))
    (throw InvalidBetParameters) ;;;
  when (negb (bool_decide (currency ∈ Config.supportedCurrencies)))
    (throw (UnsupportedCurrency currency)) ;;;
  (* Only allow bets during the betting phase *)
  phase <- gets roundPhase ;;
  when (negb (bool_decide (phase = betting))) (throw BettingClosed) ;;;
  (* Check if user already has an active bet *)
  active <- gets activeBets ;;
  when (bool_decide (is_Some (active !! userId))) (throw AlreadyActiveBet).

(** After [await Wallet.findOne]: the balance test and [updateBalance] up
    to its [save]. *)
Definition placeBet_debit (userId currency : string) (cryptoAmount : Q) : M Wallet.t :=
  wallet <- findWallet userId ;;
  (* Check if user has enough balance *)
  when (JS.lt (Wallet.balance wallet currency) (Some cryptoAmount))
    (throw (InsufficientBalance currency)) ;;;
  (* Deduct the bet amount from the wallet *)
  updateBalance_issue wallet currency (- cryptoAmount)%Q.

(** After the [save] of the wallet: [new Transaction({...})]. *)
Definition placeBet_transaction (userId : string) (usdAmount cryptoAmount price : Q)
    (currency : string) : M (Id -> Transaction) :=
  roundId <- gets gameRoundId ;;
  ret (fun id =>
         {| tx_id := id; tx_userId := userId; tx_usdAmount := usdAmount;
            tx_cryptoAmount := cryptoAmount; tx_currency := currency;
            tx_transactionType := bet; tx_priceAtTime := price;
            tx_gameRoundId := roundId; tx_multiplier := None |}).

(** The end of [placeBet]: the wager enters the ledger and the round. *)
Definition placeBet_commit (userId : string) (usdAmount cryptoAmount : Q)
    (currency : string) (transactionId : Id) : M Bet :=
  (* Store the bet details *)
  let betDetails :=
    {| bet_userId := userId; bet_usdAmount := usdAmount;
       bet_cryptoAmount := cryptoAmount; bet_currency := currency;
       bet_transactionId := transactionId |} in
  modify (fun w => set_activeBets (<[userId := betDetails]> (activeBets w)) w) ;;;
  (* If a round is active, add the bet to the round *)
  modify (fun w => set_currentRound (push_bet betDetails <$> currentRound w) w) ;;;
  ret betDetails.

(** [placeBet] run from its first line to its last, nothing else
    happening in between. *)
Definition placeBet (userId : string) (usdAmount : Q) (currency : string)
    (price : Q) : M Bet :=
  placeBet_checks userId usdAmount currency ;;;
  (* Convert USD to cryptocurrency *)
  let converted := usdToCrypto usdAmount price in
  let cryptoAmount := converted.1 in
  let price := converted.2 in
  isMongoConnected <- gets mongoConnected ;;
  now <- gets clock ;;
  transactionId <-
    (if isMongoConnected then
       wallet' <- placeBet_debit userId currency cryptoAmount ;;
       saveWallet userId currency wallet' ;;;
       transaction <- placeBet_transaction userId usdAmount cryptoAmount price currency ;;
       saveTransaction transaction
     else ret (DemoTx now) : M Id) ;;
  placeBet_commit userId usdAmount cryptoAmount currency transactionId.

(** **** The pieces of [cashOut] *)

(** The tests of [cashOut] and what it reads before its first [await]:
    the wager and the multiplier. *)
Definition cashOut_checks (userId : string) : M (Bet * Q) :=
  when (negb (JS.truthy_string userId)) (throw InvalidUserId) ;;;
  (* Check if a round is active *)
  isRunning <- gets isGameRunning ;;
  when (negb isRunning) (throw NoActiveRound) ;;;
  (* Only allow cashout during the running phase *)
  phase <- gets roundPhase ;;
  when (negb (bool_decide (phase = running))) (throw CashoutNotRunning) ;;;
  (* Check if user has an active bet *)
  active <- gets activeBets ;;
  match active !! userId with
  | None => throw NoActiveBet
  | Some theBet =>
      (* Check if user has already cashed out *)
      done <- gets cashedOut ;;
      when (bool_decide (userId ∈ done)) (throw AlreadyCashedOut) ;;;
      (* Calculate the payout *)
      multiplier <- gets currentMultiplier ;;
      ret (theBet, multiplier)
  end.

(** After [await Wallet.findOne]: [updateBalance] up to its [save]. *)
Definition cashOut_credit (userId : string) (theBet : Bet) (multiplier : Q)
  : M Wallet.t :=
  wallet <- findWallet userId ;;
  (* Add the payout to the wallet *)
  updateBalance_issue wallet (bet_currency theBet) (bet_cryptoAmount theBet * multiplier)%Q.

(** After the [save] of the wallet: [new Transaction({...})]. *)
Definition cashOut_transaction (userId : string) (theBet : Bet) (multiplier : Q)
  : M (Id -> Transaction) :=
  roundId <- gets gameRoundId ;;
  ret (fun id =>
         {| tx_id := id; tx_userId := userId;
            tx_usdAmount := (bet_usdAmount theBet * multiplier)%Q;
            tx_cryptoAmount := (bet_cryptoAmount theBet * multiplier)%Q;
            tx_currency := bet_currency theBet;
            tx_transactionType := cashout;
            tx_priceAtTime := (bet_usdAmount theBet / bet_cryptoAmount theBet)%Q;
            tx_gameRoundId := roundId; tx_multiplier := Some multiplier |}).

(** The end of [cashOut]: the user is marked and the cashout enters the
    round. *)
Definition cashOut_commit (userId : string) (theBet : Bet) (multiplier : Q)
    (transactionId : Id) : M Cashout :=
  (* Mark user as cashed out *)
  modify (fun w => set_cashedOut ({[userId]} ∪ cashedOut w) w) ;;;
  (* Add the cashout to the round *)
  now <- gets clock ;;
  let cashoutDetails :=
    {| co_userId := userId;
       co_usdAmount := (bet_usdAmount theBet * multiplier)%Q;
       co_cryptoAmount := (bet_cryptoAmount theBet * multiplier)%Q;
       co_currency := bet_currency theBet;
       co_multiplier := multiplier; co_timestamp := now;
       co_transactionId := transactionId |} in
  modify (fun w => set_currentRound (push_cashout cashoutDetails <$> currentRound w) w) ;;;
  ret cashoutDetails.

(** [cashOut] run from its first line to its last, nothing else happening
    in between. *)
Definition cashOut (userId : string) : M Cashout :=
  read <- cashOut_checks userId ;;
  let theBet := read.1 in
  let multiplier := read.2 in
  isMongoConnected <- gets mongoConnected ;;
  now <- gets clock ;;
  transactionId <-
    (if isMongoConnected then
       wallet' <- cashOut_credit userId theBet multiplier ;;
       saveWallet userId (bet_currency theBet) wallet' ;;;
       transaction <- cashOut_transaction userId theBet multiplier ;;
       saveTransaction transaction
     else ret (DemoCashout now) : M Id) ;;
  cashOut_commit userId theBet multiplier transactionId.

(** **** Requests in flight *)

(** The call of a handler, up to its first [await]. *)
Definition placeBet_begin (userId : string) (usdAmount : Q) (currency : string)
    (price : Q) : M (Job + Reply) :=
  placeBet_checks userId usdAmount currency ;;;
  ret (inl (BetAwaitsPrice userId usdAmount currency price)).

(** In demo mode [cashOut] has no [await] before it is done. *)
Definition cashOut_begin (userId : string) : M (Job + Reply) :=
  read <- cashOut_checks userId ;;
  isMongoConnected <- gets mongoConnected ;;
  now <- gets clock ;;
  if isMongoConnected then ret (inl (CashoutAwaitsWallet userId read.1 read.2))
  else
    c <- cashOut_commit userId read.1 read.2 (DemoCashout now) ;;
    ret (inr (CashedOut c)).

(** The continuation of a suspended request, up to its next [await] or to
    its end. *)
Definition resume (job : Job) : M (Job + Reply) :=
  match job with
  | BetAwaitsPrice userId usdAmount currency price =>
      let converted := usdToCrypto usdAmount price in
      isMongoConnected <- gets mongoConnected ;;
      now <- gets clock ;;
      if isMongoConnected then
        ret (inl (BetAwaitsWallet userId usdAmount converted.1 converted.2 currency))
      else
        b <- placeBet_commit userId usdAmount converted.1 currency (DemoTx now) ;;
        ret (inr (BetPlaced b))
  | BetAwaitsWallet userId usdAmount cryptoAmount price currency =>
      wallet' <- placeBet_debit userId currency cryptoAmount ;;
      ret (inl (BetAwaitsWalletSave userId usdAmount cryptoAmount price currency wallet'))
  | BetAwaitsWalletSave userId usdAmount cryptoAmount price currency wallet' =>
      saveWallet userId currency wallet' ;;;
      transaction <- placeBet_transaction userId usdAmount cryptoAmount price currency ;;
      ret (inl (BetAwaitsTransactionSave userId usdAmount cryptoAmount currency transaction))
  | BetAwaitsTransactionSave userId usdAmount cryptoAmount currency transaction =>
      transactionId <- saveTransaction transaction ;;
      b <- placeBet_commit userId usdAmount cryptoAmount currency transactionId ;;
      ret (inr (BetPlaced b))
  | CashoutAwaitsWallet userId theBet multiplier =>
      wallet' <- cashOut_credit userId theBet multiplier ;;
      ret (inl (CashoutAwaitsWalletSave userId theBet multiplier wallet'))
  | CashoutAwaitsWalletSave userId theBet multiplier wallet' =>
      saveWallet userId (bet_currency theBet) wallet' ;;;
      transaction <- cashOut_transaction userId theBet multiplier ;;
      ret (inl (CashoutAwaitsTransactionSave userId theBet multiplier transaction))
  | CashoutAwaitsTransactionSave userId theBet multiplier transaction =>
      transactionId <- saveTransaction transaction ;;
      c <- cashOut_commit userId theBet multiplier transactionId ;;
      ret (inr (CashedOut c))
  end.

(** Where a piece of a handler leaves its request. *)
Definition outcome (r : Error + (Job + Reply)) : Request :=
  match r with
  | inl e => Rejected e
  | inr (inl job) => Suspended job
  | inr (inr reply) => Fulfilled reply
  end.

(** A request arrives: its handler runs up to the first [await]. *)
Definition arrive (handler : M (Job + Reply)) (w : World) : World :=
  let r := handler w in
  set_requests (requests r.2 ++ [outcome r.1]) r.2.

(** The request number [i] goes on, if it is suspended. *)
Definition continue (i : nat) (w : World) : World :=
  match requests w !! i with
  | Some (Suspended job) =>
      let r := resume job w in
      set_requests (<[i := outcome r.1]> (requests r.2)) r.2
  | _ => w
  end.

(** *** The events of the engine and one step of the world

    [PlaceBet] and [CashOut] are requests served without interruption;
    [PlaceBetBegins], [CashOutBegins] and [Continue] serve them piece by
    piece. *)

Inductive Event :=
| RoundTimerFires
| BettingCountdownFires (seed : string) (saveOk : bool)
| MultiplierTimerFires
| CrashTimeoutFires
| PlaceBet (userId : string) (usdAmount : Q) (currency : string) (price : Q)
| CashOut (userId : string)
| PauseGame
| ResumeGame
| StopGame
| StartNewGame
| Elapse (ms : N)
| MongoConnection (up : bool)
(* [server.js]: [gameService.startGameLoop()] once more; [latest] is what
   the history store answers *)
| StartGameLoop (latest : option N)
(* a request arrives, and a request in flight goes on *)
| PlaceBetBegins (userId : string) (usdAmount : Q) (currency : string) (price : Q)
| CashOutBegins (userId : string)
| Continue (request : nat).

Definition step (e : Event) (w : World) : World :=
  match e with
  | RoundTimerFires => roundTimerFires w
  | BettingCountdownFires seed saveOk => bettingCountdownTick seed saveOk w
  | MultiplierTimerFires => multiplierTick w
  | CrashTimeoutFires => crashTimeoutFires w
  | PlaceBet userId usdAmount currency price =>
      (placeBet userId usdAmount currency price w).2
  | CashOut userId => (cashOut userId w).2
  | PauseGame => pauseGame w
  | ResumeGame => resumeGame w
  | StopGame => stopGame w
  | StartNewGame => startNewGame w
  | Elapse ms => set_clock (clock w + Z.of_N ms) w
  | MongoConnection up => set_mongoConnected up w
  | StartGameLoop latest => startGameLoop latest w
  | PlaceBetBegins userId usdAmount currency price =>
      arrive (placeBet_begin userId usdAmount currency price) w
  | CashOutBegins userId => arrive (cashOut_begin userId) w
  | Continue i => continue i w
  end.

Definition run (evs : list Event) (w : World) : World :=
  foldl (fun w e => step e w) w evs.

(** The states of a trace, the first one included. *)
Fixpoint states (evs : list Event) (w : World) : list World :=
  match evs with
  | [] => [w]
  | e :: evs' => w :: states evs' (step e w)
  end.

(** *** Notions used to state the properties *)

(** The value a request returned, when it did not throw. *)
Definition accepted {A} (r : (Error + A) * World) : option A :=
  match r.1 with
  | inr a => Some a
  | inl _ => None
  end.

(** The fields that drive the round loop and the clock. *)
Definition control (w : World) :=
  (roundPhase w, isGameRunning w, roundNumber w, multiplierUpdateTimer w,
   roundTimer w, bettingCountdownTimer w, crashTimeouts w, clock w,
   currentMultiplier w, growthFactor w, maxCrashValue w, mongoConnected w).

(** The fairness data of the current round record. *)
Definition fairness (w : World) : option (N * JS.number Q * string * string) :=
  (fun r => (r_roundNumber r, crashPoint r, seed r, hash r)) <$> currentRound w.

(** A trace that stays in the running phase of one round. *)
Definition within_running_phase (w : World) (evs : list Event) : Prop :=
  Forall (fun w' => roundPhase w' = running /\ roundNumber w' = roundNumber w)
         (states evs w).

(** A trace in which no betting phase begins (the ledger is cleared only
    by [startBettingPhase], the callback of the round timer). *)
Definition within_round (evs : list Event) : Prop :=
  Forall (fun e => e <> RoundTimerFires) evs.

(** A trace that stays in one betting phase. *)
Definition within_betting_phase (w : World) (evs : list Event) : Prop :=
  within_round evs /\ Forall (fun w' => roundPhase w' = betting) (states evs w).


(** The round number of the current round record. *)
Definition recordNumber (w : World) : option N := r_roundNumber <$> currentRound w.

(** The round record never runs ahead of the round counter, and while a
    round is running or paused its record is there. *)
Definition round_record_current (w : World) : Prop :=
  (forall n, recordNumber w = Some n -> (n <= roundNumber w)%N)
  /\ (roundPhase w = running \/ roundPhase w = paused ->
      recordNumber w = Some (roundNumber w)).

(** While a round is running or paused its record is there. *)
Definition record_of_running_round (w : World) : Prop :=
  roundPhase w = running \/ roundPhase w = paused ->
  recordNumber w = Some (roundNumber w).


(** A trace in which [startGameLoop] is not called again. *)
Definition not_restarted (evs : list Event) : Prop :=
  Forall (fun e => forall latest, e <> StartGameLoop latest) evs.

(** A handler that was served to its end, as the request it leaves. *)
Definition served {A} (reply : A -> Reply) (r : Error + A) : Request :=
  match r with
  | inl e => Rejected e
  | inr a => Fulfilled (reply a)
  end.




(** A piece of a handler that neither reads nor writes the requests in
    flight. *)
Definition independent {A} (m : M A) : Prop :=
  forall (l : list Request) (w : World),
    m (set_requests l w) = ((m w).1, set_requests l (m w).2).

(** The worlds the server can be in: it is constructed, the game loop is
    started, and events happen. *)
Definition reachable_by (evs : list Event) (w : World) : Prop :=
  exists env store connected now latest,
    w = run evs (startGameLoop latest (constructor env store connected now)).

Definition reachable (w : World) : Prop :=
  exists env store connected now latest evs,
    w = run evs (startGameLoop latest (constructor env store connected now)).

End GameService.

(* ===================================================================== *)
(** ** The HTTP handlers of the game: [controllers/game.controller.js]    *)
(* ===================================================================== *)

Module GameController.

Import GameService.

(** The message of an error the service throws (the strings of
    [game.service.js] and of the wallet model). *)
Definition message (e : Error) : string :=
  match e with
  | InvalidBetParameters => "Invalid bet parameters"
  | UnsupportedCurrency currency => "Unsupported currency: " +:+ currency
  | BettingClosed => "Betting is closed for this round"
  | AlreadyActiveBet => "User already has an active bet for this round"
  | WalletNotFound => "Wallet not found"
  | InsufficientBalance currency => "Insufficient " +:+ currency +:+ " balance"
  | InvalidUserId => "Invalid user ID"
  | NoActiveRound => "No active round to cash out from"
  | CashoutNotRunning => "Cashout is only allowed while the game is running"
  | NoActiveBet => "No active bet found for this user"
  | AlreadyCashedOut => "User has already cashed out"
  | TransactionInvalid =>
      (* the text for a missing identifier; the one for an identifier that
         is no [ObjectId] starts the same way and quotes that identifier *)
      "Transaction validation failed: gameRoundId: Path `gameRoundId` is required."
  end.

(** They are made with [new Error(...)], but for the one of the store. *)
Definition name (e : Error) : string :=
  match e with
  | TransactionInvalid => "ValidationError"
  | _ => "Error"
  end.

(** [haystack.includes(needle)]. *)
Fixpoint includes (needle haystack : string) : bool :=
  String.prefix needle haystack
  || match haystack with
     | EmptyString => false
     | String _ rest => includes needle rest
     end.

Inductive Body :=
| Message (text : string)
| BetResult (b : Bet)
| CashoutResult (c : Cashout).

Record Response := { statusCode : Z; json : Body }.

Definition reply (code : Z) (text : string) : Response :=
  {| statusCode := code; json := Message text |}.

Definition isStoreError (e : Error) : bool :=
  String.eqb (name e) "MongooseError" || String.eqb (name e) "MongoError".

(** [placeBet(req, res)].  [usdAmount] and [currency] are the fields of the
    request body, [None] when absent; [gameService] tells whether the
    application has a service registered; [price] is the answer of the
    price oracle, should the service ask. *)
Definition placeBet (gameService : bool) (usdAmount : option Q)
    (currency : option string) (userId : string) (price : Q) (w : World)
  : Response * World :=
  match usdAmount, currency with
  | Some usd, Some cur =>
      if Qeq_bool usd 0 || negb (JS.truthy_string cur)
      then (reply 400 "USD amount and currency are required", w)
      else if Qle_bool usd 0
      then (reply 400 "Bet amount must be greater than 0", w)
      else if negb gameService
      then (reply 500 "Game service not available", w)
      else
        match GameService.placeBet userId usd cur price w with
        | (inr result, w') => ({| statusCode := 200; json := BetResult result |}, w')
        | (inl dbError, w') =>
            if includes "Insufficient" (message dbError)
            then (reply 400 (message dbError), w')
            else if includes "Cannot place bet" (message dbError)
            then (reply 400 (message dbError), w')
            else if isStoreError dbError
            then (reply 503 "Database service unavailable. Please try again later.", w')
            else (reply 500 "Failed to place bet", w')
        end
  | _, _ => (reply 400 "USD amount and currency are required", w)
  end.

(** [cashOut(req, res)].  Without a registered service the handler falls
    back to the service class, whose [cashOut] is not a function: the
    [TypeError] ends in the outer [catch]. *)
Definition cashOut (gameService : bool) (userId : string) (w : World)
  : Response * World :=
  if negb gameService then (reply 500 "Failed to cash out", w)
  else
    match GameService.cashOut userId w with
    | (inr result, w') => ({| statusCode := 200; json := CashoutResult result |}, w')
    | (inl dbError, w') =>
        if includes "No active round" (message dbError)
           || includes "No active bet" (message dbError)
           || includes "already cashed out" (message dbError)
        then (reply 400 (message dbError), w')
        else if isStoreError dbError
        then (reply 503 "Database service unavailable. Please try again later.", w')
        else (reply 500 "Failed to cash out", w')
    end.

End GameController.

(* ===================================================================== *)
(** ** [services/wallet.service.js]: [updateBalance]                      *)
(* ===================================================================== *)

Module WalletService.

Import GameService.

(** [wallet.balances[currency] || 0]. *)
Definition currentBalance (wallet : Wallet.t) (currency : string) : Q :=
  match Wallet.balance wallet currency with
  | Some b => if Qeq_bool b 0 then 0%Q else b
  | None => 0%Q
  end.

(** [updateBalance(userId, currency, amount)], inside a store transaction:
    a failure aborts it and nothing is written, and nothing else happens
    to the wallet in between. *)
Definition updateBalance (userId currency : string) (amount : Q) : M Wallet.t :=
  wallet <- findWallet userId ;;
  (* Check if balance would go negative *)
  let current := currentBalance wallet currency in
  when (JS.lt (Some (current + amount)%Q) (Some 0%Q))
    (throw (InsufficientBalance currency)) ;;;
  (* Update balance *)
  let wallet' :=
    Wallet.Make (<[currency := Some (current + amount)%Q]> (Wallet.balances wallet)) in
  saveWallet userId currency wallet' ;;;
  ret wallet'.

End WalletService.

(* ===================================================================== *)
(** ** [utils/seedDatabase.js]: the sample rounds                         *)
(* ===================================================================== *)

Module SeedDatabase.

(** The plain objects handed to [GameRound.create]. *)
Record RoundData := {
  roundNumber : N;
  startTime : Z;
  endTime : Z;
  crashPoint : JS.number Q;
  seed : string;
  hash : string;
  status : GameService.Status;
  bets : list GameService.Bet;
  cashouts : list GameService.Cashout }.

(** [createSampleGameRounds]: [generateSeed i] is the draw of the [i]-th
    iteration, [now i] the two readings of [Date.now()] in it. *)
Definition createSampleGameRounds (generateSeed : N -> string) (now : N -> Z * Z)
  : list RoundData :=
  (fun i : N =>
     let seed := generateSeed i in
     let hash := ProvablyFair.generateHash seed i in
     let crashPoint :=
       ProvablyFair.calculateCrashPoint hash ProvablyFair.defaultMaxCrashValue in
     {| roundNumber := i;
        startTime := (now i).1 - Z.of_N i * 60000;
        endTime := (now i).2 - Z.of_N i * 60000 + 30000;
        crashPoint := crashPoint; seed := seed; hash := hash;
        status := GameService.completed; bets := []; cashouts := [] |})
  <$> [1; 2; 3; 4; 5]%N.

End SeedDatabase.

(* ===================================================================== *)
(** ** Invariants of the worlds the server can be in                      *)
(* ===================================================================== *)

Module Invariants.

Import GameService.

(** The fairness data of the current round record are those the generator
    computes from the seed, the round number and the configured bound. *)
Definition record_generated (w : World) : Prop :=
  match fairness w with
  | Some (n, cp, s, h) =>
      h = ProvablyFair.generateHash s n
      /\ cp = ProvablyFair.calculateCrashPoint h (maxCrashValue w)
  | None => True
  end.

(** The multiplier clock: the configured growth factor, a multiplier that
    is at least 1, and an interval armed no later than now. *)
Definition clock_sound (w : World) : Prop :=
  growthFactor w = Config.growthFactor
  /\ (1 <= currentMultiplier w)%Q
  /\ match timer_startTime <$> multiplierUpdateTimer w with
     | Some s => s <= clock w
     | None => True
     end.

(** A wager on its way to the ledger passed the tests of [placeBet]: its
    user is named and its amount is positive. *)
Definition job_sound (job : Job) : Prop :=
  match job with
  | BetAwaitsPrice userId usdAmount _ _
  | BetAwaitsWallet userId usdAmount _ _ _
  | BetAwaitsWalletSave userId usdAmount _ _ _ _
  | BetAwaitsTransactionSave userId usdAmount _ _ _ =>
      userId <> ""%string /\ (0 < usdAmount)%Q
  | _ => True
  end.

Definition request_sound (r : Request) : Prop :=
  match r with
  | Suspended job => job_sound job
  | _ => True
  end.

(** The ledger: a wager is filed under its own user, who is named, with a
    positive amount; so will be the wagers of the requests in flight. *)
Definition bets_sound (bets : gmap string Bet) : Prop :=
  forall u b, bets !! u = Some b ->
    bet_userId b = u /\ u <> ""%string /\ (0 < bet_usdAmount b)%Q.

Definition ledger_sound (w : World) : Prop :=
  bets_sound (activeBets w) /\ Forall request_sound (requests w).

(** The crash point of the current round record. *)
Definition recordCrashPoint (w : World) : option (JS.number Q) :=
  crashPoint <$> currentRound w.

(** Every phase but [paused] and [stopped] has its timer pending; a running
    round reads its crash threshold from the round record. *)
Definition loop_sound (w : World) : Prop :=
  match roundPhase w with
  | waiting => roundTimer w = true
  | betting => is_Some (bettingCountdownTimer w)
  | running =>
      isGameRunning w = true
      /\ exists t, multiplierUpdateTimer w = Some t
                   /\ recordCrashPoint w = Some (timer_crashPoint t)
  | ended => crashTimeouts w <> O
  | paused => isGameRunning w = false /\ is_Some (recordCrashPoint w)
  | stopped => True
  end.

(** The event is a timer callback, an operator command, a start of the
    game loop or the passing of time: anything but a piece of a request. *)
Definition no_request (e : Event) : Prop :=
  match e with
  | PlaceBet _ _ _ _ | CashOut _ | PlaceBetBegins _ _ _ _ | CashOutBegins _
  | Continue _ => False
  | _ => True
  end.

End Invariants.

(* ===================================================================== *)
(** ** A concrete game, used for the examples                             *)
(* ===================================================================== *)

Module Scenario.

Import GameService.

(** The wallet a new user gets: 0.001 BTC and 0.01 ETH. *)
Definition funded : Wallet.t :=
  Wallet.Make (<["BTC"%string := Some (1 # 1000)%Q]>
                 (<["ETH"%string := Some (1 # 100)%Q]> ∅)).

(** Two funded users, the store connected, the default configuration. *)
Definition start : World :=
  startGameLoop None
    (constructor Config.defaults
       (<["alice"%string := funded]> (<["bob"%string := funded]> ∅))
       true 0).

(** The betting phase of round 1, nobody has bet yet. *)
Definition open_bets : list Event := [RoundTimerFires].
Definition betting_open : World := run open_bets start.

(** Round 1 starts without wagers, with the seed ["deadbeef"] (crash point
    89), and the clock ticks after 20 s. *)
Definition play : list Event :=
  [ RoundTimerFires;
    BettingCountdownFires "deadbeef" true;
    BettingCountdownFires "deadbeef" true;
    BettingCountdownFires "deadbeef" true;
    Elapse 20000 ].
Definition before_tick : World := run play start.
Definition at_two : World := step MultiplierTimerFires before_tick.

(** Pause, wait 5 s, resume, and the first tick 100 ms later. *)
Definition pause_resume : list Event :=
  [PauseGame; Elapse 5000; ResumeGame; Elapse 100; MultiplierTimerFires].

(** Round 1 crashes at 89.00 and the betting phase of round 2 opens: the
    record of round 1, a document of the store, is still the current one. *)
Definition first_crash : list Event :=
  [Elapse 1740000; MultiplierTimerFires; CrashTimeoutFires; RoundTimerFires].
Definition second_betting : World := run first_crash at_two.

(** Both users bet 10 USD in BTC at 50000 USD. *)
Definition wagers : list Event :=
  [PlaceBet "alice" 10 "BTC" 50000; PlaceBet "bob" 10 "BTC" 50000].
Definition bets_placed : World := run wagers second_betting.


(** Round 2 starts with the seed ["c0ffee"] (crash point 18) and the clock
    ticks after 20 s: the multiplier reads 2.00. *)
Definition second_play : list Event :=
  [ BettingCountdownFires "c0ffee" true;
    BettingCountdownFires "c0ffee" true;
    BettingCountdownFires "c0ffee" true;
    Elapse 20000 ].
Definition second_before_tick : World := run second_play bets_placed.
Definition second_at_two : World := step MultiplierTimerFires second_before_tick.

(** The whole game, from the start. *)
Definition history : list Event :=
  play ++ [MultiplierTimerFires] ++ first_crash ++ wagers ++ second_play
  ++ [MultiplierTimerFires].

(** Two wagers of alice that overlap in the betting phase of round 2, as
    when the page sends the request twice: both pass the tests before
    either is done.  The first one is served up to the [save] of its
    transaction, then the second one up to the [save] of its wallet. *)
Definition overlapping_wagers : list Event :=
  [ PlaceBetBegins "alice" 10 "BTC" 50000; PlaceBetBegins "alice" 10 "BTC" 50000;
    Continue 0; Continue 0; Continue 0; Continue 1; Continue 1;
    Continue 0; Continue 1; Continue 1 ].

(** Two cashouts of alice that overlap in round 2, as when one comes by
    HTTP and one by the socket: both pass the tests before either is
    done. *)
Definition overlapping_cashouts : list Event :=
  [ CashOutBegins "alice"; CashOutBegins "alice";
    Continue 0; Continue 0; Continue 1; Continue 0; Continue 1; Continue 1 ].

(** The operator stops the game in the betting phase of round 2 and starts
    it again: the betting phase of round 2 opens once more. *)
Definition stop_and_start : list Event :=
  [ PlaceBet "alice" 10 "BTC" 50000; StopGame; StartNewGame; RoundTimerFires ].

End Scenario.

(** Demo mode: the store is not connected and the server does not try
    again (as under [NODE_ENV=test]); nobody has a wallet.  Round 1 is
    running with two wagers, the multiplier reads 2.00. *)
Module Demo.

Import GameService.

Definition start : World :=
  startGameLoop None (constructor Config.defaults ∅ false 0).

Definition play : list Event :=
  [ RoundTimerFires;
    PlaceBet "alice" 10 "BTC" 50000;
    PlaceBet "bob" 30 "ETH" 3000;
    BettingCountdownFires "deadbeef" true;
    BettingCountdownFires "deadbeef" true;
    BettingCountdownFires "deadbeef" true;
    Elapse 20000;
    MultiplierTimerFires ].

Definition at_two : World := run play start.

End Demo.

(* ===================================================================== *)
(** * Properties                                                          *)
(* ===================================================================== *)

(** ** Test vectors *)

Example sha256_abc :
  Sha256.digest_hex "abc"
  = "ba7816bf8f01cfea414140de5dae2223b00361a396177a9cb410ff61f20015ad"%string.
Proof. vm_compute. reflexivity. Qed.

Example sha256_two_blocks :
  ProvablyFair.generateHash "deadbeef" 1
  = "b6e5648416571ca9f14f8a375b1c0aabc740373e37a308087db11f327cade707"%string.
Proof. vm_compute. reflexivity. Qed.


Example crash_point_deadbeef_1 :
  ProvablyFair.calculateCrashPoint (ProvablyFair.generateHash "deadbeef" 1) 100
  = Some (inject_Z 89).
Proof. vm_compute. reflexivity. Qed.

(** At [maxCrashValue = 0] the crash point is [NaN], which equals nothing. *)
Example verify_rejects_nan :
  let hash := ProvablyFair.generateHash "deadbeef" 1 in
  ProvablyFair.calculateCrashPoint hash 0 = None
  /\ ProvablyFair.verifyCrashPoint "deadbeef" 1 hash
       (ProvablyFair.calculateCrashPoint hash 0) 0 = false.
Proof. vm_compute. split; reflexivity. Qed.

(** 10 USD at 50000 USD per BTC is 0.0002 BTC; cashed out at 2.00 it pays
    0.0004 BTC (20 USD), and the wallet, at 0.0008 BTC since the wager, goes
    to 0.0012 BTC. *)
Example scenario_payout :
  let result := GameService.cashOut "alice" Scenario.second_at_two in
  match GameService.accepted result,
        GameService.wallets result.2 !! "alice"%string with
  | Some c, Some wallet =>
      (GameService.co_multiplier c == 2)%Q
      /\ (GameService.co_cryptoAmount c == 0.0004)%Q
      /\ (GameService.co_usdAmount c == 20)%Q
      /\ JS.strict_eq (Wallet.balance wallet "BTC") (Some 0.0012%Q) = true
  | _, _ => False
  end.
Proof. vm_compute. repeat split. Qed.

Example parseInt16_prefix : JS.parseInt16 "  -0x1fz" = Some (-31).
Proof. reflexivity. Qed.

Example parseInt16_nan : JS.parseInt16 "xyz" = None.
Proof. reflexivity. Qed.

(** ** The hash fragment is a 32-bit number *)

Section HexDigest.

Lemma hex_char_spec (v : Z) :
  0 <= v < 16 ->
  let c := Sha256.hex_char v in
  JS.hex_digit_value c = Some v /\ JS.is_white_space c = false
  /\ Ascii.eqb c "-" = false /\ Ascii.eqb c "+" = false
  /\ Ascii.eqb c "x" = false /\ Ascii.eqb c "X" = false.
Proof.
  intros Hv.
  assert (Hcases : v = 0 \/ v = 1 \/ v = 2 \/ v = 3 \/ v = 4 \/ v = 5 \/ v = 6 \/ v = 7
                   \/ v = 8 \/ v = 9 \/ v = 10 \/ v = 11 \/ v = 12 \/ v = 13
                   \/ v = 14 \/ v = 15) by lia.
  repeat (destruct Hcases as [-> | Hcases]; [vm_compute; tauto |]).
  subst v. vm_compute. tauto.
Qed.

Lemma hex_digit_value_hex_char (v : Z) :
  0 <= v < 16 -> JS.hex_digit_value (Sha256.hex_char v) = Some v.
Proof. intros Hv. apply (hex_char_spec v Hv). Qed.

Lemma nibble_range (w : Z) (k : nat) : 0 <= (w / 16 ^ Z.of_nat k) mod 16 < 16.
Proof. apply Z.mod_pos_bound. lia. Qed.

Lemma slice0_hex_word (n : nat) (w : Z) (rest : string) :
  JS.slice0 n (Sha256.hex_word n w +:+ rest) = Sha256.hex_word n w.
Proof.
  unfold JS.slice0. induction n as [| n IH]; simpl.
  - destruct rest; reflexivity.
  - f_equal. exact IH.
Qed.

Lemma hex_digits_hex_word (n : nat) (w a : Z) :
  JS.hex_digits (Some a) (Sha256.hex_word n w)
  = Some (16 ^ Z.of_nat n * a + w mod 16 ^ Z.of_nat n).
Proof.
  revert a. induction n as [| n IH]; intros a.
  - simpl. f_equal. rewrite Z.mod_1_r. lia.
  - cbn [Sha256.hex_word JS.hex_digits].
    rewrite hex_digit_value_hex_char by apply nibble_range.
    cbn [default]. rewrite IH. f_equal.
    rewrite Nat2Z.inj_succ, Z.pow_succ_r by lia.
    set (p := 16 ^ Z.of_nat n).
    assert (Hp : 0 < p) by (subst p; lia).
    rewrite (Z.mul_comm 16 p), Z.rem_mul_r by lia.
    unfold id. ring.
Qed.

Lemma parseInt16_hex_chars (v1 v2 : Z) (rest : string) :
  0 <= v1 < 16 -> 0 <= v2 < 16 ->
  JS.parseInt16 (String (Sha256.hex_char v1) (String (Sha256.hex_char v2) rest))
  = JS.hex_digits (Some (16 * v1 + v2)) rest.
Proof.
  intros H1 H2.
  destruct (hex_char_spec v1 H1) as (D1 & W1 & M1 & P1 & _ & _).
  destruct (hex_char_spec v2 H2) as (D2 & _ & _ & _ & X2 & X2').
  unfold JS.parseInt16.
  cbn [JS.trim_start]. rewrite W1.
  cbn [JS.strip_sign]. rewrite M1, P1.
  cbn [fst snd JS.strip_0x]. rewrite X2, X2'.
  rewrite andb_false_r.
  cbn [JS.hex_digits]. rewrite D1, D2. cbn [default]. unfold id.
  replace (16 * (16 * 0 + v1) + v2) with (16 * v1 + v2) by ring.
  destruct (JS.hex_digits (Some (16 * v1 + v2)) rest) as [d |]; [| reflexivity].
  change (Some (1 * d) = Some d). f_equal. lia.
Qed.

Lemma parseInt16_hex_word (w : Z) (rest : string) :
  JS.parseInt16 (JS.slice0 8 (Sha256.hex_word 8 w +:+ rest)) = Some (w mod 2 ^ 32).
Proof.
  rewrite slice0_hex_word.
  change (Sha256.hex_word 8 w)
    with (String (Sha256.hex_char ((w / 16 ^ Z.of_nat 7) mod 16))
            (String (Sha256.hex_char ((w / 16 ^ Z.of_nat 6) mod 16))
               (Sha256.hex_word 6 w))).
  rewrite parseInt16_hex_chars by apply nibble_range.
  rewrite hex_digits_hex_word. f_equal.
  change (2 ^ 32) with (16 ^ 6 * 16 * 16).
  change (Z.of_nat 7) with 7. change (Z.of_nat 6) with 6.
  rewrite (Z.rem_mul_r w (16 ^ 6 * 16) 16) by lia.
  rewrite (Z.rem_mul_r w (16 ^ 6) 16) by lia.
  change (16 ^ 7) with (16 ^ 6 * 16).
  lia.
Qed.

(** The hexadecimal digest starts with the eight digits of its first word. *)
Lemma generateHash_fragment (seed : string) (roundNumber : N) :
  exists d : Z,
    JS.parseInt16 (JS.slice0 8 (ProvablyFair.generateHash seed roundNumber)) = Some d
    /\ 0 <= d < 2 ^ 32.
Proof.
  unfold ProvablyFair.generateHash, Sha256.digest_hex, Sha256.hex_state.
  eexists. split.
  - apply parseInt16_hex_word.
  - apply Z.mod_pos_bound. lia.
Qed.

End HexDigest.

(** ** Rounding to two decimals *)

Section Round2.

Lemma Qfloor_plus_half (n : Z) : Qfloor (inject_Z n + (1 # 2)) = n.
Proof.
  unfold Qfloor, Qplus, inject_Z. cbn [Qnum Qden].
  symmetry. apply Z.div_unique with (r := 1); lia.
Qed.

Lemma Qred_inject_Z (k : Z) : Qred (inject_Z k) = inject_Z k.
Proof.
  unfold Qred, inject_Z.
  generalize (Z.ggcd_gcd k 1) (Z.ggcd_correct_divisors k 1).
  destruct (Z.ggcd k 1) as [g [a b]]. cbn [fst snd].
  rewrite Z.gcd_1_r. intros -> [Ha Hb].
  assert (Ea : a = k) by lia. assert (Eb : b = 1) by lia.
  rewrite Ea, Eb. reflexivity.
Qed.

Lemma toFixed2_integer (x : Q) (k : Z) : x == inject_Z k -> JS.toFixed2 x = 100 * k.
Proof.
  intros Hx. unfold JS.toFixed2.
  destruct (Qle_bool 0 x).
  - rewrite (Qfloor_comp _ (inject_Z (100 * k) + (1 # 2))).
    + apply Qfloor_plus_half.
    + rewrite Hx, inject_Z_mult. ring.
  - rewrite (Qfloor_comp _ (inject_Z (- (100 * k)) + (1 # 2))).
    + rewrite Qfloor_plus_half. lia.
    + rewrite Hx, inject_Z_opp, inject_Z_mult. ring.
Qed.

Lemma parseFloat2_hundreds (k : Z) : JS.parseFloat2 (100 * k) = inject_Z k.
Proof.
  unfold JS.parseFloat2.
  transitivity (Qred (inject_Z k)); [| apply Qred_inject_Z].
  apply Qred_complete. rewrite inject_Z_mult. field.
Qed.

Lemma round2_integer (x : Q) (k : Z) :
  x == inject_Z k -> JS.round2 (Some x) = Some (inject_Z k).
Proof.
  intros Hx. unfold JS.round2. cbn.
  rewrite (toFixed2_integer x k Hx), parseFloat2_hundreds. reflexivity.
Qed.

End Round2.

(** ** The fairness generator *)

Section Fairness.

(** What [calculateCrashPoint] computes, for any string and any bound. *)
Lemma calculateCrashPoint_eq (hash : string) (maxCrashValue : Z) :
  ProvablyFair.calculateCrashPoint hash maxCrashValue
  = match JS.parseInt16 (JS.slice0 8 hash) with
    | Some d => if maxCrashValue =? 0 then None
                else Some (inject_Z (1 + Z.rem d maxCrashValue))
    | None => None
    end.
Proof.
  unfold ProvablyFair.calculateCrashPoint, JS.rem.
  destruct (JS.parseInt16 (JS.slice0 8 hash)) as [d |]; [| reflexivity].
  destruct (maxCrashValue =? 0); [reflexivity |].
  cbn [fmap option_fmap option_map].
  apply round2_integer. rewrite inject_Z_plus. reflexivity.
Qed.

(** The service's own generator computes the same hash and crash point. *)
Lemma generateCrashPoint_eq (roundNumber : N) (seed : string) (w : GameService.World) :
  let g := GameService.generateCrashPoint roundNumber seed w in
  GameService.gen_seed g = seed
  /\ GameService.gen_hash g = ProvablyFair.generateHash seed roundNumber
  /\ GameService.gen_crashPoint g
     = ProvablyFair.calculateCrashPoint (ProvablyFair.generateHash seed roundNumber)
         (GameService.maxCrashValue w).
Proof. repeat split. Qed.

(** C1. Round trip of the fairness proof: for every seed and round number,
    [verifyCrashPoint] accepts the hash and the crash point generated for
    them with the same (non-zero) [maxCrashValue]. *)
Theorem verify_accepts_generated (seed : string) (roundNumber : N) (maxCrashValue : Z) :
  maxCrashValue <> 0 ->
  let hash := ProvablyFair.generateHash seed roundNumber in
  let crashPoint := ProvablyFair.calculateCrashPoint hash maxCrashValue in
  ProvablyFair.verifyCrashPoint seed roundNumber hash crashPoint maxCrashValue = true.
Proof.
  intros Hm hash crashPoint.
  unfold ProvablyFair.verifyCrashPoint.
  fold hash. rewrite String.eqb_refl. cbn [negb].
  fold crashPoint.
  destruct (generateHash_fragment seed roundNumber) as (d & Hd & _).
  assert (Hc : crashPoint = Some (inject_Z (1 + Z.rem d maxCrashValue))).
  { subst crashPoint hash. rewrite calculateCrashPoint_eq, Hd.
    destruct (Z.eqb_spec maxCrashValue 0); [contradiction | reflexivity]. }
  rewrite Hc. cbn [JS.strict_eq]. apply Qeq_bool_refl.
Qed.

Lemma verify_accepts_generated_witness :
  ProvablyFair.verifyCrashPoint "deadbeef" 1
    (ProvablyFair.generateHash "deadbeef" 1)
    (ProvablyFair.calculateCrashPoint (ProvablyFair.generateHash "deadbeef" 1) 100)
    100 = true.
Proof. apply (verify_accepts_generated "deadbeef" 1 100). lia. Defined.

(** C4. For every seed and every [maxCrashValue >= 1], the crash point is
    [round2 (1.00 + (d mod maxCrashValue))], where [d] is the first eight
    hexadecimal digits of the hash read as an unsigned 32-bit number; it
    lies in [[1.00, 1.00 + maxCrashValue)] and has two decimals (it is a
    whole number of hundredths). *)
Theorem crash_point_form_and_range (seed : string) (roundNumber : N) (maxCrashValue : Z) :
  1 <= maxCrashValue ->
  let hash := ProvablyFair.generateHash seed roundNumber in
  exists (d : Z) (c : Q),
    JS.parseInt16 (JS.slice0 8 hash) = Some d
    /\ 0 <= d < 2 ^ 32
    /\ ProvablyFair.calculateCrashPoint hash maxCrashValue = Some c
    /\ Some c = JS.round2 (Some (1 + inject_Z (d mod maxCrashValue))%Q)
    /\ (1 <= c /\ c < 1 + inject_Z maxCrashValue)%Q
    /\ exists n : Z, (c == inject_Z n / 100)%Q.
Proof.
  intros Hm hash.
  destruct (generateHash_fragment seed roundNumber) as (d & Hd & Hrange).
  assert (Hrem : Z.rem d maxCrashValue = d mod maxCrashValue)
    by (apply Z.rem_mod_nonneg; lia).
  assert (Hmod : 0 <= d mod maxCrashValue < maxCrashValue)
    by (apply Z.mod_pos_bound; lia).
  exists d, (inject_Z (1 + d mod maxCrashValue)).
  split; [exact Hd |]. split; [exact Hrange |].
  split; [| split; [| split]].
  - subst hash. rewrite calculateCrashPoint_eq, Hd, Hrem.
    destruct (Z.eqb_spec maxCrashValue 0); [lia | reflexivity].
  - symmetry. apply round2_integer. rewrite inject_Z_plus. reflexivity.
  - split.
    + change 1%Q with (inject_Z 1). rewrite <- Zle_Qle. lia.
    + change 1%Q with (inject_Z 1). rewrite <- inject_Z_plus, <- Zlt_Qlt. lia.
  - exists (100 * (1 + d mod maxCrashValue)). rewrite inject_Z_mult. field.
Qed.

Lemma crash_point_form_and_range_witness :
  let hash := ProvablyFair.generateHash "deadbeef" 1 in
  exists (d : Z) (c : Q),
    JS.parseInt16 (JS.slice0 8 hash) = Some d
    /\ 0 <= d < 2 ^ 32
    /\ ProvablyFair.calculateCrashPoint hash 100 = Some c
    /\ Some c = JS.round2 (Some (1 + inject_Z (d mod 100))%Q)
    /\ (1 <= c /\ c < 1 + inject_Z 100)%Q
    /\ exists n : Z, (c == inject_Z n / 100)%Q.
Proof. apply (crash_point_form_and_range "deadbeef" 1 100). lia. Defined.

(** C10. Every crash point is a whole number: whatever the hash string and
    the bound, a crash point that is a number is [1 + (d % maxCrashValue)]
    for the integer [d] read from the hash; for a SHA-256 hash and
    [maxCrashValue >= 1] it is one of [1, 2, ..., maxCrashValue]. *)
Theorem crash_point_is_whole (hash : string) (maxCrashValue : Z) (c : Q) :
  ProvablyFair.calculateCrashPoint hash maxCrashValue = Some c ->
  (exists d : Z,
      JS.parseInt16 (JS.slice0 8 hash) = Some d
      /\ c = inject_Z (1 + Z.rem d maxCrashValue))
  /\ (forall seed roundNumber,
        hash = ProvablyFair.generateHash seed roundNumber -> 1 <= maxCrashValue ->
        exists k : Z, c = inject_Z k /\ 1 <= k <= maxCrashValue).
Proof.
  intros Hc. rewrite calculateCrashPoint_eq in Hc.
  destruct (JS.parseInt16 (JS.slice0 8 hash)) as [d |] eqn:Hd; [| discriminate].
  destruct (maxCrashValue =? 0); [discriminate |].
  injection Hc as <-. split.
  - exists d. split; reflexivity.
  - intros seed roundNumber -> Hm.
    destruct (generateHash_fragment seed roundNumber) as (d' & Hd' & Hrange).
    rewrite Hd in Hd'. injection Hd' as <-.
    exists (1 + Z.rem d maxCrashValue). split; [reflexivity |].
    rewrite Z.rem_mod_nonneg by lia.
    pose proof (Z.mod_pos_bound d maxCrashValue). lia.
Qed.

Lemma crash_point_is_whole_witness :
  (exists d : Z,
      JS.parseInt16 (JS.slice0 8 (ProvablyFair.generateHash "deadbeef" 1)) = Some d
      /\ inject_Z 89 = inject_Z (1 + Z.rem d 100))
  /\ (forall seed roundNumber,
        ProvablyFair.generateHash "deadbeef" 1 = ProvablyFair.generateHash seed roundNumber ->
        1 <= 100 ->
        exists k : Z, inject_Z 89 = inject_Z k /\ 1 <= k <= 100).
Proof.
  apply (crash_point_is_whole (ProvablyFair.generateHash "deadbeef" 1) 100 (inject_Z 89)).
  vm_compute. reflexivity.
Defined.

End Fairness.

(** ** Frame properties of the requests *)

(** *** The laws of the handler monad *)

Import GameService.

Section MonadLaws.

Context {A B C : Type}.

Lemma bind_ret (a : A) (k : A -> M B) (w : World) : bind (ret a) k w = k a w.
Proof. reflexivity. Qed.

Lemma bind_throw (e : Error) (k : A -> M B) (w : World) :
  bind (throw e) k w = (inl e, w).
Proof. reflexivity. Qed.

Lemma bind_gets (f : World -> A) (k : A -> M B) (w : World) :
  bind (gets f) k w = k (f w) w.
Proof. reflexivity. Qed.

Lemma bind_modify (f : World -> World) (k : unit -> M B) (w : World) :
  bind (modify f) k w = k tt (f w).
Proof. reflexivity. Qed.

Lemma bind_when_throw (b : bool) (e : Error) (k : unit -> M B) (w : World) :
  bind (when b (throw e)) k w = if b then (inl e, w) else k tt w.
Proof. destruct b; reflexivity. Qed.

Lemma bind_bind (m : M A) (k1 : A -> M B) (k2 : B -> M C) (w : World) :
  bind (bind m k1) k2 w = bind m (fun a => bind (k1 a) k2) w.
Proof. unfold bind. destruct (m w) as [[e | a] w']; reflexivity. Qed.

Lemma bind_inl (m : M A) (k : A -> M B) (w w' : World) (e : Error) :
  m w = (inl e, w') -> bind m k w = (inl e, w').
Proof. intros H. unfold bind. rewrite H. reflexivity. Qed.

Lemma bind_inr (m : M A) (k : A -> M B) (w w' : World) (a : A) :
  m w = (inr a, w') -> bind m k w = k a w'.
Proof. intros H. unfold bind. rewrite H. reflexivity. Qed.

End MonadLaws.

(** Symbolic execution of a handler on a world given field by field: one
    monadic step at a time, with a case split at every test. *)
Ltac exec_step :=
  first
    [ match goal with
      | H : ?x = Some _ |- context [match ?x with Some _ => _ | None => _ end] =>
          rewrite H
      end
    | rewrite bind_gets
    | rewrite bind_modify
    | rewrite bind_ret
    | rewrite bind_throw
    | rewrite bind_bind
    | rewrite bind_when_throw;
      match goal with
      | |- context [if ?b then (inl _, _) else _] => destruct b eqn:?
      end
    | match goal with
      | |- context [bind (if ?c then _ else _) _ _] => destruct c eqn:?
      | |- context [bind (match ?o with Some _ => _ | None => _ end) _ _] =>
          destruct o eqn:?
      | |- context [bind (match ?o with inl _ => _ | inr _ => _ end) _ _] =>
          destruct o eqn:?
      | |- context [match ?o with Some _ => _ | None => _ end ?w] =>
          destruct o eqn:?
      | |- context [(if ?c then _ else _) ?w] => destruct c eqn:?
      | |- context [match ?o with Some _ => _ | None => _ end] => destruct o eqn:?
      end ];
  cbn beta iota zeta
    delta [fst snd currentRound currentMultiplier isGameRunning
           multiplierUpdateInterval maxCrashValue growthFactor roundNumber
           multiplierUpdateTimer roundTimer bettingCountdownTimer activeBets
           cashedOut roundPhase crashTimeouts requests wallets transactions
           mongoConnected clock nextObjectId
           set_currentRound set_activeBets set_cashedOut set_requests set_wallets
           set_transactions set_nextObjectId usdToCrypto gameRoundId].

Ltac exec :=
  unfold placeBet, cashOut, placeBet_begin, cashOut_begin,
    placeBet_checks, placeBet_debit, placeBet_transaction, placeBet_commit,
    cashOut_checks, cashOut_credit, cashOut_transaction, cashOut_commit,
    findWallet, updateBalance, updateBalance_issue, saveWallet, saveTransaction;
  repeat exec_step;
  unfold ret, throw.

(** Unfolding the callbacks of the round loop, and simplifying a world given
    field by field. *)
Ltac unfold_loop :=
  unfold roundTimerFires, bettingCountdownTick, multiplierTick, crashTimeoutFires,
    pauseGame, resumeGame, stopGame, startNewGame, startRound, crashGame,
    scheduleNextRound, startBettingPhase, startMultiplierUpdates,
    startGameLoop, constructor in *.

Ltac simpl_world :=
  cbn beta iota zeta
    delta [fst snd negb currentRound currentMultiplier isGameRunning
           multiplierUpdateInterval maxCrashValue growthFactor roundNumber
           multiplierUpdateTimer roundTimer bettingCountdownTimer activeBets
           cashedOut roundPhase crashTimeouts requests wallets transactions
           mongoConnected clock nextObjectId
           set_currentRound set_currentMultiplier set_isGameRunning
           set_roundNumber set_multiplierUpdateTimer set_roundTimer
           set_bettingCountdownTimer set_activeBets set_cashedOut
           set_roundPhase set_crashTimeouts set_requests set_wallets set_transactions
           set_mongoConnected set_clock set_nextObjectId
           _id r_roundNumber startTime endTime crashPoint seed hash status
           bets cashouts is_model timer_startTime timer_crashPoint
           gen_crashPoint gen_seed gen_hash fairness recordNumber
           fmap option_fmap option_map] in *.

Ltac split_tests :=
  repeat (match goal with
          | |- context [if ?b then _ else _] => destruct b
          | |- context [match ?x with Some _ => _ | None => _ end] => destruct x
          | |- context [match ?x with O => _ | S _ => _ end] => destruct x
          | |- context [match ?x with waiting => _ | _ => _ end] => destruct x
          end; simpl_world).

Section Frames.

Lemma placeBet_control userId usdAmount currency price (w : World) :
  control (placeBet userId usdAmount currency price w).2 = control w.
Proof. destruct w. exec; reflexivity. Qed.

Lemma cashOut_control userId (w : World) :
  control (cashOut userId w).2 = control w.
Proof. destruct w. exec; reflexivity. Qed.

Lemma placeBet_begin_control userId usdAmount currency price (w : World) :
  control (placeBet_begin userId usdAmount currency price w).2 = control w.
Proof. destruct w. exec; reflexivity. Qed.

Lemma cashOut_begin_control userId (w : World) :
  control (cashOut_begin userId w).2 = control w.
Proof. destruct w. exec; reflexivity. Qed.

Lemma resume_control (job : Job) (w : World) :
  control (resume job w).2 = control w.
Proof. destruct w, job; unfold resume; exec; reflexivity. Qed.

Lemma set_requests_control (x : list Request) (w : World) :
  control (set_requests x w) = control w.
Proof. destruct w. reflexivity. Qed.

Lemma arrive_control (handler : M (Job + Reply)) (w : World) :
  control (handler w).2 = control w -> control (arrive handler w) = control w.
Proof. intros H. unfold arrive. rewrite set_requests_control. exact H. Qed.

Lemma continue_control (i : nat) (w : World) : control (continue i w) = control w.
Proof.
  unfold continue. destruct (requests w !! i) as [[job | e | reply] |]; try reflexivity.
  rewrite set_requests_control. apply resume_control.
Qed.

(** No piece of a request touches the fields that drive the round loop. *)
Lemma request_control (e : Event) (w : World) :
  match e with
  | PlaceBet _ _ _ _ | CashOut _ | PlaceBetBegins _ _ _ _ | CashOutBegins _
  | Continue _ => control (step e w) = control w
  | _ => True
  end.
Proof.
  destruct e; cbn [step]; try exact I.
  - apply placeBet_control.
  - apply cashOut_control.
  - apply arrive_control, placeBet_begin_control.
  - apply arrive_control, cashOut_begin_control.
  - apply continue_control.
Qed.

Lemma control_fields (w w' : World) :
  control w' = control w ->
  roundPhase w' = roundPhase w /\ isGameRunning w' = isGameRunning w
  /\ roundNumber w' = roundNumber w
  /\ multiplierUpdateTimer w' = multiplierUpdateTimer w
  /\ roundTimer w' = roundTimer w
  /\ bettingCountdownTimer w' = bettingCountdownTimer w
  /\ crashTimeouts w' = crashTimeouts w /\ clock w' = clock w
  /\ currentMultiplier w' = currentMultiplier w
  /\ growthFactor w' = growthFactor w /\ maxCrashValue w' = maxCrashValue w
  /\ mongoConnected w' = mongoConnected w.
Proof.
  unfold control. intros H. injection H. intros. repeat split; assumption.
Qed.


End Frames.

(** ** The multiplier clock *)

Section MultiplierClock.
















End MultiplierClock.

(** ** Pause and resume *)

Section PauseResume.

(** C3, as the code has it: pausing a running round stops the ticks and
    keeps the multiplier value and the round record; resuming re-enters the
    running phase with the same crash point but arms the interval at the
    instant of the resume, so the first tick [ms] later computes
    [1.00 + ms * growthFactor]: the time elapsed before the pause is not
    carried over. *)
Theorem pause_freezes_resume_restarts
    (w : World) (r : Round) (cp : Q) (waited ms : N) :
  roundPhase w = running ->
  isGameRunning w = true ->
  currentRound w = Some r ->
  crashPoint r = Some cp ->
  ~ (cp == 0)%Q ->
  let frozen := step (Elapse waited) (pauseGame w) in
  let resumed := resumeGame frozen in
  (roundPhase frozen = paused /\ multiplierUpdateTimer frozen = None
   /\ currentMultiplier frozen = currentMultiplier w
   /\ currentRound frozen = currentRound w
   /\ multiplierTick frozen = frozen)
  /\ (roundPhase resumed = running /\ isGameRunning resumed = true
      /\ currentRound resumed = currentRound w
      /\ currentMultiplier resumed = currentMultiplier w
      /\ multiplierUpdateTimer resumed
         = Some {| timer_startTime := clock w + Z.of_N waited;
                   timer_crashPoint := Some cp |})
  /\ (currentMultiplier (multiplierTick (step (Elapse ms) resumed))
      == 1 + inject_Z (Z.of_N ms) * growthFactor w)%Q.
Proof.
  intros Hphase Hrun Hround Hcp Hnz frozen resumed.
  assert (Htruthy : JS.truthy (Some cp) = true).
  { cbn. destruct (Qeq_bool cp 0) eqn:E; [| reflexivity].
    apply Qeq_bool_eq in E. contradiction. }
  subst frozen resumed.
  set (d := Z.of_N waited). set (d' := Z.of_N ms).
  destruct w; cbn in Hphase, Hrun, Hround; subst.
  unfold pauseGame, resumeGame, multiplierTick, startMultiplierUpdates, step.
  cbn [roundPhase isGameRunning set_isGameRunning set_roundPhase
       set_multiplierUpdateTimer set_clock clock currentRound negb
       multiplierUpdateTimer currentMultiplier].
  fold d d'. rewrite Hcp, Htruthy.
  cbn [roundPhase isGameRunning set_isGameRunning set_roundPhase
       set_multiplierUpdateTimer set_clock clock currentRound negb
       multiplierUpdateTimer currentMultiplier set_currentMultiplier
       timer_startTime timer_crashPoint growthFactor].
  split; [repeat split |]. split; [repeat split |].
  assert (Hm : (Config.initialMultiplier
                + inject_Z (clock0 + d + d' - (clock0 + d)) * growthFactor0
                == 1 + inject_Z d' * growthFactor0)%Q).
  { replace (clock0 + d + d' - (clock0 + d)) with d' by lia. reflexivity. }
  destruct (JS.ge _ _); [unfold crashGame |]; cbn; exact Hm.
Qed.

Lemma pause_freezes_resume_restarts_witness :
  let w := Scenario.at_two in
  let frozen := step (Elapse 5000) (pauseGame w) in
  let resumed := resumeGame frozen in
  (roundPhase frozen = paused /\ multiplierUpdateTimer frozen = None
   /\ currentMultiplier frozen = currentMultiplier w
   /\ currentRound frozen = currentRound w
   /\ multiplierTick frozen = frozen)
  /\ (roundPhase resumed = running /\ isGameRunning resumed = true
      /\ currentRound resumed = currentRound w
      /\ currentMultiplier resumed = currentMultiplier w
      /\ multiplierUpdateTimer resumed
         = Some {| timer_startTime := clock w + Z.of_N 5000;
                   timer_crashPoint := Some (inject_Z 89) |})
  /\ (currentMultiplier (multiplierTick (step (Elapse 100) resumed))
      == 1 + inject_Z (Z.of_N 100) * growthFactor w)%Q.
Proof.
  destruct (currentRound Scenario.at_two) as [r |] eqn:Er;
    [| vm_compute in Er; discriminate].
  apply (pause_freezes_resume_restarts Scenario.at_two r (inject_Z 89) 5000 100).
  - vm_compute. reflexivity.
  - vm_compute. reflexivity.
  - exact Er.
  - vm_compute in Er. injection Er as <-. reflexivity.
  - vm_compute. discriminate.
Defined.

(** C3, as stated, fails: after 20 s of play (multiplier 2.00) a pause and
    a resume, the first tick 100 ms after the resume reads 1.005, not the
    2.005 of a clock continued from the frozen elapsed time; the crash
    point is the same. *)
Lemma resume_does_not_continue_elapsed_time :
  let before := Scenario.at_two in
  let after := run Scenario.pause_resume before in
  roundPhase before = running /\ roundPhase after = running
  /\ (crashPoint <$> currentRound after) = (crashPoint <$> currentRound before)
  /\ (currentMultiplier before == 2)%Q
  /\ (currentMultiplier after == 1.005)%Q
  /\ ~ (currentMultiplier after == 1 + inject_Z (20000 + 100) * Config.growthFactor)%Q
  /\ (currentMultiplier after < currentMultiplier before)%Q.
Proof. vm_compute. repeat split; discriminate. Qed.

End PauseResume.

(** ** The round ledger: wagers and cashouts *)

Section Ledger.

Lemma truthy_string_true (u : string) : u <> ""%string -> JS.truthy_string u = true.
Proof.
  intros Hu. unfold JS.truthy_string.
  destruct (String.eqb_spec u ""); [contradiction | reflexivity].
Qed.

Lemma Qle_bool_false (x y : Q) : (y < x)%Q -> Qle_bool x y = false.
Proof.
  intros H. destruct (Qle_bool x y) eqn:E; [| reflexivity].
  apply Qle_bool_iff in E. exfalso. exact (Qlt_not_le _ _ H E).
Qed.

Lemma supported_true (c : string) :
  c ∈ Config.supportedCurrencies ->
  bool_decide (c ∈ Config.supportedCurrencies) = true.
Proof. intros H. apply bool_decide_eq_true. exact H. Qed.

(** A request that throws leaves the world as it was, unless it is the
    [save] of the transaction that throws: the wallet is written by then. *)
Lemma placeBet_error userId usdAmount currency price (w : World) (e : Error) :
  (placeBet userId usdAmount currency price w).1 = inl e ->
  e <> TransactionInvalid ->
  (placeBet userId usdAmount currency price w).2 = w.
Proof.
  destruct w. exec; cbn; intros H He; try discriminate; try reflexivity;
    injection H as <-; contradiction.
Qed.


(** [updateBalance] refuses a debit the wallet cannot pay. *)
Lemma updateBalance_insufficient (wallet : Wallet.t) (currency : string) (amount : Q) :
  Wallet.insufficient wallet currency amount ->
  JS.lt (Wallet.balance wallet currency) (Some amount) = true
  \/ Wallet.updateBalance currency (- amount) wallet = inl (InsufficientBalance currency).
Proof.
  unfold Wallet.insufficient, Wallet.updateBalance.
  destruct (Wallet.balance wallet currency) as [b |]; intros H.
  - left. cbn. rewrite Qle_bool_false by exact H. reflexivity.
  - right. cbn. rewrite Qle_bool_false; [reflexivity |].
    apply Qopp_lt_compat in H. exact H.
Qed.

(** A valid wager of a user without one passes the tests of the betting
    phase. *)
Lemma placeBet_checks_pass userId usdAmount currency (w : World) :
  userId <> ""%string ->
  (0 < usdAmount)%Q ->
  currency ∈ Config.supportedCurrencies ->
  roundPhase w = betting ->
  activeBets w !! userId = None ->
  placeBet_checks userId usdAmount currency w = (inr tt, w).
Proof.
  intros Hu Hamount Hcur Hphase Hbet.
  pose proof (truthy_string_true userId Hu) as Tu.
  assert (Tc : JS.truthy_string currency = true).
  { apply truthy_string_true. intros ->. revert Hcur.
    unfold Config.supportedCurrencies.
    rewrite !elem_of_cons, elem_of_nil. intros [H | [H | []]]; discriminate. }
  pose proof (Qle_bool_false usdAmount 0 Hamount) as Ta.
  pose proof (supported_true currency Hcur) as Ts.
  destruct w; cbn in Hphase, Hbet; subst.
  unfold placeBet_checks.
  rewrite bind_when_throw, Tu, Ta, Tc. cbn [negb orb].
  rewrite bind_when_throw, Ts. cbn [negb].
  rewrite bind_gets. cbn [roundPhase].
  rewrite bind_when_throw. cbn [bool_decide decide_rel negb].
  rewrite bind_gets. cbn [activeBets].
  rewrite Hbet. reflexivity.
Qed.

(** The debit of a wallet that cannot pay throws before anything is
    written. *)
Lemma placeBet_debit_insufficient userId currency (amount : Q) (w : World)
    (wallet : Wallet.t) :
  wallets w !! userId = Some wallet ->
  Wallet.insufficient wallet currency amount ->
  placeBet_debit userId currency amount w = (inl (InsufficientBalance currency), w).
Proof.
  intros Hwallet Hpoor. unfold placeBet_debit, findWallet.
  rewrite bind_bind, bind_gets, Hwallet, bind_ret, bind_when_throw.
  destruct (updateBalance_insufficient wallet currency amount Hpoor) as [Hlt | Hdebit].
  - rewrite Hlt. reflexivity.
  - destruct (JS.lt _ _); [reflexivity |].
    unfold updateBalance_issue. rewrite Hdebit. reflexivity.
Qed.

(** C7. If the debit fails for insufficient funds, [placeBet] throws the
    insufficient-balance error and mutates nothing: the world, hence the
    wallet, is unchanged, and the ledger holds no wager of the user. *)
Theorem placeBet_insufficient_funds
    (w : World) (userId currency : string) (usdAmount price : Q) (wallet : Wallet.t) :
  userId <> ""%string ->
  (0 < usdAmount)%Q ->
  currency ∈ Config.supportedCurrencies ->
  roundPhase w = betting ->
  activeBets w !! userId = None ->
  mongoConnected w = true ->
  wallets w !! userId = Some wallet ->
  Wallet.insufficient wallet currency (usdAmount / price) ->
  let result := placeBet userId usdAmount currency price w in
  result = (inl (InsufficientBalance currency), w)
  /\ kind (InsufficientBalance currency) = InsufficientFunds
  /\ wallets result.2 = wallets w
  /\ activeBets result.2 !! userId = None.
Proof.
  intros Hu Hamount Hcur Hphase Hbet Hmongo Hwallet Hpoor result.
  assert (Hresult : result = (inl (InsufficientBalance currency), w)).
  { subst result. unfold placeBet.
    rewrite (bind_inr _ _ w w tt)
      by (apply placeBet_checks_pass; assumption).
    rewrite bind_gets, Hmongo, bind_gets.
    apply bind_inl, bind_inl.
    apply (placeBet_debit_insufficient userId currency _ w wallet); assumption. }
  rewrite Hresult. cbn [fst snd]. repeat split. exact Hbet.
Qed.

Lemma placeBet_insufficient_funds_witness :
  let result := placeBet "alice" 1000 "BTC" 50000 Scenario.betting_open in
  result = (inl (InsufficientBalance "BTC"), Scenario.betting_open)
  /\ kind (InsufficientBalance "BTC") = InsufficientFunds
  /\ wallets result.2 = wallets Scenario.betting_open
  /\ activeBets result.2 !! "alice"%string = None.
Proof.
  apply (placeBet_insufficient_funds Scenario.betting_open "alice" "BTC" 1000 50000
           Scenario.funded).
  - discriminate.
  - vm_compute. reflexivity.
  - apply elem_of_cons. left. reflexivity.
  - vm_compute. reflexivity.
  - vm_compute. reflexivity.
  - vm_compute. reflexivity.
  - vm_compute. reflexivity.
  - vm_compute. reflexivity.
Defined.

(** What the [save] of a wallet writes after [updateBalance] is the
    document that [updateBalance] made, when nothing else wrote the stored
    document in between. *)
Lemma updateBalance_saved (currency : string) (amount : Q) (wallet wallet' : Wallet.t) :
  Wallet.updateBalance currency amount wallet = inr wallet' ->
  Wallet.Make (<[currency := Wallet.balance wallet' currency]> (Wallet.balances wallet))
  = wallet'.
Proof.
  unfold Wallet.updateBalance.
  destruct (_ && _); [discriminate |]. destruct (JS.lt _ _); [discriminate |].
  intros [= <-]. unfold Wallet.balance at 1. cbn [Wallet.balances].
  rewrite lookup_insert_eq. reflexivity.
Qed.

(** With the store connected, an accepted wager is recorded on both sides:
    the wallet is debited and the ledger holds the wager. *)
Lemma placeBet_accepted_connected userId usdAmount currency price (w : World) (b : Bet) :
  accepted (placeBet userId usdAmount currency price w) = Some b ->
  mongoConnected w = true ->
  let w' := (placeBet userId usdAmount currency price w).2 in
  exists wallet wallet',
    wallets w !! userId = Some wallet
    /\ Wallet.updateBalance currency (- (usdAmount / price))%Q wallet = inr wallet'
    /\ wallets w' = <[userId := wallet']> (wallets w)
    /\ activeBets w' !! userId = Some b.
Proof.
  unfold accepted. destruct w. exec; cbn; intros H Hm; try discriminate;
    injection H as <-;
    match goal with
    | Hu : Wallet.updateBalance _ _ ?a = inr ?b |- _ =>
        exists a, b; rewrite (updateBalance_saved _ _ _ _ Hu)
    end;
    repeat split; try assumption; apply lookup_insert_eq.
Qed.

(** *** One wager and one cashout per user and round *)

(** What an accepted wager leaves in the ledger, and when it is accepted. *)
Lemma placeBet_accepted userId usdAmount currency price (w : World) (b : Bet) :
  accepted (placeBet userId usdAmount currency price w) = Some b ->
  roundPhase w = betting
  /\ userId <> ""%string
  /\ activeBets w !! userId = None
  /\ activeBets (placeBet userId usdAmount currency price w).2 !! userId = Some b.
Proof.
  unfold accepted. destruct w. exec; cbn; intros H; try discriminate;
    injection H as <-;
    repeat match goal with
           | H : negb _ = false |- _ => apply negb_false_iff in H
           | H : orb _ _ = false |- _ => apply orb_false_iff in H; destruct H
           | H : bool_decide _ = true |- _ => apply bool_decide_eq_true in H
           | H : bool_decide _ = false |- _ => apply bool_decide_eq_false in H
           end;
    (split; [assumption |]; split;
     [ intros ->; discriminate
     | split; [ apply eq_None_not_Some; assumption | apply lookup_insert_eq ] ]).
Qed.

Lemma cashOut_accepted userId (w : World) (c : Cashout) :
  accepted (cashOut userId w) = Some c ->
  roundPhase w = running /\ isGameRunning w = true
  /\ userId <> ""%string
  /\ userId ∈ cashedOut (cashOut userId w).2.
Proof.
  unfold accepted. destruct w. exec; cbn; intros H; try discriminate;
    repeat match goal with
           | H : negb _ = false |- _ => apply negb_false_iff in H
           | H : bool_decide _ = true |- _ => apply bool_decide_eq_true in H
           end;
    (split; [assumption |]; split; [assumption |]; split;
     [ intros ->; discriminate | set_solver ]).
Qed.

(** The ledger only grows within a round. *)
Lemma placeBet_ledger userId usdAmount currency price (w : World) (u : string) :
  (is_Some (activeBets w !! u) ->
   is_Some (activeBets (placeBet userId usdAmount currency price w).2 !! u))
  /\ cashedOut (placeBet userId usdAmount currency price w).2 = cashedOut w.
Proof.
  destruct w. exec; cbn; (split; [| reflexivity]); intros Hu; try assumption;
    (destruct (decide (userId = u)) as [-> | Hne];
     [ rewrite lookup_insert_eq; eauto | rewrite lookup_insert_ne by assumption; assumption ]).
Qed.

Lemma cashOut_ledger userId (w : World) (u : string) :
  activeBets (cashOut userId w).2 = activeBets w
  /\ (u ∈ cashedOut w -> u ∈ cashedOut (cashOut userId w).2).
Proof.
  destruct w. exec; cbn; (split; [reflexivity |]); intros Hu; try assumption; set_solver.
Qed.

Ltac ledger_grows :=
  cbn; split; intros Hu; try assumption;
  first
    [ match goal with
      | |- is_Some (<[?k := _]> _ !! ?u) =>
          destruct (decide (k = u)) as [-> | Hne];
          [ rewrite lookup_insert_eq; eauto
          | rewrite lookup_insert_ne by assumption; assumption ]
      end
    | set_solver ].

Lemma placeBet_begin_ledger userId usdAmount currency price (w : World) (u : string) :
  (is_Some (activeBets w !! u) ->
   is_Some (activeBets (placeBet_begin userId usdAmount currency price w).2 !! u))
  /\ (u ∈ cashedOut w ->
      u ∈ cashedOut (placeBet_begin userId usdAmount currency price w).2).
Proof. destruct w. exec; ledger_grows. Qed.

Lemma cashOut_begin_ledger userId (w : World) (u : string) :
  (is_Some (activeBets w !! u) -> is_Some (activeBets (cashOut_begin userId w).2 !! u))
  /\ (u ∈ cashedOut w -> u ∈ cashedOut (cashOut_begin userId w).2).
Proof. destruct w. exec; ledger_grows. Qed.

Lemma resume_ledger (job : Job) (w : World) (u : string) :
  (is_Some (activeBets w !! u) -> is_Some (activeBets (resume job w).2 !! u))
  /\ (u ∈ cashedOut w -> u ∈ cashedOut (resume job w).2).
Proof. destruct w, job; unfold resume; exec; ledger_grows. Qed.

Lemma set_requests_ledger (x : list Request) (w : World) :
  activeBets (set_requests x w) = activeBets w
  /\ cashedOut (set_requests x w) = cashedOut w.
Proof. destruct w. split; reflexivity. Qed.

(** No piece of a request takes anything out of the ledger. *)
Lemma request_ledger (e : Event) (w : World) (u : string) :
  match e with
  | PlaceBet _ _ _ _ | CashOut _ | PlaceBetBegins _ _ _ _ | CashOutBegins _
  | Continue _ =>
      (is_Some (activeBets w !! u) -> is_Some (activeBets (step e w) !! u))
      /\ (u ∈ cashedOut w -> u ∈ cashedOut (step e w))
  | _ => True
  end.
Proof.
  destruct e; cbn [step]; try exact I.
  - destruct (placeBet_ledger userId usdAmount currency price w u) as [Ha Hc].
    rewrite Hc. auto.
  - destruct (cashOut_ledger userId w u) as [Ha Hc]. rewrite Ha. auto.
  - unfold arrive. destruct (set_requests_ledger
      (requests (placeBet_begin userId usdAmount currency price w).2
       ++ [outcome (placeBet_begin userId usdAmount currency price w).1])
      (placeBet_begin userId usdAmount currency price w).2) as [-> ->].
    apply placeBet_begin_ledger.
  - unfold arrive. destruct (set_requests_ledger
      (requests (cashOut_begin userId w).2 ++ [outcome (cashOut_begin userId w).1])
      (cashOut_begin userId w).2) as [-> ->].
    apply cashOut_begin_ledger.
  - unfold continue. destruct (requests w !! request) as [[job | e | reply] |]; auto.
    destruct (set_requests_ledger
      (<[request := outcome (resume job w).1]> (requests (resume job w).2))
      (resume job w).2) as [-> ->].
    apply resume_ledger.
Qed.

Lemma step_ledger (e : Event) (w : World) (u : string) :
  e <> RoundTimerFires ->
  (is_Some (activeBets w !! u) -> is_Some (activeBets (step e w) !! u))
  /\ (u ∈ cashedOut w -> u ∈ cashedOut (step e w)).
Proof.
  intros He. pose proof (request_ledger e w u) as Hreq.
  destruct e; cbn [step] in *; try contradiction; try exact Hreq;
    destruct w; unfold_loop; simpl_world; split_tests; auto.
Qed.

Lemma run_ledger (evs : list Event) (w : World) (u : string) :
  within_round evs ->
  (is_Some (activeBets w !! u) -> is_Some (activeBets (run evs w) !! u))
  /\ (u ∈ cashedOut w -> u ∈ cashedOut (run evs w)).
Proof.
  unfold within_round. revert w.
  induction evs as [| e evs IH]; intros w Hall; [cbn; auto |].
  cbn [run foldl]. fold (run evs (step e w)).
  destruct (step_ledger e w u (Forall_inv Hall)) as [Ha Hc].
  destruct (IH (step e w) (Forall_inv_tail Hall)) as [Ha' Hc'].
  auto.
Qed.

(** With a wager in the ledger, a further valid wager of the same user is
    a duplicate. *)
Lemma placeBet_duplicate userId usdAmount currency price (w : World) :
  userId <> ""%string -> (0 < usdAmount)%Q ->
  currency ∈ Config.supportedCurrencies ->
  roundPhase w = betting ->
  is_Some (activeBets w !! userId) ->
  placeBet userId usdAmount currency price w = (inl AlreadyActiveBet, w).
Proof.
  intros Hu Hamount Hcur Hphase Hbet.
  pose proof (truthy_string_true userId Hu) as Tu.
  assert (Tc : JS.truthy_string currency = true).
  { apply truthy_string_true. intros ->. revert Hcur.
    unfold Config.supportedCurrencies.
    rewrite !elem_of_cons, elem_of_nil. intros [H | [H | []]]; discriminate. }
  pose proof (Qle_bool_false usdAmount 0 Hamount) as Ta.
  pose proof (supported_true currency Hcur) as Ts.
  destruct w; cbn in Hphase, Hbet; subst.
  unfold placeBet. apply bind_inl. unfold placeBet_checks.
  rewrite bind_when_throw, Tu, Ta, Tc. cbn [negb orb].
  rewrite bind_when_throw, Ts. cbn [negb].
  rewrite bind_gets. cbn [roundPhase].
  rewrite bind_when_throw. cbn [bool_decide decide_rel negb].
  rewrite bind_gets. cbn [activeBets].
  rewrite (bool_decide_eq_true_2 _ Hbet). reflexivity.
Qed.

(** Once cashed out, every further cashout of the user throws; while the
    round is running, the error is the duplicate one. *)
Lemma cashOut_checks_duplicate userId (w : World) :
  userId <> ""%string ->
  userId ∈ cashedOut w ->
  (exists e, cashOut_checks userId w = (inl e, w))
  /\ (isGameRunning w = true -> roundPhase w = running ->
      is_Some (activeBets w !! userId) ->
      cashOut_checks userId w = (inl AlreadyCashedOut, w)).
Proof.
  intros Hu Hdone.
  pose proof (truthy_string_true userId Hu) as Tu.
  pose proof (bool_decide_eq_true_2 _ Hdone) as Td.
  destruct w; cbn in Hdone, Td.
  unfold cashOut_checks.
  rewrite bind_when_throw, Tu. cbn [negb].
  rewrite bind_gets. cbn [isGameRunning].
  rewrite bind_when_throw.
  destruct isGameRunning0; cbn [negb]; [| split; [eauto | discriminate]].
  rewrite bind_gets. cbn [roundPhase].
  rewrite bind_when_throw.
  destruct (bool_decide (roundPhase0 = running)) eqn:Ephase; cbn [negb];
    [| split; [eauto |]; intros _ Hphase; apply bool_decide_eq_false in Ephase;
       contradiction].
  rewrite bind_gets. cbn [activeBets].
  destruct (activeBets0 !! userId) as [theBet |];
    [| split; [unfold throw; eauto |]; intros _ _ [x Hx]; discriminate].
  rewrite bind_gets. cbn [cashedOut].
  rewrite bind_when_throw, Td. split; [eauto | reflexivity].
Qed.

Lemma cashOut_duplicate userId (w : World) :
  userId <> ""%string ->
  userId ∈ cashedOut w ->
  (exists e, cashOut userId w = (inl e, w))
  /\ (isGameRunning w = true -> roundPhase w = running ->
      is_Some (activeBets w !! userId) ->
      cashOut userId w = (inl AlreadyCashedOut, w)).
Proof.
  intros Hu Hdone.
  destruct (cashOut_checks_duplicate userId w Hu Hdone) as [[e He] Hdup].
  split.
  - exists e. unfold cashOut. apply bind_inl. exact He.
  - intros Hg Hp Hb. unfold cashOut. apply bind_inl. apply Hdup; assumption.
Qed.

(** What holds of every state of a trace holds of its last state. *)
Lemma states_run (P : World -> Prop) (evs : list Event) (w : World) :
  Forall P (states evs w) -> P (run evs w).
Proof.
  revert w. induction evs as [| e evs IH]; intros w Hall.
  - apply (Forall_inv Hall).
  - cbn [run foldl]. fold (run evs (step e w)).
    apply IH. cbn [states] in Hall. apply (Forall_inv_tail Hall).
Qed.

Lemma cashOut_accepted_bet userId (w : World) (c : Cashout) :
  accepted (cashOut userId w) = Some c -> is_Some (activeBets w !! userId).
Proof.
  unfold accepted. destruct w. exec; cbn; intros H; try discriminate; eauto.
Qed.

(** Requests served one after the other: after an accepted wager, a
    valid [placeBet] of the same user that begins later in the same betting
    phase throws the duplicate error and changes nothing (the wallet
    included); after an accepted cashout, every [cashOut] of the same user
    that begins before the next betting phase throws and changes nothing,
    with the duplicate error while the round is running. *)
Lemma later_duplicate_is_rejected (userId : string) :
  (forall (w : World) usdAmount currency price (b : Bet) (evs : list Event)
          usdAmount' currency' price',
      accepted (placeBet userId usdAmount currency price w) = Some b ->
      let w1 := (placeBet userId usdAmount currency price w).2 in
      within_betting_phase w1 evs ->
      (0 < usdAmount')%Q ->
      currency' ∈ Config.supportedCurrencies ->
      let second := placeBet userId usdAmount' currency' price' (run evs w1) in
      second = (inl AlreadyActiveBet, run evs w1)
      /\ kind AlreadyActiveBet = DuplicateAction
      /\ wallets second.2 = wallets (run evs w1))
  /\ (forall (w : World) (c : Cashout) (evs : list Event),
        accepted (cashOut userId w) = Some c ->
        let w1 := (cashOut userId w).2 in
        within_round evs ->
        let second := cashOut userId (run evs w1) in
        (exists e, second = (inl e, run evs w1))
        /\ wallets second.2 = wallets (run evs w1)
        /\ (isGameRunning (run evs w1) = true ->
            roundPhase (run evs w1) = running ->
            second = (inl AlreadyCashedOut, run evs w1)
            /\ kind AlreadyCashedOut = DuplicateAction)).
Proof.
  split.
  - intros w usdAmount currency price b evs usdAmount' currency' price'
      Hacc w1 [Hround Hphase] Hamount Hcur second.
    destruct (placeBet_accepted _ _ _ _ _ _ Hacc) as (_ & Hu & _ & Hbet).
    fold w1 in Hbet.
    pose proof (states_run _ evs w1 Hphase) as Hbetting. cbn beta in Hbetting.
    assert (Hsecond : second = (inl AlreadyActiveBet, run evs w1)).
    { subst second. apply placeBet_duplicate; try assumption.
      apply (proj1 (run_ledger evs w1 userId Hround)). rewrite Hbet. eauto. }
    rewrite Hsecond. repeat split.
  - intros w c evs Hacc w1 Hround second.
    destruct (cashOut_accepted _ _ _ Hacc) as (_ & _ & Hu & Hdone).
    fold w1 in Hdone.
    pose proof (proj2 (run_ledger evs w1 userId Hround) Hdone) as Hdone'.
    destruct (cashOut_duplicate userId (run evs w1) Hu Hdone') as [[e He] Hdup].
    fold second in He.
    split; [exists e; exact He |]. split; [rewrite He; reflexivity |].
    intros Hrunning Hphase. split; [| reflexivity].
    apply Hdup; try assumption.
    apply (proj1 (run_ledger evs w1 userId Hround)).
    subst w1. rewrite (proj1 (cashOut_ledger userId w userId)).
    exact (cashOut_accepted_bet _ _ _ Hacc).
Qed.

(** *** Phase gating *)




End Ledger.

(** ** The fairness data of a round *)

Section RoundRecord.

Ltac finish_running Hcur :=
  try exact Hcur; intros Hp;
  first [ reflexivity
        | destruct Hp; discriminate
        | apply Hcur; first [left; reflexivity | right; reflexivity | assumption] ].

Ltac finish_record Hle Hcur :=
  split;
  [ try exact Hle; intros n Hn;
    first [ apply Hle; exact Hn | injection Hn as <-; lia | discriminate ]
  | finish_running Hcur ].

Lemma placeBet_fairness userId usdAmount currency price (w : World) :
  fairness (placeBet userId usdAmount currency price w).2 = fairness w.
Proof.
  destruct w. exec; cbn; try reflexivity;
    destruct currentRound0; reflexivity.
Qed.

Lemma cashOut_fairness userId (w : World) :
  fairness (cashOut userId w).2 = fairness w.
Proof.
  destruct w. exec; cbn; try reflexivity;
    destruct currentRound0; reflexivity.
Qed.

Lemma placeBet_begin_fairness userId usdAmount currency price (w : World) :
  fairness (placeBet_begin userId usdAmount currency price w).2 = fairness w.
Proof. destruct w. exec; reflexivity. Qed.

Lemma cashOut_begin_fairness userId (w : World) :
  fairness (cashOut_begin userId w).2 = fairness w.
Proof.
  destruct w. exec; cbn; try reflexivity;
    destruct currentRound0; reflexivity.
Qed.

Lemma resume_fairness (job : Job) (w : World) :
  fairness (resume job w).2 = fairness w.
Proof.
  destruct w, job; unfold resume; exec; cbn; try reflexivity;
    destruct currentRound0; reflexivity.
Qed.

Lemma set_requests_fairness (x : list Request) (w : World) :
  fairness (set_requests x w) = fairness w.
Proof. destruct w. reflexivity. Qed.

(** No piece of a request touches the fairness data of the round record. *)
Lemma request_fairness (e : Event) (w : World) :
  match e with
  | PlaceBet _ _ _ _ | CashOut _ | PlaceBetBegins _ _ _ _ | CashOutBegins _
  | Continue _ => fairness (step e w) = fairness w
  | _ => True
  end.
Proof.
  destruct e; cbn [step]; try exact I.
  - apply placeBet_fairness.
  - apply cashOut_fairness.
  - unfold arrive. rewrite set_requests_fairness. apply placeBet_begin_fairness.
  - unfold arrive. rewrite set_requests_fairness. apply cashOut_begin_fairness.
  - unfold continue. destruct (requests w !! request) as [[job | e | reply] |];
      try reflexivity.
    rewrite set_requests_fairness. apply resume_fairness.
Qed.

(** What [startRound] generates, in one step. *)
Lemma startRound_generates (seed : string) (saveOk : bool) (w : World) :
  let w' := startRound seed saveOk w in
  roundNumber w' = (roundNumber w + 1)%N
  /\ fairness w'
     = Some (roundNumber w',
             ProvablyFair.calculateCrashPoint
               (ProvablyFair.generateHash seed (roundNumber w')) (maxCrashValue w),
             seed, ProvablyFair.generateHash seed (roundNumber w'))
  /\ roundPhase w' <> betting.
Proof.
  destruct w. unfold_loop. simpl_world.
  destruct mongoConnected0, saveOk; simpl_world; repeat split; discriminate.
Qed.

(** Only [startRound] touches the fairness data of the current record. *)
Lemma step_fairness (e : Event) (w : World) :
  fairness (step e w) = fairness w
  \/ exists seed saveOk,
       e = BettingCountdownFires seed saveOk
       /\ step e w = startRound seed saveOk (set_bettingCountdownTimer None w).
Proof.
  pose proof (request_fairness e w) as Hreq.
  destruct e; cbn [step] in *; try (left; exact Hreq).
  - left. destruct w. unfold_loop. simpl_world. split_tests; reflexivity.
  - destruct w. unfold bettingCountdownTick. cbn [bettingCountdownTimer].
    destruct bettingCountdownTimer0 as [n |]; [| left; reflexivity].
    destruct (n - 1 <=? 0); [right; eauto | left; reflexivity].
  - left. destruct w. unfold_loop. simpl_world. split_tests; reflexivity.
  - left. destruct w. unfold_loop. simpl_world. split_tests; reflexivity.
  - left. destruct w. unfold_loop. simpl_world. split_tests; reflexivity.
  - left. destruct w. unfold_loop. simpl_world. split_tests; reflexivity.
  - left. destruct w. reflexivity.
  - left. destruct w. unfold_loop. simpl_world. split_tests; reflexivity.
  - left. destruct w. reflexivity.
  - left. destruct w. reflexivity.
  - left. destruct w. reflexivity.
Qed.

Lemma request_recordNumber (w w' : World) :
  fairness w' = fairness w -> recordNumber w' = recordNumber w.
Proof.
  unfold recordNumber, fairness. intros Hf.
  destruct (currentRound w'), (currentRound w); cbn in *; congruence.
Qed.

Lemma request_running_record (w w' : World) :
  control w' = control w -> fairness w' = fairness w ->
  record_of_running_round w -> record_of_running_round w'.
Proof.
  intros Hc Hf Hinv.
  destruct (control_fields _ _ Hc) as (Fp & _ & Fn & _).
  unfold record_of_running_round.
  rewrite Fp, Fn, (request_recordNumber _ _ Hf). exact Hinv.
Qed.

Lemma request_round_record (w w' : World) :
  control w' = control w -> fairness w' = fairness w ->
  round_record_current w -> round_record_current w'.
Proof.
  intros Hc Hf Hinv.
  destruct (control_fields _ _ Hc) as (Fp & _ & Fn & _).
  unfold round_record_current.
  rewrite Fp, Fn, (request_recordNumber _ _ Hf). exact Hinv.
Qed.

(** In the running and the paused phase the record is the one of the
    round, whatever happened before, a new call of [startGameLoop]
    included: it leaves the phase. *)
Lemma step_running_record (e : Event) (w : World) :
  record_of_running_round w -> record_of_running_round (step e w).
Proof.
  intros Hcur.
  pose proof (request_control e w) as Hc. pose proof (request_fairness e w) as Hf.
  destruct e; cbn [step] in *;
    try (apply (request_running_record w); assumption);
    clear Hc Hf; unfold record_of_running_round in *;
    destruct w; unfold_loop; simpl_world; split_tests;
    finish_running Hcur.
Qed.

Lemma run_running_record (evs : list Event) (w : World) :
  record_of_running_round w -> record_of_running_round (run evs w).
Proof.
  revert w. induction evs as [| e evs IH]; intros w Hinv; [exact Hinv |].
  cbn [run foldl]. fold (run evs (step e w)).
  apply IH, step_running_record, Hinv.
Qed.

Lemma reachable_running_record (w : World) :
  reachable w -> record_of_running_round w.
Proof.
  intros (env & store & connected & now & latest & evs & ->).
  apply run_running_record.
  unfold record_of_running_round, startGameLoop, scheduleNextRound, constructor.
  simpl_world. intros [H | H]; discriminate.
Qed.

(** As long as [startGameLoop] is not called again, the round record never
    runs ahead of the round counter. *)
Lemma step_round_record (e : Event) (w : World) :
  (forall latest, e <> StartGameLoop latest) ->
  round_record_current w -> round_record_current (step e w).
Proof.
  intros Hnot Hinv.
  pose proof (request_control e w) as Hc. pose proof (request_fairness e w) as Hf.
  destruct e; cbn [step] in *;
    try (apply (request_round_record w); assumption);
    try (exfalso; exact (Hnot _ eq_refl));
    clear Hc Hf Hnot;
    destruct Hinv as [Hle Hcur]; unfold round_record_current;
    destruct w; unfold_loop; simpl_world; split_tests;
    finish_record Hle Hcur.
Qed.

Lemma run_round_record (evs : list Event) (w : World) :
  not_restarted evs ->
  round_record_current w -> round_record_current (run evs w).
Proof.
  unfold not_restarted. revert w.
  induction evs as [| e evs IH]; intros w Hall Hinv; [exact Hinv |].
  apply List.Forall_cons_iff in Hall. destruct Hall as [He Hall].
  cbn [run foldl]. fold (run evs (step e w)).
  apply IH; [exact Hall |]. apply step_round_record; assumption.
Qed.

Lemma reachable_round_record (evs : list Event) (w : World) :
  reachable_by evs w -> not_restarted evs -> round_record_current w.
Proof.
  intros (env & store & connected & now & latest & ->) Hnot.
  apply run_round_record; [exact Hnot |].
  unfold round_record_current, startGameLoop, scheduleNextRound, constructor.
  simpl_world. split; [intros n; discriminate | intros [H | H]; discriminate].
Qed.

Lemma reachable_by_reachable (evs : list Event) (w : World) :
  reachable_by evs w -> reachable w.
Proof.
  intros (env & store & connected & now & latest & ->).
  exists env, store, connected, now, latest, evs. reflexivity.
Qed.

(** A request passes the tests of [placeBet] only in the betting phase,
    and those of [cashOut] only in the running phase. *)
Lemma placeBet_begin_accepted userId usdAmount currency price (w : World)
    (r : Job + Reply) :
  accepted (placeBet_begin userId usdAmount currency price w) = Some r ->
  roundPhase w = betting.
Proof.
  unfold accepted. destruct w. exec; cbn; intros H; try discriminate.
  repeat match goal with
         | H : negb _ = false |- _ => apply negb_false_iff in H
         | H : bool_decide _ = true |- _ => apply bool_decide_eq_true in H
         end.
  assumption.
Qed.

Lemma cashOut_begin_accepted userId (w : World) (r : Job + Reply) :
  accepted (cashOut_begin userId w) = Some r ->
  roundPhase w = running.
Proof.
  unfold accepted. destruct w. exec; cbn; intros H; try discriminate;
    repeat match goal with
           | H : negb _ = false |- _ => apply negb_false_iff in H
           | H : bool_decide _ = true |- _ => apply bool_decide_eq_true in H
           end;
    assumption.
Qed.

(** C2, as the code has it.  In every world the server reaches after the
    events [evs]: the crash point, the seed and the hash of a round are
    generated in the single step [startRound], at the entry of the running
    phase, and no other step changes them in the round record; a wager
    passes the phase test of [placeBet] only in the betting phase, and a
    cashout passes the tests of [cashOut] only in the running phase, with
    the record of the round in place; and as long as [startGameLoop] was
    not called again, the round number of the new record is one no record
    had before: the round has no record during its betting phase. *)
Theorem crash_point_generated_once_at_running_entry (evs : list Event) (w : World) :
  reachable_by evs w ->
  (forall seed saveOk,
      let w' := startRound seed saveOk w in
      roundNumber w' = (roundNumber w + 1)%N
      /\ fairness w'
         = Some (roundNumber w',
                 ProvablyFair.calculateCrashPoint
                   (ProvablyFair.generateHash seed (roundNumber w')) (maxCrashValue w),
                 seed, ProvablyFair.generateHash seed (roundNumber w'))
      /\ roundPhase w' <> betting
      /\ (not_restarted evs ->
          forall n, recordNumber w = Some n -> (n < roundNumber w')%N))
  /\ (forall e,
        fairness (step e w) = fairness w
        \/ exists seed saveOk,
             e = BettingCountdownFires seed saveOk
             /\ step e w = startRound seed saveOk (set_bettingCountdownTimer None w))
  /\ (forall userId usdAmount currency price,
        (forall b, accepted (placeBet userId usdAmount currency price w) = Some b ->
                   roundPhase w = betting)
        /\ (forall r, accepted (placeBet_begin userId usdAmount currency price w) = Some r ->
                      roundPhase w = betting))
  /\ (forall userId,
        (forall c, accepted (cashOut userId w) = Some c -> roundPhase w = running)
        /\ (forall r, accepted (cashOut_begin userId w) = Some r -> roundPhase w = running))
  /\ (roundPhase w = running ->
      exists r, currentRound w = Some r /\ r_roundNumber r = roundNumber w).
Proof.
  intros Hreach.
  pose proof (reachable_running_record w (reachable_by_reachable evs w Hreach)) as Hcur.
  pose proof (reachable_round_record evs w Hreach) as Hrec.
  split; [| split; [| split; [| split]]].
  - intros seed saveOk w'.
    destruct (startRound_generates seed saveOk w) as (Hn & Hf & Hp).
    fold w' in Hn, Hf, Hp.
    repeat (split; [assumption |]).
    intros Hnot n Hn'. rewrite Hn.
    destruct (Hrec Hnot) as [Hle _]. specialize (Hle n Hn'). lia.
  - intros e. apply step_fairness.
  - intros userId usdAmount currency price. split.
    + intros b Hacc. apply (placeBet_accepted _ _ _ _ _ _ Hacc).
    + intros r Hacc. apply (placeBet_begin_accepted _ _ _ _ _ _ Hacc).
  - intros userId. split.
    + intros c Hacc. apply (cashOut_accepted _ _ _ Hacc).
    + intros r Hacc. apply (cashOut_begin_accepted _ _ _ Hacc).
  - intros Hphase.
    specialize (Hcur (or_introl Hphase)). unfold recordNumber in Hcur.
    destruct (currentRound w) as [r |]; [| discriminate].
    exists r. split; [reflexivity |]. cbn in Hcur. congruence.
Qed.

Lemma crash_point_generated_once_at_running_entry_witness :
  let evs := Scenario.history in
  let w := Scenario.second_at_two in
  not_restarted evs
  /\ roundPhase w = running
  /\ (forall seed saveOk,
      let w' := startRound seed saveOk w in
      roundNumber w' = (roundNumber w + 1)%N
      /\ fairness w'
         = Some (roundNumber w',
                 ProvablyFair.calculateCrashPoint
                   (ProvablyFair.generateHash seed (roundNumber w')) (maxCrashValue w),
                 seed, ProvablyFair.generateHash seed (roundNumber w'))
      /\ roundPhase w' <> betting
      /\ (not_restarted evs ->
          forall n, recordNumber w = Some n -> (n < roundNumber w')%N))
  /\ (forall e,
        fairness (step e w) = fairness w
        \/ exists seed saveOk,
             e = BettingCountdownFires seed saveOk
             /\ step e w = startRound seed saveOk (set_bettingCountdownTimer None w))
  /\ (forall userId usdAmount currency price,
        (forall b, accepted (placeBet userId usdAmount currency price w) = Some b ->
                   roundPhase w = betting)
        /\ (forall r, accepted (placeBet_begin userId usdAmount currency price w) = Some r ->
                      roundPhase w = betting))
  /\ (forall userId,
        (forall c, accepted (cashOut userId w) = Some c -> roundPhase w = running)
        /\ (forall r, accepted (cashOut_begin userId w) = Some r -> roundPhase w = running))
  /\ (roundPhase w = running ->
      exists r, currentRound w = Some r /\ r_roundNumber r = roundNumber w).
Proof.
  split; [| split].
  - repeat (apply List.Forall_cons; [intros latest; discriminate |]).
    apply List.Forall_nil.
  - vm_compute. reflexivity.
  - apply (crash_point_generated_once_at_running_entry
             Scenario.history Scenario.second_at_two).
    exists Config.defaults,
      (<["alice"%string := Scenario.funded]> (<["bob"%string := Scenario.funded]> ∅)),
      true, 0, None.
    vm_compute. reflexivity.
Defined.

(** C2, as stated, fails: in the betting phase of round 2 a wager is
    accepted while the crash point and the seed of round 2 have not been
    generated (the current record is still the one of round 1, crashed at
    89); they are generated when the countdown ends, with the wager already
    in the ledger. *)
Lemma wager_accepted_before_crash_point_generated :
  let w := Scenario.second_betting in
  let result := placeBet "alice" 10 "BTC" 50000 w in
  roundPhase w = betting
  /\ roundNumber w = 1%N
  /\ accepted result <> None
  /\ (crashPoint <$> currentRound w) = Some (Some (inject_Z 89))
  /\ recordNumber result.2 = Some 1%N
  /\ is_Some (activeBets Scenario.second_before_tick !! "alice"%string)
  /\ recordNumber Scenario.second_before_tick = Some 2%N
  /\ (crashPoint <$> currentRound Scenario.second_before_tick) = Some (Some (inject_Z 18)).
Proof.
  vm_compute. repeat split; try discriminate. eexists. reflexivity.
Qed.

End RoundRecord.

(** ** Requests served piece by piece *)

(** *** The pieces do not depend on the requests in flight *)

Section Independent.

Context {A B : Type}.

Lemma independent_ret (a : A) : independent (ret a).
Proof. intros l w. reflexivity. Qed.

Lemma independent_throw (e : Error) : independent (throw e : M A).
Proof. intros l w. reflexivity. Qed.

Lemma independent_bind (m : M A) (k : A -> M B) :
  independent m -> (forall a, independent (k a)) -> independent (bind m k).
Proof.
  intros Hm Hk l w. unfold bind. rewrite Hm.
  destruct (m w) as [[e | a] w']; cbn [fst snd]; [reflexivity | apply Hk].
Qed.

Lemma independent_gets (f : World -> A) :
  (forall l w, f (set_requests l w) = f w) -> independent (gets f).
Proof. intros Hf l w. unfold gets. rewrite Hf. reflexivity. Qed.

End Independent.

Lemma independent_modify (f : World -> World) :
  (forall l w, f (set_requests l w) = set_requests l (f w)) ->
  independent (modify f).
Proof. intros Hf l w. unfold modify. rewrite Hf. reflexivity. Qed.

Lemma independent_when (b : bool) (m : M unit) :
  independent m -> independent (when b m).
Proof. intros Hm. destruct b; [exact Hm | apply independent_ret]. Qed.

Ltac independence :=
  repeat first
    [ apply independent_ret
    | apply independent_throw
    | apply independent_when
    | apply independent_bind; [| intros ?]
    | apply independent_gets; intros ? []; reflexivity
    | apply independent_modify; intros ? []; reflexivity
    | apply independent_modify; intros ? []; cbn [wallets set_requests];
      destruct (_ !! _); reflexivity
    | match goal with
      | |- independent (if ?b then _ else _) => destruct b
      | |- independent (match ?o with Some _ => _ | None => _ end) => destruct o
      | |- independent (match ?o with inl _ => _ | inr _ => _ end) => destruct o
      end ].

Lemma placeBet_checks_independent userId usdAmount currency :
  independent (placeBet_checks userId usdAmount currency).
Proof. unfold placeBet_checks. independence. Qed.

Lemma cashOut_checks_independent userId : independent (cashOut_checks userId).
Proof. unfold cashOut_checks. independence. Qed.

Lemma placeBet_begin_independent userId usdAmount currency price :
  independent (placeBet_begin userId usdAmount currency price).
Proof. unfold placeBet_begin, placeBet_checks. independence. Qed.

Lemma cashOut_begin_independent userId : independent (cashOut_begin userId).
Proof. unfold cashOut_begin, cashOut_checks, cashOut_commit. independence. Qed.

Lemma resume_independent (job : Job) : independent (resume job).
Proof.
  destruct job; unfold resume, placeBet_debit, placeBet_transaction, placeBet_commit,
    cashOut_credit, cashOut_transaction, cashOut_commit, findWallet,
    updateBalance_issue, saveWallet, saveTransaction, usdToCrypto; independence.
Qed.

(** The requests in flight are a field of the world like any other. *)
Lemma set_requests_same (w : World) : set_requests (requests w) w = w.
Proof. destruct w. reflexivity. Qed.


Lemma requests_set_requests (l : list Request) (w : World) :
  requests (set_requests l w) = l.
Proof. destruct w. reflexivity. Qed.

Lemma independent_requests {A} (m : M A) (w : World) :
  independent m -> requests (m w).2 = requests w.
Proof.
  intros Hm. pose proof (Hm (requests w) w) as H.
  rewrite set_requests_same in H.
  apply (f_equal snd) in H. cbn [snd] in H.
  rewrite H at 1. apply requests_set_requests.
Qed.




(** *** A handler is the run of its pieces *)







(** *** Overlapping requests *)

Section Overlapping.

(** C8, where the code misses it.  The tests for a wager or a cashout the
    user already has are made before the first [await] of the handler, and
    the ledger is written after the last one: of two requests of a user
    that overlap, both pass the tests and both are served.  In the betting
    phase of round 2 two wagers of alice are accepted and her wallet is
    debited twice (0.001, 0.0008, 0.0006 BTC); in the running phase two
    cashouts of her one wager are accepted and the wallet is credited
    twice (0.0008, 0.0012, 0.0016 BTC). *)
Theorem overlapping_requests_are_both_served :
  let balance (w : World) :=
    wallets w !! "alice"%string ≫= fun wallet => Wallet.balance wallet "BTC" in
  let wagered := run Scenario.overlapping_wagers Scenario.second_betting in
  let paid := run Scenario.overlapping_cashouts Scenario.second_at_two in
  (within_betting_phase Scenario.second_betting Scenario.overlapping_wagers
   /\ (exists b1 b2,
         requests wagered = [Fulfilled (BetPlaced b1); Fulfilled (BetPlaced b2)]
         /\ bet_userId b1 = "alice"%string /\ bet_userId b2 = "alice"%string)
   /\ JS.strict_eq (balance Scenario.second_betting) (Some 0.001%Q) = true
   /\ JS.strict_eq (balance wagered) (Some 0.0006%Q) = true
   /\ length (transactions wagered)
      = S (S (length (transactions Scenario.second_betting))))
  /\ (within_running_phase Scenario.second_at_two Scenario.overlapping_cashouts
      /\ (exists c1 c2,
            requests paid = [Fulfilled (CashedOut c1); Fulfilled (CashedOut c2)]
            /\ co_userId c1 = "alice"%string /\ co_userId c2 = "alice"%string)
      /\ JS.strict_eq (balance Scenario.second_at_two) (Some 0.0008%Q) = true
      /\ JS.strict_eq (balance paid) (Some 0.0016%Q) = true
      /\ length (transactions paid)
         = S (S (length (transactions Scenario.second_at_two)))).
Proof.
  split.
  - split; [| split; [| split; [| split]]].
    + split.
      * repeat (apply List.Forall_cons; [discriminate |]). apply List.Forall_nil.
      * unfold Scenario.overlapping_wagers. cbn [states].
        repeat (apply List.Forall_cons; [vm_compute; reflexivity |]).
        apply List.Forall_nil.
    + eexists _, _. vm_compute. repeat split.
    + vm_compute. reflexivity.
    + vm_compute. reflexivity.
    + vm_compute. reflexivity.
  - split; [| split; [| split; [| split]]].
    + unfold within_running_phase, Scenario.overlapping_cashouts. cbn [states].
      repeat (apply List.Forall_cons; [vm_compute; split; reflexivity |]).
      apply List.Forall_nil.
    + eexists _, _. vm_compute. repeat split.
    + vm_compute. reflexivity.
    + vm_compute. reflexivity.
    + vm_compute. reflexivity.
Qed.

(** The betting phase of a round can open twice: after a stop and a new
    start in the betting phase of round 2 the ledger is empty again and
    the round counter is the same, so that a second wager of alice for
    round 2 is accepted and debited. *)
Example wager_repeated_after_stop_and_start :
  let w := run Scenario.stop_and_start Scenario.second_betting in
  let result := placeBet "alice" 10 "BTC" 50000 w in
  roundPhase w = betting
  /\ roundNumber w = roundNumber Scenario.second_betting
  /\ activeBets w = ∅
  /\ accepted result <> None
  /\ match wallets result.2 !! "alice"%string with
     | Some wallet => JS.strict_eq (Wallet.balance wallet "BTC") (Some 0.0006%Q) = true
     | None => False
     end.
Proof. vm_compute. repeat split; discriminate. Qed.

(** A wager that passed the tests in the betting phase of round 2 and is
    suspended while the countdown ends enters the ledger in the running
    phase, after the crash point of round 2 was generated. *)
Example wager_completes_after_round_start :
  let begun := step (PlaceBetBegins "alice" 10 "BTC" 50000) Scenario.second_betting in
  let started := run Scenario.second_play begun in
  let done := run [Continue 0; Continue 0; Continue 0; Continue 0] started in
  requests begun = [Suspended (BetAwaitsPrice "alice" 10 "BTC" 50000)]
  /\ roundPhase started = running
  /\ activeBets started !! "alice"%string = None
  /\ roundPhase done = running
  /\ is_Some (activeBets done !! "alice"%string)
  /\ exists b, requests done = [Fulfilled (BetPlaced b)].
Proof.
  vm_compute. repeat split; try (eexists; reflexivity).
Qed.

End Overlapping.

(** ** More on the fairness generator *)

Section FairnessMore.

(** [verifyCrashPoint] accepts only the hash of the seed and round
    number, and only the whole number derived from it as crash point. *)
Theorem verify_pins_hash_and_crash_point
    (seed : string) (roundNumber : N) (hash : string) (crashPoint : JS.number Q)
    (maxCrashValue : Z) :
  ProvablyFair.verifyCrashPoint seed roundNumber hash crashPoint maxCrashValue = true ->
  hash = ProvablyFair.generateHash seed roundNumber
  /\ maxCrashValue <> 0
  /\ exists (d : Z) (c : Q),
       JS.parseInt16 (JS.slice0 8 hash) = Some d
       /\ 0 <= d < 2 ^ 32
       /\ crashPoint = Some c
       /\ (c == inject_Z (1 + Z.rem d maxCrashValue))%Q.
Proof.
  unfold ProvablyFair.verifyCrashPoint. intros H.
  destruct (String.eqb_spec (ProvablyFair.generateHash seed roundNumber) hash)
    as [Hh | Hh]; [| discriminate].
  cbn [negb] in H. subst hash. split; [reflexivity |].
  destruct (generateHash_fragment seed roundNumber) as (d & Hd & Hrange).
  rewrite calculateCrashPoint_eq, Hd in H.
  destruct (Z.eqb_spec maxCrashValue 0) as [Hm | Hm]; [discriminate |].
  split; [exact Hm |].
  destruct crashPoint as [c |]; [| discriminate].
  exists d, c. repeat split; try assumption; try lia.
  cbn [JS.strict_eq] in H. apply Qeq_bool_eq in H. symmetry. exact H.
Qed.

Lemma verify_pins_hash_and_crash_point_witness :
  let hash := ProvablyFair.generateHash "deadbeef" 1 in
  hash = ProvablyFair.generateHash "deadbeef" 1
  /\ 100 <> 0
  /\ exists (d : Z) (c : Q),
       JS.parseInt16 (JS.slice0 8 hash) = Some d
       /\ 0 <= d < 2 ^ 32
       /\ Some (inject_Z 89) = Some c
       /\ (c == inject_Z (1 + Z.rem d 100))%Q.
Proof.
  apply (verify_pins_hash_and_crash_point "deadbeef" 1
           (ProvablyFair.generateHash "deadbeef" 1) (Some (inject_Z 89)) 100).
  vm_compute. reflexivity.
Defined.

(** A negative [maxCrashValue] (the configuration accepts one) acts as
    its absolute value: for every non-zero bound the crash point of a
    SHA-256 hash is the whole number [1 + (d mod |maxCrashValue|)], between
    1 and [|maxCrashValue|]. *)
Theorem crash_point_for_any_nonzero_bound
    (seed : string) (roundNumber : N) (maxCrashValue : Z) :
  maxCrashValue <> 0 ->
  exists d : Z,
    JS.parseInt16 (JS.slice0 8 (ProvablyFair.generateHash seed roundNumber)) = Some d
    /\ ProvablyFair.calculateCrashPoint
         (ProvablyFair.generateHash seed roundNumber) maxCrashValue
       = Some (inject_Z (1 + d mod Z.abs maxCrashValue))
    /\ 1 <= 1 + d mod Z.abs maxCrashValue <= Z.abs maxCrashValue
    /\ ProvablyFair.calculateCrashPoint
         (ProvablyFair.generateHash seed roundNumber) (- maxCrashValue)
       = ProvablyFair.calculateCrashPoint
           (ProvablyFair.generateHash seed roundNumber) maxCrashValue.
Proof.
  intros Hm.
  destruct (generateHash_fragment seed roundNumber) as (d & Hd & Hrange).
  assert (Hrem : forall m, m <> 0 -> Z.rem d m = d mod Z.abs m).
  { intros m Hm'. rewrite <- (Z.rem_abs_r d m) by exact Hm'.
    apply Z.rem_mod_nonneg; lia. }
  exists d. split; [exact Hd |].
  rewrite !calculateCrashPoint_eq, Hd.
  destruct (Z.eqb_spec maxCrashValue 0) as [| _]; [contradiction |].
  destruct (Z.eqb_spec (- maxCrashValue) 0) as [| _]; [lia |].
  rewrite (Hrem maxCrashValue Hm), (Hrem (- maxCrashValue)) by lia.
  rewrite Z.abs_opp.
  pose proof (Z.mod_pos_bound d (Z.abs maxCrashValue)).
  repeat split; try reflexivity; lia.
Qed.

Lemma crash_point_for_any_nonzero_bound_witness :
  exists d : Z,
    JS.parseInt16 (JS.slice0 8 (ProvablyFair.generateHash "deadbeef" 1)) = Some d
    /\ ProvablyFair.calculateCrashPoint (ProvablyFair.generateHash "deadbeef" 1) (-100)
       = Some (inject_Z (1 + d mod Z.abs (-100)))
    /\ 1 <= 1 + d mod Z.abs (-100) <= Z.abs (-100)
    /\ ProvablyFair.calculateCrashPoint (ProvablyFair.generateHash "deadbeef" 1) (- -100)
       = ProvablyFair.calculateCrashPoint (ProvablyFair.generateHash "deadbeef" 1) (-100).
Proof. apply (crash_point_for_any_nonzero_bound "deadbeef" 1 (-100)). lia. Defined.

Lemma hex_char_lower (v : Z) :
  0 <= v < 16 ->
  In (Sha256.hex_char v) (String.list_ascii_of_string "0123456789abcdef").
Proof.
  intros Hv.
  assert (Hcases : v = 0 \/ v = 1 \/ v = 2 \/ v = 3 \/ v = 4 \/ v = 5 \/ v = 6 \/ v = 7
                   \/ v = 8 \/ v = 9 \/ v = 10 \/ v = 11 \/ v = 12 \/ v = 13
                   \/ v = 14 \/ v = 15) by lia.
  repeat (destruct Hcases as [-> | Hcases]; [vm_compute; tauto |]).
  subst v. vm_compute. tauto.
Qed.

Lemma hex_word_format (n : nat) (w : Z) :
  String.length (Sha256.hex_word n w) = n
  /\ List.Forall (fun c => In c (String.list_ascii_of_string "0123456789abcdef"))
       (String.list_ascii_of_string (Sha256.hex_word n w)).
Proof.
  induction n as [| n [IHl IHf]]; cbn [Sha256.hex_word String.length String.list_ascii_of_string].
  - split; [reflexivity | constructor].
  - split; [f_equal; exact IHl |].
    constructor; [apply hex_char_lower, nibble_range | exact IHf].
Qed.

Lemma string_app_format (P : ascii -> Prop) (s t : string) (n m : nat) :
  String.length s = n /\ List.Forall P (String.list_ascii_of_string s) ->
  String.length t = m /\ List.Forall P (String.list_ascii_of_string t) ->
  String.length (s +:+ t) = (n + m)%nat
  /\ List.Forall P (String.list_ascii_of_string (s +:+ t)).
Proof.
  intros [Hs Fs] [Ht Ft]. subst n m.
  induction s as [| c s IH]; [cbn; auto |].
  change (String c s +:+ t) with (String c (s +:+ t)).
  cbn [String.length String.list_ascii_of_string] in *.
  inversion Fs as [| ? ? Hc Hs]; subst. destruct (IH Hs) as [IHl IHf].
  split; [cbn; f_equal; exact IHl | constructor; assumption].
Qed.

(** The commitment hash is always 64 lower-case hexadecimal digits,
    whatever the seed and the round number. *)
Theorem generateHash_is_64_hex_digits (seed : string) (roundNumber : N) :
  String.length (ProvablyFair.generateHash seed roundNumber) = 64%nat
  /\ List.Forall (fun c => In c (String.list_ascii_of_string "0123456789abcdef"))
       (String.list_ascii_of_string (ProvablyFair.generateHash seed roundNumber)).
Proof.
  unfold ProvablyFair.generateHash, Sha256.digest_hex, Sha256.hex_state.
  change 64%nat with (8 + (8 + (8 + (8 + (8 + (8 + (8 + 8)))))))%nat.
  repeat (apply string_app_format; [apply hex_word_format |]).
  apply hex_word_format.
Qed.

End FairnessMore.

(** ** Invariants of the round engine *)

Section EngineInvariants.

Import Invariants.

(** Induction over the worlds the server can be in. *)
Lemma reachable_ind (P : World -> Prop) :
  (forall env store connected now latest,
      P (startGameLoop latest (constructor env store connected now))) ->
  (forall e w, P w -> P (step e w)) ->
  forall w, reachable w -> P w.
Proof.
  intros Hinit Hstep w (env & store & connected & now & latest & evs & ->).
  generalize (Hinit env store connected now latest).
  generalize (startGameLoop latest (constructor env store connected now)).
  induction evs as [| e evs IH]; intros w0 Hw0; [exact Hw0 |].
  cbn [run foldl]. fold (run evs (step e w0)). apply IH, Hstep, Hw0.
Qed.

Lemma step_maxCrashValue (e : Event) (w : World) :
  maxCrashValue (step e w) = maxCrashValue w.
Proof.
  pose proof (request_control e w) as Hc.
  destruct e; cbn [step] in *;
    try (apply control_fields in Hc; apply Hc);
    destruct w; unfold_loop; simpl_world; split_tests; reflexivity.
Qed.

Lemma or_default_nonzero (x : JS.number Z) (d : Z) : d <> 0 -> JS.or_default x d <> 0.
Proof.
  intros Hd. unfold JS.or_default. destruct x as [v |]; [| exact Hd].
  destruct (Z.eqb_spec v 0); assumption.
Qed.

Lemma generated_verifies (seed : string) (roundNumber : N) (m : Z) :
  m <> 0 ->
  ProvablyFair.verifyCrashPoint seed roundNumber
    (ProvablyFair.generateHash seed roundNumber)
    (ProvablyFair.calculateCrashPoint (ProvablyFair.generateHash seed roundNumber) m) m
  = true.
Proof.
  intros Hm. unfold ProvablyFair.verifyCrashPoint.
  rewrite String.eqb_refl. cbn [negb].
  destruct (generateHash_fragment seed roundNumber) as (d & Hd & _).
  rewrite calculateCrashPoint_eq, Hd.
  destruct (Z.eqb_spec m 0); [contradiction |].
  cbn [JS.strict_eq]. apply Qeq_bool_refl.
Qed.

Lemma reachable_record_generated (w : World) :
  reachable w -> maxCrashValue w <> 0 /\ record_generated w.
Proof.
  revert w. apply reachable_ind.
  - intros env store connected now latest. split.
    + unfold startGameLoop, scheduleNextRound, constructor. simpl_world.
      apply or_default_nonzero. discriminate.
    + unfold record_generated, startGameLoop, scheduleNextRound, constructor.
      simpl_world. exact I.
  - intros e w [Hm Hrec]. split; [rewrite step_maxCrashValue; exact Hm |].
    unfold record_generated. rewrite step_maxCrashValue.
    destruct (step_fairness e w) as [Hf | (seed & saveOk & -> & Hs)].
    + rewrite Hf. exact Hrec.
    + rewrite Hs.
      destruct (startRound_generates seed saveOk (set_bettingCountdownTimer None w))
        as (_ & Hf & _).
      rewrite Hf.
      replace (maxCrashValue (set_bettingCountdownTimer None w)) with (maxCrashValue w)
        by (destruct w; reflexivity).
      split; reflexivity.
Qed.

(** In every world the server can be in, whatever the configuration and
    however often the game loop was started again, the current round
    record passes [verifyCrashPoint] with the configured bound, and its
    crash point is a whole number, at least 1. *)
Theorem every_round_record_verifies (w : World) (r : Round) :
  reachable w ->
  currentRound w = Some r ->
  maxCrashValue w <> 0
  /\ ProvablyFair.verifyCrashPoint (seed r) (r_roundNumber r) (hash r) (crashPoint r)
       (maxCrashValue w) = true
  /\ exists k : Z, 1 <= k /\ crashPoint r = Some (inject_Z k).
Proof.
  intros Hreach Hr.
  destruct (reachable_record_generated w Hreach) as [Hm Hrec].
  unfold record_generated, fairness in Hrec. rewrite Hr in Hrec.
  cbn [fmap option_fmap option_map] in Hrec. destruct Hrec as [Hh Hcp].
  split; [exact Hm |]. rewrite Hcp, Hh. split.
  - apply generated_verifies. exact Hm.
  - destruct (generateHash_fragment (seed r) (r_roundNumber r)) as (d & Hd & Hrange).
    rewrite calculateCrashPoint_eq, Hd.
    destruct (Z.eqb_spec (maxCrashValue w) 0); [contradiction |].
    exists (1 + Z.rem d (maxCrashValue w)). split; [| reflexivity].
    pose proof (Z.rem_nonneg d (maxCrashValue w)). lia.
Qed.

Lemma every_round_record_verifies_witness :
  exists r,
    currentRound Scenario.second_at_two = Some r
    /\ ProvablyFair.verifyCrashPoint (seed r) (r_roundNumber r) (hash r) (crashPoint r)
         (maxCrashValue Scenario.second_at_two) = true.
Proof.
  destruct (currentRound Scenario.second_at_two) as [r |] eqn:Er;
    [| vm_compute in Er; discriminate].
  exists r. split; [reflexivity |].
  refine (proj1 (proj2 (every_round_record_verifies Scenario.second_at_two r _ Er))).
  exists Config.defaults,
    (<["alice"%string := Scenario.funded]> (<["bob"%string := Scenario.funded]> ∅)),
    true, 0, None, Scenario.history.
  vm_compute. reflexivity.
Defined.

End EngineInvariants.

(** Case analysis on the tests of a callback, outermost variables first. *)
Ltac split_vars :=
  repeat (match goal with
          | |- context [match ?x with O => _ | S _ => _ end] => is_var x; destruct x
          | |- context [match ?x with waiting => _ | _ => _ end] => is_var x; destruct x
          | |- context [match ?x with Some _ => _ | None => _ end] => is_var x; destruct x
          | |- context [if ?b then _ else _] => destruct b
          end; simpl_world).

Section ClockInvariant.

Import Invariants.

Lemma tick_at_least_one (s c : Z) :
  s <= c ->
  (1 <= Config.initialMultiplier + inject_Z (c - s) * Config.growthFactor)%Q.
Proof.
  intros H. unfold Config.initialMultiplier.
  rewrite <- (Qplus_0_r 1) at 1. apply Qplus_le_r.
  apply Qmult_le_0_compat; [| discriminate].
  change 0%Q with (inject_Z 0). rewrite <- Zle_Qle. lia.
Qed.

Lemma step_clock_sound (e : Event) (w : World) :
  clock_sound w -> clock_sound (step e w).
Proof.
  intros (Hg & Hm & Ht). unfold clock_sound.
  pose proof (request_control e w) as Hc.
  destruct e; cbn [step] in *;
    try (apply control_fields in Hc;
         destruct Hc as (_ & _ & _ & Ft & _ & _ & _ & Fc & Fm & Fg & _);
         rewrite Ft, Fc, Fm, Fg; auto; fail);
    clear Hc.
  all: try (pose proof (N2Z.is_nonneg ms) as Hms; set (d := Z.of_N ms) in * ).
  all: destruct w; simpl_world; subst;
    destruct multiplierUpdateTimer0 as [t |]; simpl_world;
    unfold_loop; simpl_world; split_vars.
  all: repeat split; try assumption; try reflexivity; try lia;
    try (apply tick_at_least_one; assumption);
    try (unfold Config.initialMultiplier; apply Qle_refl).
Qed.

Lemma reachable_clock_sound (w : World) : reachable w -> clock_sound w.
Proof.
  revert w. apply reachable_ind; [| apply step_clock_sound].
  intros env store connected now latest.
  unfold clock_sound, startGameLoop, scheduleNextRound, constructor. simpl_world.
  repeat split. unfold Config.initialMultiplier. apply Qle_refl.
Qed.

End ClockInvariant.

(** ** The ledger and the round counter *)

Section LedgerInvariant.

Import Invariants.

Lemma bets_sound_insert (m : gmap string Bet) (userId : string) (b0 : Bet) :
  bets_sound m ->
  bet_userId b0 = userId -> userId <> ""%string -> (0 < bet_usdAmount b0)%Q ->
  bets_sound (<[userId := b0]> m).
Proof.
  intros Hm H1 H2 H3 u b. destruct (decide (userId = u)) as [-> | Hn].
  - rewrite lookup_insert_eq. intros [= <-]. auto.
  - rewrite lookup_insert_ne by exact Hn. apply Hm.
Qed.

Lemma checks_named userId usdAmount currency :
  negb (JS.truthy_string userId) || Qle_bool usdAmount 0
  || negb (JS.truthy_string currency) = false ->
  userId <> ""%string /\ (0 < usdAmount)%Q.
Proof.
  intros H. apply orb_false_iff in H as [H _]. apply orb_false_iff in H as [Hu Ha].
  split.
  - intros ->. discriminate.
  - apply Qnot_le_lt. intros Hle. apply Qle_bool_iff in Hle. congruence.
Qed.

Ltac sound_goal :=
  cbn [fst snd outcome request_sound job_sound activeBets];
  repeat match goal with
         | H : _ /\ _ |- _ => destruct H
         | H : _ || _ || _ = false |- _ => apply checks_named in H
         end;
  repeat match goal with
         | |- _ /\ _ => split
         end;
  first [ assumption | exact I
        | apply bets_sound_insert; [assumption | reflexivity | assumption | assumption] ].

Lemma placeBet_ledger_sound userId usdAmount currency price (w : World) :
  bets_sound (activeBets w) ->
  bets_sound (activeBets (placeBet userId usdAmount currency price w).2).
Proof. intros H. destruct w. cbn [activeBets] in H. exec; sound_goal. Qed.

Lemma cashOut_ledger_sound userId (w : World) :
  bets_sound (activeBets w) -> bets_sound (activeBets (cashOut userId w).2).
Proof. intros H. destruct w. cbn [activeBets] in H. exec; sound_goal. Qed.

Lemma placeBet_begin_ledger_sound userId usdAmount currency price (w : World) :
  bets_sound (activeBets w) ->
  bets_sound (activeBets (placeBet_begin userId usdAmount currency price w).2)
  /\ request_sound (outcome (placeBet_begin userId usdAmount currency price w).1).
Proof. intros H. destruct w. cbn [activeBets] in H. exec; sound_goal. Qed.

Lemma cashOut_begin_ledger_sound userId (w : World) :
  bets_sound (activeBets w) ->
  bets_sound (activeBets (cashOut_begin userId w).2)
  /\ request_sound (outcome (cashOut_begin userId w).1).
Proof. intros H. destruct w. cbn [activeBets] in H. exec; sound_goal. Qed.

Lemma resume_ledger_sound (job : Job) (w : World) :
  job_sound job ->
  bets_sound (activeBets w) ->
  bets_sound (activeBets (resume job w).2) /\ request_sound (outcome (resume job w).1).
Proof.
  intros Hjob H. destruct w. cbn [activeBets] in H.
  destruct job; cbn [job_sound] in Hjob; unfold resume; exec; sound_goal.
Qed.


Lemma placeBet_independent userId usdAmount currency price :
  independent (placeBet userId usdAmount currency price).
Proof.
  unfold placeBet, placeBet_checks, placeBet_debit, placeBet_transaction,
    placeBet_commit, findWallet, updateBalance_issue, saveWallet, saveTransaction,
    usdToCrypto; independence.
Qed.

Lemma cashOut_independent userId : independent (cashOut userId).
Proof.
  unfold cashOut, cashOut_checks, cashOut_credit, cashOut_transaction,
    cashOut_commit, findWallet, updateBalance_issue, saveWallet, saveTransaction;
    independence.
Qed.

Lemma set_requests_activeBets (l : list Request) (w : World) :
  activeBets (set_requests l w) = activeBets w.
Proof. destruct w. reflexivity. Qed.

Lemma step_ledger_sound (e : Event) (w : World) :
  ledger_sound w -> ledger_sound (step e w).
Proof.
  intros [Hbets Hreq]. unfold ledger_sound. destruct e; cbn [step].
  5: { split; [apply placeBet_ledger_sound; exact Hbets |].
       rewrite independent_requests by apply placeBet_independent. exact Hreq. }
  5: { split; [apply cashOut_ledger_sound; exact Hbets |].
       rewrite independent_requests by apply cashOut_independent. exact Hreq. }
  12: { unfold arrive. rewrite set_requests_activeBets, requests_set_requests.
        destruct (placeBet_begin_ledger_sound userId usdAmount currency price w Hbets)
          as [Hb Hr].
        split; [exact Hb |]. apply Forall_app. split; [| repeat constructor; exact Hr].
        rewrite independent_requests by apply placeBet_begin_independent. exact Hreq. }
  12: { unfold arrive. rewrite set_requests_activeBets, requests_set_requests.
        destruct (cashOut_begin_ledger_sound userId w Hbets) as [Hb Hr].
        split; [exact Hb |]. apply Forall_app. split; [| repeat constructor; exact Hr].
        rewrite independent_requests by apply cashOut_begin_independent. exact Hreq. }
  12: { unfold continue.
        destruct (requests w !! request) as [[job | e | reply] |] eqn:E;
          try (split; assumption).
        pose proof (proj1 (Forall_lookup _ _) Hreq _ _ E) as Hjob.
        destruct (resume_ledger_sound job w Hjob Hbets) as [Hb Hr].
        rewrite set_requests_activeBets, requests_set_requests.
        split; [exact Hb |]. apply Forall_insert; [| exact Hr].
        rewrite independent_requests by apply resume_independent. exact Hreq. }
  all: destruct w; simpl_world; unfold_loop; simpl_world; split_vars.
  all: first [ split; assumption
             | split; [ intros u b Hb; rewrite lookup_empty in Hb; discriminate
                      | assumption ] ].
Qed.

Lemma reachable_ledger_sound (w : World) : reachable w -> ledger_sound w.
Proof.
  revert w. apply reachable_ind; [| apply step_ledger_sound].
  intros env store connected now latest.
  unfold ledger_sound, startGameLoop, scheduleNextRound, constructor. simpl_world.
  split; [intros u b Hb; rewrite lookup_empty in Hb; discriminate | constructor].
Qed.



Lemma cashOut_payout userId (w : World) (c : Cashout) :
  accepted (cashOut userId w) = Some c ->
  exists b,
    activeBets w !! userId = Some b
    /\ co_userId c = userId
    /\ co_currency c = bet_currency b
    /\ co_multiplier c = currentMultiplier w
    /\ co_usdAmount c = (bet_usdAmount b * currentMultiplier w)%Q
    /\ co_cryptoAmount c = (bet_cryptoAmount b * currentMultiplier w)%Q.
Proof.
  unfold accepted. destruct w. exec; cbn; intros H; try discriminate;
    injection H as <-; eexists; repeat split.
Qed.

(** In every world the server can be in, the multiplier is at least 1.00,
    so an accepted cashout pays the wager times a multiplier of at least
    1.00, in the wager's currency: never less than the stake. *)
Theorem cashout_pays_at_least_the_stake (w : World) (userId : string) (c : Cashout) :
  reachable w ->
  accepted (cashOut userId w) = Some c ->
  (1 <= currentMultiplier w)%Q
  /\ exists b,
       activeBets w !! userId = Some b
       /\ co_currency c = bet_currency b
       /\ co_multiplier c = currentMultiplier w
       /\ co_usdAmount c = (bet_usdAmount b * co_multiplier c)%Q
       /\ co_cryptoAmount c = (bet_cryptoAmount b * co_multiplier c)%Q
       /\ (bet_usdAmount b <= co_usdAmount c)%Q.
Proof.
  intros Hreach Hacc.
  destruct (reachable_clock_sound w Hreach) as (_ & Hone & _).
  destruct (reachable_ledger_sound w Hreach) as [Hbets _].
  destruct (cashOut_payout userId w c Hacc) as (b & Hb & _ & Hcur & Hm & Husd & Hcrypto).
  split; [exact Hone |]. exists b.
  destruct (Hbets _ _ Hb) as (_ & _ & Hpos).
  rewrite Hm. repeat split; try assumption.
  rewrite Husd. rewrite <- (Qmult_1_r (bet_usdAmount b)) at 1.
  apply Qmult_le_l; assumption.
Qed.

Lemma cashout_pays_at_least_the_stake_witness :
  exists c b,
    accepted (cashOut "alice" Scenario.second_at_two) = Some c
    /\ activeBets Scenario.second_at_two !! "alice"%string = Some b
    /\ (bet_usdAmount b <= co_usdAmount c)%Q.
Proof.
  destruct (accepted (cashOut "alice" Scenario.second_at_two)) as [c |] eqn:Ec;
    [| vm_compute in Ec; discriminate].
  destruct (cashout_pays_at_least_the_stake Scenario.second_at_two "alice" c)
    as (_ & b & Hb & _ & _ & _ & _ & Hle).
  - exists Config.defaults,
      (<["alice"%string := Scenario.funded]> (<["bob"%string := Scenario.funded]> ∅)),
      true, 0, None, Scenario.history.
    vm_compute. reflexivity.
  - exact Ec.
  - exists c, b. repeat split; assumption.
Defined.

(** As long as [startGameLoop] is not called again, round numbers never
    decrease and have no gaps: a step keeps the round number or, when it
    starts a round, adds one. *)
Theorem round_numbers_are_gapless (evs : list Event) (w : World) :
  not_restarted evs ->
  (roundNumber w <= roundNumber (run evs w))%N
  /\ (roundNumber (run evs w) <= roundNumber w + N.of_nat (length evs))%N.
Proof.
  assert (Hstep : forall e w0, (forall latest, e <> StartGameLoop latest) ->
                    roundNumber (step e w0) = roundNumber w0
                    \/ roundNumber (step e w0) = (roundNumber w0 + 1)%N).
  { intros e w0 Hnot. pose proof (request_control e w0) as Hc.
    destruct e; cbn [step] in *;
      try (left; apply control_fields in Hc; apply Hc);
      try (exfalso; exact (Hnot _ eq_refl));
      destruct w0; unfold_loop; simpl_world; split_vars; auto. }
  unfold not_restarted. revert w. induction evs as [| e evs IH]; intros w Hall.
  - cbn. lia.
  - apply List.Forall_cons_iff in Hall. destruct Hall as [He Hall].
    cbn [run foldl length]. fold (run evs (step e w)).
    destruct (IH (step e w) Hall) as [Hlo Hhi]. destruct (Hstep e w He) as [H | H]; lia.
Qed.

Lemma round_numbers_are_gapless_witness :
  (roundNumber Scenario.start <= roundNumber (run Scenario.history Scenario.start))%N
  /\ (roundNumber (run Scenario.history Scenario.start)
      <= roundNumber Scenario.start + N.of_nat (length Scenario.history))%N.
Proof.
  apply (round_numbers_are_gapless Scenario.history Scenario.start).
  repeat (apply List.Forall_cons; [intros latest; discriminate |]).
  apply List.Forall_nil.
Defined.

End LedgerInvariant.

(** ** The round loop and the operator commands *)

Section RoundLoop.

Lemma placeBet_outside_betting userId usdAmount currency price (w : World) :
  roundPhase w <> betting ->
  exists e, placeBet userId usdAmount currency price w = (inl e, w).
Proof.
  intros Hphase.
  assert (Hgate : bool_decide (roundPhase w = betting) = false)
    by (apply bool_decide_eq_false; exact Hphase).
  assert (Hchecks : exists e, placeBet_checks userId usdAmount currency w = (inl e, w)).
  { destruct w; cbn in Hgate. unfold placeBet_checks.
    rewrite bind_when_throw.
    destruct (_ || _ || _); [eauto |].
    rewrite bind_when_throw.
    destruct (negb (bool_decide _)); [eauto |].
    rewrite bind_gets. cbn [roundPhase].
    rewrite bind_when_throw, Hgate. cbn [negb]. eauto. }
  destruct Hchecks as [e He]. exists e. unfold placeBet. apply bind_inl. exact He.
Qed.

Lemma cashOut_not_running userId (w : World) :
  isGameRunning w = false ->
  exists e, cashOut userId w = (inl e, w).
Proof.
  intros Hrun.
  assert (Hchecks : exists e, cashOut_checks userId w = (inl e, w)).
  { destruct w; cbn in Hrun; subst. unfold cashOut_checks.
    rewrite bind_when_throw.
    destruct (negb (JS.truthy_string userId)); [eauto |].
    rewrite bind_gets. cbn [isGameRunning].
    rewrite bind_when_throw. cbn [negb]. eauto. }
  destruct Hchecks as [e He]. exists e. unfold cashOut. apply bind_inl. exact He.
Qed.

(** [stopGame] halts the engine from any state: the three timers it
    owns are disarmed, their callbacks and pause / resume do nothing, every
    wager and cashout request that begins now throws and changes nothing;
    only [startNewGame] (and a new call of [startGameLoop]) leaves the
    stopped state, for the waiting phase. *)
Theorem stop_halts_the_engine (w : World) :
  let s := stopGame w in
  (roundPhase s = stopped /\ isGameRunning s = false
   /\ multiplierUpdateTimer s = None /\ roundTimer s = false
   /\ bettingCountdownTimer s = None)
  /\ (roundTimerFires s = s /\ multiplierTick s = s
      /\ (forall seed saveOk, bettingCountdownTick seed saveOk s = s)
      /\ pauseGame s = s /\ resumeGame s = s /\ stopGame s = s)
  /\ (forall userId usdAmount currency price,
        exists e, placeBet userId usdAmount currency price s = (inl e, s))
  /\ (forall userId, exists e, cashOut userId s = (inl e, s))
  /\ (roundPhase (startNewGame s) = waiting /\ roundTimer (startNewGame s) = true).
Proof.
  intros s.
  assert (Hs : roundPhase s = stopped /\ isGameRunning s = false
               /\ multiplierUpdateTimer s = None /\ roundTimer s = false
               /\ bettingCountdownTimer s = None)
    by (subst s; destruct w; repeat split).
  destruct Hs as (Hp & Hr & Hm & Ht & Hb).
  split; [repeat split; assumption |]. split; [| split; [| split]].
  - subst s. destruct w. unfold_loop. simpl_world. repeat split.
  - intros. apply placeBet_outside_betting. rewrite Hp. discriminate.
  - intros. apply cashOut_not_running. exact Hr.
  - subst s. destruct w. unfold_loop. simpl_world. split; reflexivity.
Qed.

(** The timeout that [crashGame] sets is not one of the timers that
    [stopGame] clears: a stop issued between a crash and that timeout does
    not hold, the timeout schedules the next round and the round timer
    then opens betting. *)
Theorem stop_after_crash_is_undone (w : World) :
  let s := stopGame (crashGame w) in
  roundPhase s = stopped
  /\ crashTimeouts s = S (crashTimeouts w)
  /\ roundPhase (crashTimeoutFires s) = waiting
  /\ roundTimer (crashTimeoutFires s) = true
  /\ roundPhase (roundTimerFires (crashTimeoutFires s)) = betting.
Proof.
  destruct w. unfold_loop. simpl_world. destruct currentRound0; repeat split.
Qed.

Lemma countdown_tick_continues (s : string) (ok : bool) (w : World) (n : Z) :
  bettingCountdownTimer w = Some n -> 1 < n ->
  bettingCountdownTick s ok w = set_bettingCountdownTimer (Some (n - 1)) w.
Proof.
  intros H Hn. unfold bettingCountdownTick. rewrite H.
  cbn zeta. destruct (Z.leb_spec (n - 1) 0); [lia | reflexivity].
Qed.

Lemma countdown_tick_starts (s : string) (ok : bool) (w : World) :
  bettingCountdownTimer w = Some 1 ->
  bettingCountdownTick s ok w = startRound s ok (set_bettingCountdownTimer None w).
Proof.
  intros H. unfold bettingCountdownTick. rewrite H. reflexivity.
Qed.

(** A betting phase lasts three ticks of its countdown: it opens with
    an empty ledger, the first two ticks only count down (3, 2, 1) and keep
    the phase and the round number, and the third tick is [startRound],
    which takes the next round number and leaves the betting phase. *)
Theorem betting_phase_lasts_three_ticks
    (w : World) (s1 s2 s3 : string) (ok1 ok2 ok3 : bool) :
  let b0 := startBettingPhase w in
  let b1 := bettingCountdownTick s1 ok1 b0 in
  let b2 := bettingCountdownTick s2 ok2 b1 in
  let b3 := bettingCountdownTick s3 ok3 b2 in
  (roundPhase b0 = betting /\ activeBets b0 = ∅ /\ cashedOut b0 = ∅
   /\ bettingCountdownTimer b0 = Some 3)
  /\ (roundPhase b1 = betting /\ bettingCountdownTimer b1 = Some 2
      /\ roundNumber b1 = roundNumber w)
  /\ (roundPhase b2 = betting /\ bettingCountdownTimer b2 = Some 1
      /\ roundNumber b2 = roundNumber w)
  /\ (b3 = startRound s3 ok3 (set_bettingCountdownTimer None b2)
      /\ roundNumber b3 = (roundNumber w + 1)%N
      /\ bettingCountdownTimer b3 = None
      /\ roundPhase b3 = (if mongoConnected w && negb ok3 then waiting else running)).
Proof.
  intros b0 b1 b2 b3.
  assert (H0 : roundPhase b0 = betting /\ activeBets b0 = ∅ /\ cashedOut b0 = ∅
               /\ bettingCountdownTimer b0 = Some 3
               /\ roundNumber b0 = roundNumber w
               /\ mongoConnected b0 = mongoConnected w)
    by (destruct w; repeat split).
  clearbody b0. destruct H0 as (P0 & A0 & C0 & T0 & N0 & M0).
  assert (E1 : b1 = set_bettingCountdownTimer (Some 2) b0)
    by (apply (countdown_tick_continues s1 ok1 b0 3 T0); lia).
  clearbody b1.
  assert (E2 : b2 = set_bettingCountdownTimer (Some 1) b0).
  { subst b2. rewrite (countdown_tick_continues s2 ok2 b1 2); [| subst b1 | lia].
    - subst b1. destruct b0; reflexivity.
    - destruct b0; reflexivity. }
  clearbody b2.
  assert (E3 : b3 = startRound s3 ok3 (set_bettingCountdownTimer None b2)).
  { subst b3. apply countdown_tick_starts. subst b2. destruct b0; reflexivity. }
  clearbody b3.
  split; [repeat split; assumption |].
  split; [subst b1; destruct b0; repeat split; assumption |].
  split; [subst b2; destruct b0; repeat split; assumption |].
  split; [exact E3 |].
  rewrite E3, E2, <- N0, <- M0. clear.
  destruct b0. unfold startRound, startMultiplierUpdates, scheduleNextRound.
  simpl_world. destruct mongoConnected0, ok3; simpl_world; repeat split.
Qed.

(** With the configured growth factor a round with the whole crash
    point [k] crashes at the first tick that comes [20000 * (k - 1)]
    milliseconds or more after the interval was armed: such a tick ends the
    round (phase ended, interval disarmed, record completed with its end
    time), an earlier tick only updates the multiplier. *)
Theorem round_crashes_at_its_threshold
    (w : World) (t : MultiplierTimer) (r : Round) (k : Z) :
  multiplierUpdateTimer w = Some t ->
  timer_crashPoint t = Some (inject_Z k) ->
  currentRound w = Some r ->
  growthFactor w = Config.growthFactor ->
  let elapsed := clock w - timer_startTime t in
  let w' := multiplierTick w in
  (20000 * (k - 1) <= elapsed ->
   roundPhase w' = ended /\ isGameRunning w' = false
   /\ multiplierUpdateTimer w' = None
   /\ crashTimeouts w' = S (crashTimeouts w)
   /\ (status <$> currentRound w') = Some completed
   /\ (endTime <$> currentRound w') = Some (Some (clock w))
   /\ fairness w' = fairness w)
  /\ (elapsed < 20000 * (k - 1) ->
      roundPhase w' = roundPhase w /\ isGameRunning w' = isGameRunning w
      /\ multiplierUpdateTimer w' = Some t
      /\ currentRound w' = currentRound w
      /\ (currentMultiplier w' < inject_Z k)%Q).
Proof.
  intros Ht Hcp Hr Hg elapsed w'.
  assert (Hge : JS.ge (Some (Config.initialMultiplier
                             + inject_Z elapsed * Config.growthFactor)%Q)
                      (Some (inject_Z k))
                = if 20000 * (k - 1) <=? elapsed then true else false).
  { cbn [JS.ge]. destruct (Z.leb_spec (20000 * (k - 1)) elapsed) as [H | H].
    - apply Qle_bool_iff. unfold Qle. cbn. lia.
    - destruct (Qle_bool _ _) eqn:E; [| reflexivity].
      apply Qle_bool_iff in E. unfold Qle in E. cbn in E. lia. }
  subst w' elapsed. destruct w. simpl_world. subst.
  unfold multiplierTick. simpl_world. rewrite Hcp, Hge.
  split; intros H.
  - destruct (Z.leb_spec (20000 * (k - 1)) (clock0 - timer_startTime t)); [| lia].
    unfold crashGame. simpl_world. repeat split.
  - destruct (Z.leb_spec (20000 * (k - 1)) (clock0 - timer_startTime t)); [lia |].
    simpl_world. repeat split.
    unfold Qlt. cbn. lia.
Qed.

Lemma round_crashes_at_its_threshold_witness :
  let w := run [Elapse 1740000] Scenario.at_two in
  let w' := multiplierTick w in
  roundPhase w' = ended /\ isGameRunning w' = false
  /\ multiplierUpdateTimer w' = None
  /\ crashTimeouts w' = S (crashTimeouts w)
  /\ (status <$> currentRound w') = Some completed
  /\ (endTime <$> currentRound w') = Some (Some (clock w))
  /\ fairness w' = fairness w.
Proof.
  intros w.
  destruct (currentRound w) as [r |] eqn:Er; [| vm_compute in Er; discriminate].
  refine (proj1 (round_crashes_at_its_threshold w
            {| timer_startTime := 0; timer_crashPoint := Some (inject_Z 89) |}
            r 89 _ _ Er _) _).
  - vm_compute. reflexivity.
  - reflexivity.
  - vm_compute. reflexivity.
  - vm_compute. discriminate.
Defined.

End RoundLoop.

(** ** The round loop keeps going *)

Section LoopInvariant.

Import Invariants.

Lemma crash_point_truthy (seed : string) (roundNumber : N) (m : Z) :
  m <> 0 ->
  exists k : Z,
    ProvablyFair.calculateCrashPoint (ProvablyFair.generateHash seed roundNumber) m
    = Some (inject_Z k)
    /\ 1 <= k
    /\ JS.truthy (Some (inject_Z k)) = true.
Proof.
  intros Hm. destruct (generateHash_fragment seed roundNumber) as (d & Hd & Hrange).
  exists (1 + Z.rem d m). rewrite calculateCrashPoint_eq, Hd.
  destruct (Z.eqb_spec m 0); [contradiction |].
  assert (Hk : 1 <= 1 + Z.rem d m).
  { pose proof (Z.rem_nonneg d m Hm ltac:(lia)). lia. }
  split; [reflexivity |]. split; [exact Hk |].
  cbn [JS.truthy]. apply negb_true_iff.
  destruct (Qeq_bool (inject_Z (1 + Z.rem d m)) 0) eqn:E; [| reflexivity].
  apply Qeq_bool_iff in E. unfold Qeq in E. cbn [Qnum Qden inject_Z] in E. lia.
Qed.

Lemma record_truthy (w : World) (r : Round) :
  maxCrashValue w <> 0 -> record_generated w ->
  currentRound w = Some r -> JS.truthy (crashPoint r) = true.
Proof.
  intros Hm Hrec Hr. unfold record_generated, fairness in Hrec.
  rewrite Hr in Hrec. cbn in Hrec. destruct Hrec as [Hh Hcp].
  destruct (crash_point_truthy (seed r) (r_roundNumber r) (maxCrashValue w) Hm)
    as (k & Hk & _ & Ht).
  rewrite Hcp, Hh, Hk. exact Ht.
Qed.

Lemma fairness_recordCrashPoint (w w' : World) :
  fairness w' = fairness w -> recordCrashPoint w' = recordCrashPoint w.
Proof.
  unfold fairness, recordCrashPoint.
  destruct (currentRound w') as [r' |], (currentRound w) as [r |]; cbn;
    intros H; try discriminate; [| reflexivity].
  f_equal. congruence.
Qed.

Lemma request_loop_sound (w w' : World) :
  control w' = control w -> fairness w' = fairness w ->
  loop_sound w -> loop_sound w'.
Proof.
  intros Hc Hf. apply control_fields in Hc.
  destruct Hc as (Fp & Fr & _ & Ft & Frt & Fb & Fct & _).
  apply fairness_recordCrashPoint in Hf.
  unfold loop_sound. rewrite Fp, Fr, Ft, Frt, Fb, Fct, Hf. exact id.
Qed.

Lemma step_loop_sound (e : Event) (w : World) :
  maxCrashValue w <> 0 -> record_generated w ->
  loop_sound w -> loop_sound (step e w).
Proof.
  intros Hm Hrec H.
  pose proof (fun r => record_truthy w r Hm Hrec) as Htruthy. clear Hm Hrec.
  pose proof (request_control e w) as Hc. pose proof (request_fairness e w) as Hf.
  destruct e; cbn [step] in *;
    try (apply (request_loop_sound w); assumption);
    clear Hc Hf.
  6: { (* resumeGame *)
       destruct w. unfold loop_sound, recordCrashPoint in *. simpl_world.
       unfold resumeGame. simpl_world.
       destruct roundPhase0; simpl_world; try exact H.
       destruct H as [-> [cp Hcp]]. simpl_world.
       destruct currentRound0 as [r |]; [| discriminate].
       rewrite (Htruthy r eq_refl). unfold startMultiplierUpdates. simpl_world.
       split; [reflexivity |]. eexists. split; reflexivity. }
  all: destruct w; unfold loop_sound, recordCrashPoint in *; simpl_world;
    unfold_loop; simpl_world.
  all: clear Htruthy.
  all: split_vars.
  all: try exact H; try exact I; try discriminate; try (eexists; reflexivity);
    try (split; [reflexivity |]; eexists; split; reflexivity);
    try (destruct H as [H1 H2]; first [exact H1 | exact H2]);
    try (destruct H as [_ (t & _ & Ht)]; split; [reflexivity |];
         rewrite Ht; eexists; reflexivity).
Qed.

Lemma reachable_loop_sound (w : World) : reachable w -> loop_sound w.
Proof.
  intros Hreach.
  assert (H : (maxCrashValue w <> 0 /\ record_generated w) /\ loop_sound w);
    [| exact (proj2 H)].
  revert w Hreach. apply reachable_ind.
  - intros env store connected now latest.
    split; [apply reachable_record_generated; do 5 eexists; exists []; reflexivity |].
    unfold loop_sound, startGameLoop, scheduleNextRound, constructor. simpl_world.
    reflexivity.
  - intros e w [[Hm Hrec] H]. split; [| apply step_loop_sound; assumption].
    split; [rewrite step_maxCrashValue; exact Hm |].
    unfold record_generated. rewrite step_maxCrashValue.
    destruct (step_fairness e w) as [Hf | (seed & saveOk & -> & Hs)].
    + rewrite Hf. exact Hrec.
    + rewrite Hs.
      destruct (startRound_generates seed saveOk (set_bettingCountdownTimer None w))
        as (_ & Hf & _).
      rewrite Hf.
      replace (maxCrashValue (set_bettingCountdownTimer None w)) with (maxCrashValue w)
        by (destruct w; reflexivity).
      split; reflexivity.
Qed.





(** In demo mode a cashout is accepted exactly when the round is
    running, the user has a wager in the ledger and has not cashed out yet:
    in a world the server can be in, the other checks of [cashOut] never
    refuse such a request. *)
Theorem demo_cashout_accepted_exactly_when (w : World) (userId : string) :
  reachable w ->
  mongoConnected w = false ->
  (is_Some (accepted (cashOut userId w))
   <-> roundPhase w = running /\ is_Some (activeBets w !! userId)
       /\ userId ∉ cashedOut w).
Proof.
  intros Hreach Hm.
  pose proof (reachable_loop_sound w Hreach) as Hloop. unfold loop_sound in Hloop.
  destruct (reachable_ledger_sound w Hreach) as [Hbets _].
  split.
  - intros [c Hc]. destruct (cashOut_accepted _ _ _ Hc) as (Hp & _ & _ & _).
    split; [exact Hp |]. split; [exact (cashOut_accepted_bet _ _ _ Hc) |].
    intros Hin. revert Hc. unfold accepted. clear -Hin.
    destruct w; cbn [cashedOut] in Hin. exec; cbn; try discriminate;
      match goal with
      | H : bool_decide _ = false |- _ => apply bool_decide_eq_false in H; contradiction
      end.
  - intros (Hp & [b Hb] & Hout).
    rewrite Hp in Hloop. destruct Hloop as (Hgame & _).
    destruct (Hbets _ _ Hb) as (_ & Hne & _).
    assert (Hid : JS.truthy_string userId = true).
    { unfold JS.truthy_string. apply negb_true_iff. apply String.eqb_neq. exact Hne. }
    clear Hreach Hbets. unfold accepted.
    destruct w; cbn [mongoConnected roundPhase isGameRunning activeBets cashedOut] in *.
    subst. exec; cbn; eauto;
      repeat match goal with
             | H : negb _ = true |- _ => apply negb_true_iff in H
             | H : bool_decide _ = false |- _ => apply bool_decide_eq_false in H
             | H : bool_decide _ = true |- _ => apply bool_decide_eq_true in H
             end;
      congruence.
Qed.

Lemma demo_cashout_accepted_exactly_when_witness :
  is_Some (accepted (cashOut "alice" Demo.at_two))
  <-> roundPhase Demo.at_two = running /\ is_Some (activeBets Demo.at_two !! "alice"%string)
      /\ "alice"%string ∉ cashedOut Demo.at_two.
Proof.
  apply (demo_cashout_accepted_exactly_when Demo.at_two "alice").
  - exists Config.defaults, ∅, false, 0, None, Demo.play. vm_compute. reflexivity.
  - vm_compute. reflexivity.
Defined.

End LoopInvariant.

(** ** More on wagers and cashouts *)

Section Requests.

(** In demo mode (the store is not connected) neither request touches a
    wallet or writes a transaction, whether it is accepted or not; an
    accepted wager or cashout carries a demo identifier made of the clock. *)
Theorem demo_mode_leaves_the_store_alone
    (w : World) (userId currency : string) (usdAmount price : Q) :
  mongoConnected w = false ->
  let bet := placeBet userId usdAmount currency price w in
  let out := cashOut userId w in
  (wallets bet.2 = wallets w /\ transactions bet.2 = transactions w
   /\ nextObjectId bet.2 = nextObjectId w
   /\ forall b, accepted bet = Some b -> bet_transactionId b = DemoTx (clock w))
  /\ (wallets out.2 = wallets w /\ transactions out.2 = transactions w
      /\ nextObjectId out.2 = nextObjectId w
      /\ forall c, accepted out = Some c -> co_transactionId c = DemoCashout (clock w)).
Proof.
  intros Hm. destruct w; cbn in Hm; subst. unfold accepted. split.
  - exec; cbn; repeat split; intros b [= <-]; reflexivity.
  - exec; cbn; repeat split; intros c [= <-]; reflexivity.
Qed.

Lemma demo_mode_leaves_the_store_alone_witness :
  let w := Demo.at_two in
  let out := cashOut "alice" w in
  accepted out <> None
  /\ wallets out.2 = wallets w /\ transactions out.2 = transactions w
  /\ nextObjectId out.2 = nextObjectId w
  /\ forall c, accepted out = Some c -> co_transactionId c = DemoCashout (clock w).
Proof.
  split; [vm_compute; discriminate |].
  apply (proj2 (demo_mode_leaves_the_store_alone Demo.at_two "alice" "BTC" 10 50000
                  ltac:(vm_compute; reflexivity))).
Defined.

Lemma placeBet_other_user userId other currency usdAmount price (w : World) :
  other <> userId ->
  let w' := (placeBet userId usdAmount currency price w).2 in
  activeBets w' !! other = activeBets w !! other
  /\ wallets w' !! other = wallets w !! other
  /\ (other ∈ cashedOut w' <-> other ∈ cashedOut w).
Proof.
  intros Hne. assert (Hne' : userId <> other) by congruence.
  destruct w. exec; cbn; repeat split; try tauto;
    rewrite ?lookup_insert_ne by exact Hne'; reflexivity.
Qed.

Lemma cashOut_other_user userId other (w : World) :
  other <> userId ->
  let w' := (cashOut userId w).2 in
  activeBets w' !! other = activeBets w !! other
  /\ wallets w' !! other = wallets w !! other
  /\ (other ∈ cashedOut w' <-> other ∈ cashedOut w).
Proof.
  intros Hne. assert (Hne' : userId <> other) by congruence.
  destruct w. exec; cbn; repeat split; try tauto;
    rewrite ?lookup_insert_ne by exact Hne'; try reflexivity;
    rewrite elem_of_union, elem_of_singleton; intuition congruence.
Qed.

(** A request of one user leaves every other user's wager, cashout mark
    and wallet as they were. *)
Theorem requests_leave_other_users_alone
    (w : World) (userId other currency : string) (usdAmount price : Q) :
  other <> userId ->
  let bet := placeBet userId usdAmount currency price w in
  let out := cashOut userId w in
  (activeBets bet.2 !! other = activeBets w !! other
   /\ wallets bet.2 !! other = wallets w !! other
   /\ (other ∈ cashedOut bet.2 <-> other ∈ cashedOut w))
  /\ (activeBets out.2 !! other = activeBets w !! other
      /\ wallets out.2 !! other = wallets w !! other
      /\ (other ∈ cashedOut out.2 <-> other ∈ cashedOut w)).
Proof.
  intros Hne. split; [apply placeBet_other_user | apply cashOut_other_user]; exact Hne.
Qed.

Lemma requests_leave_other_users_alone_witness :
  let w := Scenario.second_at_two in
  let out := cashOut "alice" w in
  accepted out <> None
  /\ activeBets out.2 !! "bob"%string = activeBets w !! "bob"%string
  /\ wallets out.2 !! "bob"%string = wallets w !! "bob"%string
  /\ ("bob"%string ∈ cashedOut out.2 <-> "bob"%string ∈ cashedOut w).
Proof.
  split; [vm_compute; discriminate |].
  apply (proj2 (requests_leave_other_users_alone Scenario.second_at_two
                  "alice" "bob" "BTC" 10 50000 ltac:(discriminate))).
Defined.

End Requests.

(** ** The wallet document and the store *)

Section WalletUpdates.

Lemma Wallet_updateBalance_spec (wallet : Wallet.t) (currency : string) (amount : Q) :
  match Wallet.updateBalance currency amount wallet with
  | inr wallet' =>
      Wallet.balance wallet' currency
        = JS.add (Wallet.balance wallet currency) (Some amount)
      /\ (forall c, c <> currency -> Wallet.balance wallet' c = Wallet.balance wallet c)
      /\ (forall b', Wallet.balance wallet' currency = Some b' -> (0 <= b')%Q)
  | inl e =>
      e = InsufficientBalance currency
      /\ match Wallet.balance wallet currency with
         | Some b => (b + amount < 0)%Q
         | None => (amount < 0)%Q
         end
  end.
Proof.
  assert (Hsame : forall v, Wallet.balance
            (Wallet.Make (<[currency := v]> (Wallet.balances wallet))) currency = v).
  { intros v. unfold Wallet.balance. cbn [Wallet.balances].
    rewrite lookup_insert_eq. reflexivity. }
  assert (Hother : forall v c, c <> currency ->
            Wallet.balance (Wallet.Make (<[currency := v]> (Wallet.balances wallet))) c
            = Wallet.balance wallet c).
  { intros v c Hc. unfold Wallet.balance. cbn [Wallet.balances].
    rewrite lookup_insert_ne by congruence. reflexivity. }
  unfold Wallet.updateBalance.
  destruct (Wallet.balance wallet currency) as [b |] eqn:Eb; cbn [JS.truthy JS.add JS.lt].
  - destruct (Qle_bool 0 (b + amount)) eqn:Hsum; cbn [negb].
    + assert (Hfirst : negb (negb (Qeq_bool b 0)) && negb (Qle_bool 0 amount) = false).
      { destruct (Qeq_bool b 0) eqn:Hz; [| reflexivity]. cbn.
        apply Qeq_bool_iff in Hz. apply Qle_bool_iff in Hsum.
        apply negb_false_iff. apply Qle_bool_iff. rewrite Hz, Qplus_0_l in Hsum.
        exact Hsum. }
      rewrite Hfirst, Hsame. split; [reflexivity |]. split; [apply Hother |].
      intros b' [= <-]. apply Qle_bool_iff. exact Hsum.
    + assert (Hneg : (b + amount < 0)%Q).
      { apply Qnot_le_lt. intros H. apply Qle_bool_iff in H. congruence. }
      destruct (negb (negb (Qeq_bool b 0)) && negb (Qle_bool 0 amount)); split;
        first [reflexivity | exact Hneg].
  - cbn [negb andb]. destruct (Qle_bool 0 amount) eqn:Ha; cbn [negb].
    + rewrite Hsame. split; [reflexivity |]. split; [apply Hother |]. intros b' [=].
    + split; [reflexivity |]. apply Qnot_le_lt. intros H.
      apply Qle_bool_iff in H. congruence.
Qed.

(** [updateBalance] of a wallet document that holds a number for the
    currency succeeds exactly when the sum is not negative: it then stores
    the sum under that currency and touches no other currency; otherwise it
    fails with 'Insufficient balance'.  A stored balance never goes
    negative. *)
Theorem wallet_update_never_goes_negative
    (wallet : Wallet.t) (currency : string) (amount b : Q) :
  Wallet.balance wallet currency = Some b ->
  ((0 <= b + amount)%Q ->
   exists wallet',
     Wallet.updateBalance currency amount wallet = inr wallet'
     /\ Wallet.balance wallet' currency = Some (b + amount)%Q
     /\ forall c, c <> currency -> Wallet.balance wallet' c = Wallet.balance wallet c)
  /\ ((b + amount < 0)%Q ->
      Wallet.updateBalance currency amount wallet = inl (InsufficientBalance currency)).
Proof.
  intros Hb. pose proof (Wallet_updateBalance_spec wallet currency amount) as H.
  rewrite Hb in H. cbn [JS.add] in H.
  destruct (Wallet.updateBalance currency amount wallet) as [e | wallet'].
  - destruct H as [-> Hneg]. split; [| reflexivity].
    intros Hle. exfalso. exact (Qlt_irrefl 0 (Qle_lt_trans _ _ _ Hle Hneg)).
  - destruct H as (Hnew & Hothers & Hpos). split.
    + intros _. exists wallet'. repeat split; assumption.
    + intros Hneg. exfalso. specialize (Hpos _ Hnew).
      exact (Qlt_irrefl 0 (Qle_lt_trans _ _ _ Hpos Hneg)).
Qed.

Lemma wallet_update_never_goes_negative_witness :
  (exists wallet',
      Wallet.updateBalance "BTC" (- (1 # 5000)) Scenario.funded = inr wallet'
      /\ Wallet.balance wallet' "BTC" = Some ((1 # 1000) + - (1 # 5000))%Q
      /\ forall c, c <> "BTC"%string ->
           Wallet.balance wallet' c = Wallet.balance Scenario.funded c)
  /\ Wallet.updateBalance "BTC" (- (1 # 500)) Scenario.funded
     = inl (InsufficientBalance "BTC").
Proof.
  split.
  - apply (wallet_update_never_goes_negative Scenario.funded "BTC" (- (1 # 5000))
             (1 # 1000) eq_refl).
    vm_compute. discriminate.
  - apply (wallet_update_never_goes_negative Scenario.funded "BTC" (- (1 # 500))
             (1 # 1000) eq_refl).
    vm_compute. reflexivity.
Defined.

Lemma placeBet_connected_effect userId usdAmount currency price (w : World) (b : Bet) :
  accepted (placeBet userId usdAmount currency price w) = Some b ->
  mongoConnected w = true ->
  let w' := (placeBet userId usdAmount currency price w).2 in
  exists wallet wallet' n,
    wallets w !! userId = Some wallet
    /\ JS.lt (Wallet.balance wallet currency) (Some (usdAmount / price)%Q) = false
    /\ Wallet.updateBalance currency (- (usdAmount / price))%Q wallet = inr wallet'
    /\ wallets w' = <[userId := wallet']> (wallets w)
    /\ gameRoundId w = Some (ObjectId n)
    /\ transactions w'
       = transactions w
         ++ [{| tx_id := ObjectId (nextObjectId w); tx_userId := userId;
                tx_usdAmount := usdAmount; tx_cryptoAmount := (usdAmount / price)%Q;
                tx_currency := currency; tx_transactionType := bet;
                tx_priceAtTime := price; tx_gameRoundId := Some (ObjectId n);
                tx_multiplier := None |}]
    /\ nextObjectId w' = (nextObjectId w + 1)%N
    /\ bet_transactionId b = ObjectId (nextObjectId w)
    /\ (0 < usdAmount)%Q.
Proof.
  intros Hacc Hm. revert Hacc. unfold accepted.
  destruct w; cbn [mongoConnected] in Hm; subst.
  exec; cbn; intros [= <-];
    repeat match goal with
           | H : negb _ = false |- _ => apply negb_false_iff in H
           | H : orb _ _ = false |- _ => apply orb_false_iff in H; destruct H
           end;
    match goal with
    | Hu : Wallet.updateBalance _ _ ?a = inr ?b |- _ =>
        rewrite (updateBalance_saved _ _ _ _ Hu)
    end;
    match goal with
    | H : isObjectId _ = true |- _ =>
        cbn [tx_gameRoundId] in H; unfold gameRoundId in H;
        cbn [currentRound] in H;
        destruct currentRound0 as [r |]; [| discriminate H];
        cbn [fmap option_fmap option_map isObjectId] in H |- *;
        destruct (_id r) as [n | | |] eqn:Eid; try discriminate H
    end.
  all: do 2 eexists;
    match goal with
    | H : _id _ = ObjectId ?n |- _ => exists n; rewrite ?H
    end;
    repeat split; try eassumption.
  all: match goal with
    | H : Qle_bool _ 0 = false |- _ =>
        apply Qnot_le_lt; intros Hle; apply Qle_bool_iff in Hle; congruence
    end.
Qed.

(** With the store connected, an accepted wager takes exactly the
    converted amount out of the user's balance of that currency, which
    covered it, leaves the other currencies of the wallet alone, and files
    one 'bet' transaction whose identifier is the wager's; the round record
    it names is one of the store, as the transaction schema requires. *)
Theorem wager_debits_exactly_the_converted_amount
    (w : World) (userId currency : string) (usdAmount price : Q) (b : Bet) :
  accepted (placeBet userId usdAmount currency price w) = Some b ->
  mongoConnected w = true ->
  (0 < price)%Q ->
  let w' := (placeBet userId usdAmount currency price w).2 in
  let cryptoAmount := (usdAmount / price)%Q in
  exists wallet wallet' balance tx n,
    wallets w !! userId = Some wallet
    /\ wallets w' = <[userId := wallet']> (wallets w)
    /\ Wallet.balance wallet currency = Some balance
    /\ (0 < cryptoAmount <= balance)%Q
    /\ Wallet.balance wallet' currency = Some (balance + - cryptoAmount)%Q
    /\ (forall c, c <> currency -> Wallet.balance wallet' c = Wallet.balance wallet c)
    /\ transactions w' = transactions w ++ [tx]
    /\ tx_id tx = bet_transactionId b
    /\ tx_id tx = ObjectId (nextObjectId w)
    /\ nextObjectId w' = (nextObjectId w + 1)%N
    /\ tx_userId tx = userId /\ tx_transactionType tx = bet
    /\ tx_usdAmount tx = usdAmount /\ tx_cryptoAmount tx = cryptoAmount
    /\ tx_currency tx = currency /\ tx_priceAtTime tx = price
    /\ gameRoundId w = Some (ObjectId n)
    /\ tx_gameRoundId tx = Some (ObjectId n) /\ tx_multiplier tx = None.
Proof.
  intros Hacc Hm Hprice w' cryptoAmount.
  destruct (placeBet_connected_effect _ _ _ _ _ _ Hacc Hm)
    as (wallet & wallet' & n & Hw & Hlt & Hupd & Hws & Hround & Htx & Hnext & Hid & Hpos).
  fold w' in Hws, Htx, Hnext. fold cryptoAmount in Hlt, Hupd, Htx.
  assert (Hcrypto : (0 < cryptoAmount)%Q).
  { unfold cryptoAmount, Qdiv. apply Qmult_lt_0_compat; [exact Hpos |].
    apply Qinv_lt_0_compat. exact Hprice. }
  pose proof (Wallet_updateBalance_spec wallet currency (- cryptoAmount)%Q) as Hspec.
  rewrite Hupd in Hspec. destruct Hspec as (Hnew & Hothers & _).
  destruct (Wallet.balance wallet currency) as [balance |] eqn:Ebal.
  - exists wallet, wallet', balance. eexists. exists n.
    split; [exact Hw |]. split; [exact Hws |]. split; [exact Ebal |].
    split.
    { split; [exact Hcrypto |]. cbn [JS.lt] in Hlt.
      apply negb_false_iff in Hlt. apply Qle_bool_iff in Hlt. exact Hlt. }
    split; [exact Hnew |]. split; [exact Hothers |].
    split; [exact Htx |]. cbn. rewrite Hid. repeat split; assumption.
  - exfalso. unfold Wallet.updateBalance in Hupd. rewrite Ebal in Hupd.
    cbn [JS.truthy JS.lt negb andb] in Hupd.
    assert (Hle : Qle_bool 0 (- cryptoAmount) = false).
    { destruct (Qle_bool 0 (- cryptoAmount)) eqn:E; [| reflexivity].
      apply Qle_bool_iff in E. exfalso.
      apply (Qlt_irrefl 0). apply Qlt_le_trans with cryptoAmount; [exact Hcrypto |].
      apply Qopp_le_compat in E. rewrite Qopp_involutive in E. exact E. }
    rewrite Hle in Hupd. discriminate.
Qed.

Lemma wager_debits_exactly_the_converted_amount_witness :
  exists b wallet wallet',
    accepted (placeBet "alice" 10 "BTC" 50000 Scenario.second_betting) = Some b
    /\ wallets Scenario.second_betting !! "alice"%string = Some wallet
    /\ wallets (placeBet "alice" 10 "BTC" 50000 Scenario.second_betting).2 !! "alice"%string
       = Some wallet'
    /\ Wallet.balance wallet "BTC" = Some (1 # 1000)%Q
    /\ Wallet.balance wallet' "BTC" = Some ((1 # 1000) + - (10 / 50000))%Q
    /\ Wallet.balance wallet' "ETH" = Wallet.balance wallet "ETH".
Proof.
  destruct (accepted (placeBet "alice" 10 "BTC" 50000 Scenario.second_betting))
    as [b |] eqn:E; [| vm_compute in E; discriminate].
  destruct (wager_debits_exactly_the_converted_amount Scenario.second_betting
              "alice" "BTC" 10 50000 b E ltac:(vm_compute; reflexivity) eq_refl)
    as (wallet & wallet' & balance & tx & n & Hw & Hws & Hbal & _ & Hnew & Hothers & _).
  assert (Hwallet : wallet = Scenario.funded).
  { vm_compute in Hw. injection Hw as <-. reflexivity. }
  assert (Hbalance : balance = (1 # 1000)%Q).
  { rewrite Hwallet in Hbal. vm_compute in Hbal. injection Hbal as <-. reflexivity. }
  exists b, wallet, wallet'. split; [reflexivity |]. split; [exact Hw |].
  split; [rewrite Hws; apply lookup_insert_eq |].
  split; [rewrite <- Hbalance; exact Hbal |].
  split; [rewrite <- Hbalance; exact Hnew |].
  apply Hothers. discriminate.
Defined.

Lemma cashOut_connected_effect userId (w : World) (c : Cashout) :
  accepted (cashOut userId w) = Some c ->
  mongoConnected w = true ->
  let w' := (cashOut userId w).2 in
  exists b wallet wallet' n,
    activeBets w !! userId = Some b
    /\ wallets w !! userId = Some wallet
    /\ Wallet.updateBalance (bet_currency b)
         (bet_cryptoAmount b * currentMultiplier w)%Q wallet = inr wallet'
    /\ wallets w' = <[userId := wallet']> (wallets w)
    /\ gameRoundId w = Some (ObjectId n)
    /\ transactions w'
       = transactions w
         ++ [{| tx_id := ObjectId (nextObjectId w); tx_userId := userId;
                tx_usdAmount := (bet_usdAmount b * currentMultiplier w)%Q;
                tx_cryptoAmount := (bet_cryptoAmount b * currentMultiplier w)%Q;
                tx_currency := bet_currency b; tx_transactionType := cashout;
                tx_priceAtTime := (bet_usdAmount b / bet_cryptoAmount b)%Q;
                tx_gameRoundId := Some (ObjectId n);
                tx_multiplier := Some (currentMultiplier w) |}]
    /\ nextObjectId w' = (nextObjectId w + 1)%N
    /\ co_transactionId c = ObjectId (nextObjectId w).
Proof.
  intros Hacc Hm. revert Hacc. unfold accepted.
  destruct w; cbn [mongoConnected] in Hm; subst.
  exec; cbn; intros [= <-];
    repeat match goal with
           | H : negb _ = false |- _ => apply negb_false_iff in H
           end;
    match goal with
    | Hu : Wallet.updateBalance _ _ ?a = inr ?b |- _ =>
        rewrite (updateBalance_saved _ _ _ _ Hu)
    end;
    match goal with
    | H : isObjectId _ = true |- _ =>
        cbn [tx_gameRoundId] in H; unfold gameRoundId in H;
        cbn [currentRound] in H;
        destruct currentRound0 as [r |]; [| discriminate H];
        cbn [fmap option_fmap option_map isObjectId] in H |- *;
        destruct (_id r) as [n | | |] eqn:Eid; try discriminate H
    end.
  all: do 3 eexists;
    match goal with
    | H : _id _ = ObjectId ?n |- _ => exists n; rewrite ?H
    end;
    repeat split; try eassumption.
Qed.

(** With the store connected, an accepted cashout adds exactly the wager's
    asset amount times the current multiplier to the user's balance of the
    wager's currency, leaves the other currencies alone, and files one
    'cashout' transaction with that amount, multiplier and round. *)
Theorem cashout_credits_exactly_the_payout
    (w : World) (userId : string) (c : Cashout) :
  accepted (cashOut userId w) = Some c ->
  mongoConnected w = true ->
  let w' := (cashOut userId w).2 in
  exists b wallet wallet' tx n,
    activeBets w !! userId = Some b
    /\ wallets w !! userId = Some wallet
    /\ wallets w' = <[userId := wallet']> (wallets w)
    /\ Wallet.balance wallet' (bet_currency b)
       = JS.add (Wallet.balance wallet (bet_currency b))
           (Some (bet_cryptoAmount b * currentMultiplier w)%Q)
    /\ (forall cur, cur <> bet_currency b ->
          Wallet.balance wallet' cur = Wallet.balance wallet cur)
    /\ transactions w' = transactions w ++ [tx]
    /\ tx_id tx = co_transactionId c
    /\ nextObjectId w' = (nextObjectId w + 1)%N
    /\ tx_userId tx = userId /\ tx_transactionType tx = cashout
    /\ tx_cryptoAmount tx = co_cryptoAmount c /\ tx_usdAmount tx = co_usdAmount c
    /\ tx_cryptoAmount tx = (bet_cryptoAmount b * currentMultiplier w)%Q
    /\ tx_currency tx = bet_currency b
    /\ gameRoundId w = Some (ObjectId n)
    /\ tx_gameRoundId tx = Some (ObjectId n)
    /\ tx_multiplier tx = Some (currentMultiplier w).
Proof.
  intros Hacc Hm w'.
  destruct (cashOut_connected_effect _ _ _ Hacc Hm)
    as (b & wallet & wallet' & n & Hb & Hw & Hupd & Hws & Hround & Htx & Hnext & Hid).
  fold w' in Hws, Htx, Hnext.
  destruct (cashOut_payout userId w c Hacc) as (b' & Hb' & _ & _ & _ & Husd & Hcrypto).
  assert (b' = b) by congruence. subst b'.
  pose proof (Wallet_updateBalance_spec wallet (bet_currency b)
                (bet_cryptoAmount b * currentMultiplier w)%Q) as Hspec.
  rewrite Hupd in Hspec. destruct Hspec as (Hnew & Hothers & _).
  exists b, wallet, wallet'. eexists. exists n.
  split; [exact Hb |]. split; [exact Hw |]. split; [exact Hws |].
  split; [exact Hnew |]. split; [exact Hothers |]. split; [exact Htx |].
  cbn. rewrite Hid, Husd, Hcrypto. repeat split; assumption.
Qed.

Lemma cashout_credits_exactly_the_payout_witness :
  exists c b wallet wallet',
    accepted (cashOut "alice" Scenario.second_at_two) = Some c
    /\ activeBets Scenario.second_at_two !! "alice"%string = Some b
    /\ wallets Scenario.second_at_two !! "alice"%string = Some wallet
    /\ wallets (cashOut "alice" Scenario.second_at_two).2 !! "alice"%string = Some wallet'
    /\ Wallet.balance wallet' (bet_currency b)
       = JS.add (Wallet.balance wallet (bet_currency b))
           (Some (bet_cryptoAmount b * currentMultiplier Scenario.second_at_two)%Q).
Proof.
  destruct (accepted (cashOut "alice" Scenario.second_at_two)) as [c |] eqn:E;
    [| vm_compute in E; discriminate].
  destruct (cashout_credits_exactly_the_payout Scenario.second_at_two "alice" c E
              ltac:(vm_compute; reflexivity))
    as (b & wallet & wallet' & tx & n & Hb & Hw & Hws & Hnew & _).
  exists c, b, wallet, wallet'. split; [reflexivity |]. split; [exact Hb |].
  split; [exact Hw |]. split; [rewrite Hws; apply lookup_insert_eq | exact Hnew].
Defined.

(** With the store connected and no round record of the store (as in the
    betting phase of the first round), a valid wager that the wallet covers
    is not placed: the [save] of its transaction throws, after the wallet
    was debited and saved. *)
Theorem wager_without_store_round_is_debited_and_refused
    (w : World) (userId currency : string) (usdAmount price : Q) (wallet wallet' : Wallet.t) :
  userId <> ""%string ->
  (0 < usdAmount)%Q ->
  currency ∈ Config.supportedCurrencies ->
  roundPhase w = betting ->
  activeBets w !! userId = None ->
  mongoConnected w = true ->
  wallets w !! userId = Some wallet ->
  JS.lt (Wallet.balance wallet currency) (Some (usdAmount / price)%Q) = false ->
  Wallet.updateBalance currency (- (usdAmount / price))%Q wallet = inr wallet' ->
  isObjectId (gameRoundId w) = false ->
  let result := placeBet userId usdAmount currency price w in
  result.1 = inl TransactionInvalid
  /\ wallets result.2 = <[userId := wallet']> (wallets w)
  /\ activeBets result.2 = activeBets w
  /\ transactions result.2 = transactions w.
Proof.
  intros Hu Hamount Hcur Hphase Hbet Hmongo Hwallet Hlt Hupd Hround result.
  subst result. unfold placeBet.
  rewrite (bind_inr _ _ w w tt) by (apply placeBet_checks_pass; assumption).
  rewrite bind_gets, Hmongo, bind_gets.
  cbn [usdToCrypto fst snd].
  destruct w; cbn [wallets activeBets mongoConnected roundPhase] in *.
  unfold placeBet_debit, findWallet, updateBalance_issue, saveWallet,
    placeBet_transaction, saveTransaction.
  rewrite !bind_bind, bind_gets. cbn [wallets]. rewrite Hwallet, bind_ret.
  rewrite !bind_bind, bind_when_throw, Hlt, Hupd, bind_ret.
  rewrite !bind_bind, bind_modify. cbn [wallets]. rewrite Hwallet.
  rewrite (updateBalance_saved _ _ _ _ Hupd).
  rewrite !bind_bind, bind_gets, bind_ret, !bind_bind, bind_gets.
  cbn [nextObjectId set_wallets tx_gameRoundId].
  unfold gameRoundId in *. cbn [currentRound] in *.
  rewrite !bind_bind, bind_when_throw, Hround. cbn [negb].
  repeat split.
Qed.

Lemma wager_without_store_round_is_debited_and_refused_witness :
  let result := placeBet "alice" 10 "BTC" 50000 Scenario.betting_open in
  result.1 = inl TransactionInvalid
  /\ (exists wallet',
        wallets result.2 !! "alice"%string = Some wallet'
        /\ JS.strict_eq (Wallet.balance wallet' "BTC") (Some 0.0008%Q) = true)
  /\ activeBets result.2 = activeBets Scenario.betting_open
  /\ transactions result.2 = transactions Scenario.betting_open.
Proof.
  destruct (Wallet.updateBalance "BTC" (- (10 / 50000))%Q Scenario.funded)
    as [e | wallet'] eqn:Eupd; [vm_compute in Eupd; discriminate |].
  destruct (wager_without_store_round_is_debited_and_refused Scenario.betting_open
              "alice" "BTC" 10 50000 Scenario.funded wallet')
    as (Hthrow & Hwallets & Hbets & Htxs).
  - discriminate.
  - reflexivity.
  - apply elem_of_cons. left. reflexivity.
  - vm_compute. reflexivity.
  - vm_compute. reflexivity.
  - vm_compute. reflexivity.
  - vm_compute. reflexivity.
  - vm_compute. reflexivity.
  - exact Eupd.
  - vm_compute. reflexivity.
  - split; [exact Hthrow |]. split; [| split; assumption].
    exists wallet'. split; [rewrite Hwallets; apply lookup_insert_eq |].
    vm_compute in Eupd. injection Eupd as <-. vm_compute. reflexivity.
Defined.

End WalletUpdates.

(** ** The wallet service and the sample rounds *)

Section WalletServiceAndSeed.

Lemma currentBalance_eq (wallet : Wallet.t) (currency : string) (b : Q) :
  Wallet.balance wallet currency = Some b ->
  (WalletService.currentBalance wallet currency == b)%Q.
Proof.
  intros Hb. unfold WalletService.currentBalance. rewrite Hb.
  destruct (Qeq_bool b 0) eqn:E; [| reflexivity].
  apply Qeq_bool_iff in E. symmetry. exact E.
Qed.

(** The wallet service's [updateBalance] and the wallet document's
    method agree on a wallet that holds a number for the currency: both
    fail with 'Insufficient balance' when the sum would be negative, and
    nothing is written; otherwise both store the sum, and the service
    writes the wallet back under its user. *)
Theorem wallet_service_agrees_with_the_document
    (w : World) (userId currency : string) (amount b : Q) (wallet : Wallet.t) :
  wallets w !! userId = Some wallet ->
  Wallet.balance wallet currency = Some b ->
  let served := WalletService.updateBalance userId currency amount w in
  ((b + amount < 0)%Q ->
   served = (inl (InsufficientBalance currency), w)
   /\ Wallet.updateBalance currency amount wallet = inl (InsufficientBalance currency))
  /\ ((0 <= b + amount)%Q ->
      exists wallet1 wallet2 x,
        served = (inr wallet1, set_wallets (<[userId := wallet1]> (wallets w)) w)
        /\ Wallet.updateBalance currency amount wallet = inr wallet2
        /\ Wallet.balance wallet1 currency = Some x
        /\ (x == b + amount)%Q
        /\ Wallet.balance wallet2 currency = Some (b + amount)%Q
        /\ forall c, c <> currency ->
             Wallet.balance wallet1 c = Wallet.balance wallet c
             /\ Wallet.balance wallet2 c = Wallet.balance wallet c).
Proof.
  intros Hw Hb served.
  pose proof (currentBalance_eq wallet currency b Hb) as Hcur.
  pose proof (Wallet_updateBalance_spec wallet currency amount) as Hspec.
  rewrite Hb in Hspec. cbn [JS.add] in Hspec.
  assert (Hserved : served =
    if JS.lt (Some (WalletService.currentBalance wallet currency + amount)%Q) (Some 0%Q)
    then (inl (InsufficientBalance currency), w)
    else
      let wallet' := Wallet.Make (<[currency := Some (WalletService.currentBalance wallet
                                                        currency + amount)%Q]>
                                    (Wallet.balances wallet)) in
      (inr wallet', set_wallets (<[userId := wallet']> (wallets w)) w)).
  { subst served. unfold WalletService.updateBalance, findWallet, saveWallet.
    rewrite bind_bind, bind_gets, Hw, bind_ret.
    destruct (JS.lt _ _); unfold when, bind, throw, ret, modify; [reflexivity |].
    rewrite Hw. unfold Wallet.balance at 1. cbn [Wallet.balances].
    rewrite lookup_insert_eq. reflexivity. }
  rewrite Hserved. clear Hserved served. cbn [JS.lt].
  split.
  - intros Hneg.
    assert (Hlt : Qle_bool 0 (WalletService.currentBalance wallet currency + amount) = false).
    { destruct (Qle_bool 0 _) eqn:E; [| reflexivity]. apply Qle_bool_iff in E.
      rewrite Hcur in E. exfalso. exact (Qlt_irrefl 0 (Qle_lt_trans _ _ _ E Hneg)). }
    rewrite Hlt. cbn [negb]. split; [reflexivity |].
    destruct (Wallet.updateBalance currency amount wallet) as [e | wallet2].
    + destruct Hspec as [-> _]. reflexivity.
    + destruct Hspec as (Hnew & _ & Hpos). specialize (Hpos _ Hnew).
      exfalso. exact (Qlt_irrefl 0 (Qle_lt_trans _ _ _ Hpos Hneg)).
  - intros Hle.
    assert (Hok : Qle_bool 0 (WalletService.currentBalance wallet currency + amount) = true).
    { apply Qle_bool_iff. rewrite Hcur. exact Hle. }
    rewrite Hok. cbn [negb].
    destruct (Wallet.updateBalance currency amount wallet) as [e | wallet2].
    + destruct Hspec as [_ Hneg].
      exfalso. exact (Qlt_irrefl 0 (Qle_lt_trans _ _ _ Hle Hneg)).
    + destruct Hspec as (Hnew & Hothers & _).
      eexists. exists wallet2. eexists. split; [reflexivity |]. split; [reflexivity |].
      split; [unfold Wallet.balance; cbn [Wallet.balances];
              rewrite lookup_insert_eq; reflexivity |].
      split; [rewrite Hcur; reflexivity |]. split; [exact Hnew |].
      intros c Hc. split; [| apply Hothers; exact Hc].
      unfold Wallet.balance. cbn [Wallet.balances].
      rewrite lookup_insert_ne by congruence. reflexivity.
Qed.

Lemma wallet_service_agrees_with_the_document_witness :
  WalletService.updateBalance "alice" "BTC" (- (1 # 500)) Scenario.second_betting
  = (inl (InsufficientBalance "BTC"), Scenario.second_betting)
  /\ Wallet.updateBalance "BTC" (- (1 # 500)) Scenario.funded
     = inl (InsufficientBalance "BTC").
Proof.
  apply (wallet_service_agrees_with_the_document Scenario.second_betting "alice" "BTC"
           (- (1 # 500)) (1 # 1000) Scenario.funded).
  - vm_compute. reflexivity.
  - vm_compute. reflexivity.
  - vm_compute. reflexivity.
Defined.

Lemma crash_point_default_range (seed : string) (roundNumber : N) :
  exists k : Z,
    ProvablyFair.calculateCrashPoint (ProvablyFair.generateHash seed roundNumber)
      ProvablyFair.defaultMaxCrashValue = Some (inject_Z k)
    /\ 1 <= k <= 100.
Proof.
  destruct (generateHash_fragment seed roundNumber) as (d & Hd & Hrange).
  exists (1 + Z.rem d 100). rewrite calculateCrashPoint_eq, Hd.
  unfold ProvablyFair.defaultMaxCrashValue. split; [reflexivity |].
  rewrite Z.rem_mod_nonneg by lia.
  pose proof (Z.mod_pos_bound d 100). lia.
Qed.

(** The five sample rounds of the seeding script are numbered 1 to 5
    in order, are completed, and each passes [verifyCrashPoint] with the
    default bound: its hash is the hash of its seed and number, and its
    crash point is the whole number between 1 and 100 derived from it,
    whatever bound the server is configured with. *)
Theorem sample_rounds_verify (generateSeed : N -> string) (now : N -> Z * Z) :
  let rounds := SeedDatabase.createSampleGameRounds generateSeed now in
  (SeedDatabase.roundNumber <$> rounds) = [1; 2; 3; 4; 5]%N
  /\ Forall (fun r =>
       ProvablyFair.verifyCrashPoint (SeedDatabase.seed r) (SeedDatabase.roundNumber r)
         (SeedDatabase.hash r) (SeedDatabase.crashPoint r)
         ProvablyFair.defaultMaxCrashValue = true
       /\ SeedDatabase.seed r = generateSeed (SeedDatabase.roundNumber r)
       /\ SeedDatabase.status r = completed
       /\ exists k : Z, SeedDatabase.crashPoint r = Some (inject_Z k) /\ 1 <= k <= 100)
     rounds.
Proof.
  cbv zeta. unfold SeedDatabase.createSampleGameRounds. split; [reflexivity |].
  cbn [fmap list_fmap].
  repeat (apply List.Forall_cons; [| ]); try apply List.Forall_nil;
    cbn [SeedDatabase.seed SeedDatabase.roundNumber SeedDatabase.hash
         SeedDatabase.crashPoint SeedDatabase.status];
    (split; [apply generated_verifies; discriminate |]);
    (split; [reflexivity |]); (split; [reflexivity |]);
    apply crash_point_default_range.
Qed.

End WalletServiceAndSeed.

(** ** The HTTP handlers *)

Section HttpStatus.

Import GameController.

(** What the handlers look for in the message of each error. *)
Lemma includes_insufficient (e : Error) :
  includes "Insufficient" (message e)
  = match e with
    | InsufficientBalance _ => true
    | UnsupportedCurrency c => includes "Insufficient" c
    | _ => false
    end.
Proof. destruct e; reflexivity. Qed.

Lemma includes_cannot_place_bet (e : Error) :
  includes "Cannot place bet" (message e)
  = match e with
    | InsufficientBalance c => includes "Cannot place bet" (message e)
    | UnsupportedCurrency c => includes "Cannot place bet" c
    | _ => false
    end.
Proof. destruct e; reflexivity. Qed.



(** The status of a well-formed wager request: 200 with the wager
    when the service accepts it, 400 with the message when the balance is
    insufficient, and 500 'Failed to place bet' for the other refusals of
    the service (betting closed, a second wager, no wallet, no user id):
    their reason is not reported, and for the transaction the store
    refuses, when the wallet is debited already.  An unsupported currency
    is answered 500 too, unless its own text contains one of the two
    phrases the handler looks for.  No refusal of the service is answered
    503. *)
Theorem placeBet_http_status
    (usd : Q) (currency userId : string) (price : Q) (w : World) :
  (0 < usd)%Q -> currency <> ""%string ->
  let served := GameService.placeBet userId usd currency price w in
  let answer := GameController.placeBet true (Some usd) (Some currency) userId price w in
  answer.2 = served.2
  /\ match served.1 with
     | inr b => answer.1 = {| statusCode := 200; json := BetResult b |}
     | inl (InsufficientBalance c) =>
         answer.1 = reply 400 ("Insufficient " +:+ c +:+ " balance")
     | inl (UnsupportedCurrency c) =>
         c = currency
         /\ answer.1
            = if includes "Insufficient" c || includes "Cannot place bet" c
              then reply 400 ("Unsupported currency: " +:+ c)
              else reply 500 "Failed to place bet"
     | inl TransactionInvalid => answer.1 = reply 500 "Failed to place bet"
     | inl _ => answer.1 = reply 500 "Failed to place bet" /\ answer.2 = w
     end.
Proof.
  intros Hpos Hcur served answer. subst answer. unfold GameController.placeBet.
  assert (Hz : Qeq_bool usd 0 = false).
  { destruct (Qeq_bool usd 0) eqn:E; [| reflexivity]. apply Qeq_bool_iff in E.
    rewrite E in Hpos. exfalso. exact (Qlt_irrefl 0 Hpos). }
  assert (Hle : Qle_bool usd 0 = false).
  { destruct (Qle_bool usd 0) eqn:E; [| reflexivity]. apply Qle_bool_iff in E.
    exfalso. exact (Qlt_irrefl 0 (Qlt_le_trans _ _ _ Hpos E)). }
  assert (Ht : JS.truthy_string currency = true).
  { unfold JS.truthy_string. apply negb_true_iff. apply String.eqb_neq. exact Hcur. }
  rewrite Hz, Ht, Hle. cbn [orb negb].
  pose proof (placeBet_error userId usd currency price w) as Herr.
  assert (Hunsupported : forall c, served.1 = inl (UnsupportedCurrency c) -> c = currency).
  { subst served. clear. intros c. destruct w. exec; cbn; intros [=]; try congruence.
    match goal with
    | H : Wallet.updateBalance ?cur ?a ?wallet = inl _ |- _ =>
        pose proof (Wallet_updateBalance_spec wallet cur a) as Hspec;
        rewrite H in Hspec; destruct Hspec as [Hspec _]
    end.
    congruence. }
  change (GameService.placeBet userId usd currency price w) with served in Herr |- *.
  clearbody served. destruct served as [[e | b] w']; cbn [fst snd] in *.
  - rewrite includes_insufficient, includes_cannot_place_bet.
    split; [destruct e; repeat match goal with |- context [if ?b then _ else _] =>
                                       destruct b end; reflexivity |].
    specialize (Herr e eq_refl).
    destruct e as [| c | | | | c | | | | | |]; cbn [orb];
      try (split; [reflexivity | apply Herr; discriminate]);
      try reflexivity.
    split; [apply Hunsupported; reflexivity |].
    destruct (includes "Insufficient" c); [reflexivity |].
    destruct (includes "Cannot place bet" c); reflexivity.
  - split; reflexivity.
Qed.

Lemma placeBet_http_status_witness :
  (GameController.placeBet true (Some 10%Q) (Some "BTC"%string) "alice" 50000 Scenario.second_at_two).1
  = reply 500 "Failed to place bet"
  /\ (GameController.placeBet true (Some 10%Q) (Some "BTC"%string) "alice" 50000
        Scenario.second_at_two).2 = Scenario.second_at_two.
Proof.
  pose proof (placeBet_http_status 10 "BTC" "alice" 50000 Scenario.second_at_two eq_refl
                ltac:(discriminate)) as [_ H].
  assert (E : (GameService.placeBet "alice" 10 "BTC" 50000 Scenario.second_at_two).1
              = inl BettingClosed) by (vm_compute; reflexivity).
  cbv zeta in H. rewrite E in H. exact H.
Defined.


End HttpStatus.

(** ** Timers and the store *)

Section TimersAndStore.

Import Invariants.

(** Timer callbacks, operator commands, a new start of the game loop and
    the passing of time never touch a wallet or the transaction log:
    balances change only through requests.  In particular a crash neither
    refunds nor debits. *)
Theorem only_requests_touch_the_store (e : Event) (w : World) :
  no_request e ->
  wallets (step e w) = wallets w /\ transactions (step e w) = transactions w.
Proof.
  intros He. destruct e; cbn [step no_request] in *; try contradiction;
    destruct w; unfold_loop; simpl_world; split_tests; split; reflexivity.
Qed.

Lemma only_requests_touch_the_store_witness :
  let before := run [Elapse 320000] Scenario.second_at_two in
  let crashed := step MultiplierTimerFires before in
  roundPhase crashed = ended
  /\ wallets crashed = wallets before
  /\ transactions crashed = transactions before.
Proof.
  split; [vm_compute; reflexivity |].
  apply (only_requests_touch_the_store MultiplierTimerFires
           (run [Elapse 320000] Scenario.second_at_two) I).
Defined.

End TimersAndStore.
